(** * STM32F070 register-level demo: temperature report and LED brightness over UART

    A shallow embedding of [Src/system.c], [Src/adc.c], [Src/pwm.c],
    [Src/uart.c] and [Src/main.c], with the peripheral registers of
    [Inc/nucleo_conf.h] that the command loop uses as fields of a
    record, and the registers that the start-up configures in a map by
    address.

    Conventions.
    - A C integer of width w is a [Z]; every conversion and every
      wrap-around of the C expression is written out with [uint32],
      [uint8] and [int32].  [char] is the unsigned 8-bit type of the ARM
      EABI.
    - The program runs against a schedule of hardware events.  Before
      each read of a volatile object (a peripheral register or
      [msTicks]) one batch of events arrives: SysTick interrupts, bytes
      received by the USART, the transmitter becoming empty, a finished
      ADC conversion.  A program that is still busy-waiting when the
      schedule ends has no result ([None]).
    - C strings are lists of bytes without the terminating NUL.
    - The start-up runs against moments: a batch of events as above,
      together with the status bits that the hardware sets and clears
      in RCC_CR, RCC_CFGR and ADC_CR.                                    *)

From Stdlib Require Import ZArith Lia List String Ascii DecimalString.
From stdpp Require Import base list gmap.

Local Open Scope Z_scope.

(** ** Integer conversions *)

Definition uint32 (z : Z) : Z := z mod 2 ^ 32.
Definition uint8 (z : Z) : Z := z mod 2 ^ 8.
(** Conversion to [int32_t] (two's complement, as gcc defines it). *)
Definition int32 (z : Z) : Z := (z + 2 ^ 31) mod 2 ^ 32 - 2 ^ 31.

(** ** Registers ([Inc/nucleo_conf.h]) and the global of [system.c] *)

Record hw : Type := Hw {
  msTicks : Z;       (* volatile uint32_t msTicks *)
  USART_ISR : Z;
  USART_RDR : Z;
  USART_TDR : Z;
  TIM2_CCR1 : Z;
  ADC_DR : Z;
  TEMP30_CAL : Z;    (* the uint16_t stored at TEMP30_CAL_ADDR *)
  wire : list Z;     (* every byte written to USART_TDR, oldest first *)
  taken : list Z     (* every value read from USART_RDR, oldest first *)
}.

Definition set_msTicks (v : Z) (h : hw) : hw :=
  Hw v (USART_ISR h) (USART_RDR h) (USART_TDR h) (TIM2_CCR1 h) (ADC_DR h)
     (TEMP30_CAL h) (wire h) (taken h).
Definition set_USART_ISR (v : Z) (h : hw) : hw :=
  Hw (msTicks h) v (USART_RDR h) (USART_TDR h) (TIM2_CCR1 h) (ADC_DR h)
     (TEMP30_CAL h) (wire h) (taken h).
Definition set_USART_RDR (v : Z) (h : hw) : hw :=
  Hw (msTicks h) (USART_ISR h) v (USART_TDR h) (TIM2_CCR1 h) (ADC_DR h)
     (TEMP30_CAL h) (wire h) (taken h).
Definition set_TIM2_CCR1 (v : Z) (h : hw) : hw :=
  Hw (msTicks h) (USART_ISR h) (USART_RDR h) (USART_TDR h) v (ADC_DR h)
     (TEMP30_CAL h) (wire h) (taken h).
Definition set_ADC_DR (v : Z) (h : hw) : hw :=
  Hw (msTicks h) (USART_ISR h) (USART_RDR h) (USART_TDR h) (TIM2_CCR1 h) v
     (TEMP30_CAL h) (wire h) (taken h).

Definition VDD_CALIB : Z := 3300.
Definition VDD_APPLI : Z := 3300.
Definition AVG_SLOPE : Z := 5336.

(** Bits of USART_ISR used by the code: [1 << 5] (RXNE), [1 << 7] (TXE);
    [1 << 3] (ORE) is set by the receiver on overrun. *)
Definition ISR_RXNE : Z := Z.shiftl 1 5.
Definition ISR_TXE : Z := Z.shiftl 1 7.
Definition ISR_ORE : Z := Z.shiftl 1 3.

(** ** [system.c]: the tick handler *)

(** [void SysTick_Handler(void) { ++msTicks; }] *)
Definition SysTick_Handler (h : hw) : hw := set_msTicks (uint32 (msTicks h + 1)) h.

(** ** Hardware events *)

Inductive hw_event : Type :=
| EvTick              (* SysTick reaches zero: the handler runs *)
| EvRx (b : Z)        (* the receiver has shifted in the byte b *)
| EvTxe               (* the transmit data register is empty again *)
| EvAdc (v : Z).      (* a conversion ends with the 12-bit sample v *)

Definition hw_step (h : hw) (e : hw_event) : hw :=
  match e with
  | EvTick => SysTick_Handler h
  | EvRx b =>
      if Z.land (USART_ISR h) ISR_RXNE =? 0
      then set_USART_ISR (Z.lor (USART_ISR h) ISR_RXNE) (set_USART_RDR (uint8 b) h)
      else set_USART_ISR (Z.lor (USART_ISR h) ISR_ORE) h
  | EvTxe => set_USART_ISR (Z.lor (USART_ISR h) ISR_TXE) h
  | EvAdc v => set_ADC_DR (Z.land v 4095) h
  end.

Definition batch : Type := list hw_event.

Definition arrive (b : batch) (h : hw) : hw := fold_left hw_step b h.

(** ** Programs: state and failure passing *)

Record world : Type := World { regs : hw; pending : list batch }.

Definition M (A : Type) : Type := world -> option (A * world).

Definition ret {A} (a : A) : M A := fun w => Some (a, w).

Definition bind {A B} (m : M A) (k : A -> M B) : M B :=
  fun w => match m w with
           | Some (a, w') => k a w'
           | None => None
           end.

Declare Scope prog_scope.
Delimit Scope prog_scope with prog.
Notation "x <- m ;; k" := (bind m (fun x => k))
  (at level 100, m at level 99, k at level 200, right associativity) : prog_scope.
Notation "m ;; k" := (bind m (fun _ => k))
  (at level 100, k at level 200, right associativity) : prog_scope.
Local Open Scope prog_scope.

(** One batch of events arrives, then the volatile object is read. *)
Definition volatile_read {A} (f : hw -> A) : M A :=
  fun w => match pending w with
           | [] => None
           | b :: rest => let h := arrive b (regs w) in Some (f h, World h rest)
           end.

Definition modify (f : hw -> hw) : M unit :=
  fun w => Some (tt, World (f (regs w)) (pending w)).

(** [while (cond);] where [cond] reads a volatile object. *)
Fixpoint spin (cond : hw -> bool) (h : hw) (sched : list batch) : option (unit * world) :=
  match sched with
  | [] => None
  | b :: rest =>
      let h' := arrive b h in
      if cond h' then spin cond h' rest else Some (tt, World h' rest)
  end.

Definition spin_while (cond : hw -> bool) : M unit :=
  fun w => spin cond (regs w) (pending w).

(** Reading USART_RDR clears RXNE; writing USART_TDR clears TXE and puts
    the byte on the wire. *)
Definition read_USART_RDR : M Z :=
  rdr <- volatile_read USART_RDR ;;
  modify (fun h =>
    Hw (msTicks h) (Z.ldiff (USART_ISR h) ISR_RXNE) (USART_RDR h) (USART_TDR h)
       (TIM2_CCR1 h) (ADC_DR h) (TEMP30_CAL h) (wire h) (taken h ++ [rdr])) ;;
  ret rdr.

Definition write_USART_TDR (c : Z) : M unit :=
  modify (fun h =>
    Hw (msTicks h) (Z.ldiff (USART_ISR h) ISR_TXE) (USART_RDR h) c (TIM2_CCR1 h)
       (ADC_DR h) (TEMP30_CAL h) (wire h ++ [c]) (taken h)).

(** ** [system.c]: [delay_ms] *)

Definition delay_ms (ms : Z) : M unit :=
  start_ticks <- volatile_read msTicks ;;
  spin_while (fun h => uint32 (msTicks h - start_ticks) <? ms).

(** ** [adc.c]: [get_temperature] *)

(** The return expression; [VDD_APPLI], [VDD_CALIB] and [AVG_SLOPE] are
    [uint32_t], so after the usual arithmetic conversions every operator
    works on [uint32_t]. *)
Definition temperature_of (adc_value cal30 : Z) : Z :=
  let a := uint32 (int32 adc_value) in                 (* (int32_t)adc_value, converted *)
  let scaled := uint32 (a * VDD_APPLI) / VDD_CALIB in
  let diff := uint32 (scaled - uint32 (int32 cal30)) in
  let micro := uint32 (diff * 1000) in
  int32 (uint32 (micro / AVG_SLOPE + 30)).

Definition get_temperature : M Z :=
  volatile_read (fun h => temperature_of (ADC_DR h) (TEMP30_CAL h)).

(** ** [pwm.c]: [set_led_brightness] *)

Definition set_led_brightness (brightness : Z) (h : hw) : hw :=
  let brightness := if brightness >? 99 then 99 else brightness in
  set_TIM2_CCR1 brightness h.

(** ** [uart.c] *)

(** [return (USART_ISR & (1 << 5)) ? 1 : 0;] *)
Definition uart_data_available : M Z :=
  isr <- volatile_read USART_ISR ;;
  ret (if Z.land isr (Z.shiftl 1 5) =? 0 then 0 else 1).

(** [if (USART_ISR & (1 << 5)) return (char)USART_RDR; return 0;] *)
Definition uart_receive_char : M Z :=
  isr <- volatile_read USART_ISR ;;
  if Z.land isr (Z.shiftl 1 5) =? 0 then ret 0
  else (rdr <- read_USART_RDR ;; ret (uint8 rdr)).

(** [while (!(USART_ISR & (1 << 7)));] *)
Definition wait_txe : M unit :=
  spin_while (fun h => Z.land (USART_ISR h) (Z.shiftl 1 7) =? 0).

(** [for (int i = 0; str[i]; i++) { USART_TDR = str[i]; while (...); }] *)
Fixpoint uart_send_string (str : list Z) : M unit :=
  match str with
  | [] => ret tt
  | c :: rest =>
      if c =? 0 then ret tt
      else (write_USART_TDR c ;; wait_txe ;; uart_send_string rest)
  end.

(** ** Text: string literals and [sprintf] *)

Definition bytes_of (s : string) : list Z :=
  map (fun c => Z.of_N (N_of_ascii c)) (list_ascii_of_string s).

Definition crlf : list Z := [13; 10].

(** What [%d] and [%ld] print. *)
Definition decimal (z : Z) : list Z := bytes_of (NilZero.string_of_int (Z.to_int z)).

Definition msg_temp_on : list Z := bytes_of "Temperature reading ON" ++ crlf.
Definition msg_temp_off : list Z := bytes_of "Temperature reading OFF" ++ crlf.
Definition msg_led_prompt : list Z :=
  bytes_of "LED command received, waiting for digits..." ++ crlf.
Definition msg_no_digits : list Z := bytes_of "No digits received after L command" ++ crlf.
(** [sprintf(buffer, "\r\nLED brightness set to %d%%\r\n", brightness)] *)
Definition msg_brightness (brightness : Z) : list Z :=
  crlf ++ bytes_of "LED brightness set to " ++ decimal brightness ++ bytes_of "%" ++ crlf.
(** [sprintf(buffer, "Temp: %ld degC\r\n", temperature)] *)
Definition msg_temperature (temperature : Z) : list Z :=
  bytes_of "Temp: " ++ decimal temperature ++ bytes_of " degC" ++ crlf.
Definition msg_banner : list (list Z) :=
  [ bytes_of "STM32F0xx Demo" ++ crlf;
    bytes_of "T - to toggle temperature reading" ++ crlf;
    bytes_of "L<0-99> - to set LED brightness" ++ crlf ].

(** ** [main.c]: the command loop *)

(** [c >= '0' && c <= '9'] *)
Definition is_digit (c : Z) : bool := (48 <=? c) && (c <=? 57).

(** The digit loop of the L command (lines 86-106).  Every iteration
    that goes round again has read [msTicks], so a fuel equal to the
    number of pending batches plus one never runs out first. *)
Fixpoint collect_digits (fuel : nat) (start_time idx : Z) (brightness_str : list Z)
  : M (Z * list Z) :=
  match fuel with
  | O => fun _ => None
  | S fuel' =>
      if negb (idx <? 2) then ret (idx, brightness_str)
      else
        now <- volatile_read msTicks ;;
        if negb (uint32 (now - start_time) <? 5000) then ret (idx, brightness_str)
        else
          avail <- uart_data_available ;;
          if avail =? 0 then collect_digits fuel' start_time idx brightness_str
          else
            c <- uart_receive_char ;;
            write_USART_TDR c ;;
            wait_txe ;;
            if is_digit c then
              delay_ms 5 ;;
              collect_digits fuel' start_time (idx + 1)
                             (<[Z.to_nat idx := c]> brightness_str)
            else ret (idx, brightness_str)
  end.

(** [for (uint8_t i = 0; i < idx; ++i)
       brightness = brightness * 10 + (brightness_str[i] - '0');] *)
Fixpoint parse_from (n : nat) (i : nat) (brightness_str : list Z) (brightness : Z) : Z :=
  match n with
  | O => brightness
  | S n' =>
      parse_from n' (S i) brightness_str
                 (uint8 (brightness * 10 + (nth i brightness_str 0 - 48)))
  end.

Definition parse_brightness (idx : Z) (brightness_str : list Z) : Z :=
  parse_from (Z.to_nat idx) 0 brightness_str 0.

(** Lines 79-106: prompt, then the digit loop on a zeroed buffer. *)
Definition l_collect : M (Z * list Z) :=
  uart_send_string msg_led_prompt ;;
  start_time <- volatile_read msTicks ;;
  fun w => collect_digits (S (length (pending w))) start_time 0 [0; 0; 0] w.

(** Lines 109-128. *)
Definition l_finish (idx : Z) (brightness_str : list Z) : M unit :=
  if idx >? 0 then
    let brightness := parse_brightness idx brightness_str in
    modify (set_led_brightness brightness) ;;
    uart_send_string (msg_brightness brightness)
  else uart_send_string msg_no_digits.

Definition l_command : M unit :=
  r <- l_collect ;; l_finish (fst r) (snd r).

(** Lines 64-73. *)
Definition t_command (temp_reading_active : Z) : M Z :=
  let temp_reading_active := if temp_reading_active =? 0 then 1 else 0 in
  (if temp_reading_active =? 0 then uart_send_string msg_temp_off
   else uart_send_string msg_temp_on) ;;
  ret temp_reading_active.

(** Lines 57-130: one received byte is dispatched. *)
Definition dispatch (received_char temp_reading_active : Z) : M Z :=
  if (received_char =? 84) || (received_char =? 116) then t_command temp_reading_active
  else if (received_char =? 76) || (received_char =? 108) then
    (l_command ;; ret temp_reading_active)
  else ret temp_reading_active.

(** Lines 133-141. *)
Definition report_temperature : M unit :=
  temperature <- get_temperature ;;
  uart_send_string (msg_temperature temperature) ;;
  delay_ms 1000.

(** One pass through the body of [while (1)]. *)
Definition main_iteration (temp_reading_active : Z) : M Z :=
  avail <- uart_data_available ;;
  temp_reading_active <-
    (if avail =? 0 then ret temp_reading_active
     else (received_char <- uart_receive_char ;;
           dispatch received_char temp_reading_active)) ;;
  (if temp_reading_active =? 0 then ret tt else report_temperature) ;;
  ret temp_reading_active.

Fixpoint main_loop (n : nat) (temp_reading_active : Z) : M Z :=
  match n with
  | O => ret temp_reading_active
  | S n' => a <- main_iteration temp_reading_active ;; main_loop n' a
  end.

(** [main] from line 43 on, cut after [n] passes of the endless loop:
    the flag starts at 0 and the banner is sent first. *)
Definition main_from_banner (n : nat) : M Z :=
  let temp_reading_active := 0 in
  uart_send_string (nth 0 msg_banner []) ;;
  uart_send_string (nth 1 msg_banner []) ;;
  uart_send_string (nth 2 msg_banner []) ;;
  main_loop n temp_reading_active.

(** ** Definitions used to state the properties *)

(** The conversion as the specification writes it: signed integers, the
    operations in the written order, every division truncating toward
    zero. *)
Definition temperature_formula (raw cal30 : Z) : Z :=
  Z.quot ((Z.quot (raw * VDD_APPLI) VDD_CALIB - cal30) * 1000) AVG_SLOPE + 30.

(** Number of SysTick interrupts in a batch and in a schedule. *)
Fixpoint ticks_in (b : batch) : nat :=
  match b with
  | [] => 0%nat
  | EvTick :: b' => S (ticks_in b')
  | _ :: b' => ticks_in b'
  end.

Definition ticks (sched : list batch) : nat :=
  fold_right (fun b n => (ticks_in b + n)%nat) 0%nat sched.

(** The counter after [n] increments. *)
Definition after_ticks (n : nat) (t : Z) : Z := Nat.iter n (fun t => uint32 (t + 1)) t.

(** The program [m] changes [msTicks] only through the tick interrupts
    of the batches it consumes. *)
Definition tracks {A} (m : M A) : Prop :=
  forall w a w', m w = Some (a, w') ->
    exists consumed,
      pending w = consumed ++ pending w' /\
      msTicks (regs w') = after_ticks (ticks consumed) (msTicks (regs w)).

(** [h'] shows the same serial traffic and the same duty cycle as [h]. *)
Definition same_io (h h' : hw) : Prop :=
  wire h' = wire h /\ taken h' = taken h /\ TIM2_CCR1 h' = TIM2_CCR1 h.

(** Once TXE is set in [h] it is set in [h']. *)
Definition keeps_txe (h h' : hw) : Prop :=
  Z.testbit (USART_ISR h) 7 = true -> Z.testbit (USART_ISR h') 7 = true.

(** Every finished run of [m] relates the registers before and after
    by [R]. *)
Definition preserves (R : hw -> hw -> Prop) {A} (m : M A) : Prop :=
  forall w a w', m w = Some (a, w') -> R (regs w) (regs w').

(** The buffer after [brightness_str[i++] = d] for each [d] in turn. *)
Fixpoint store_digits (i : nat) (digits : list Z) (str : list Z) : list Z :=
  match digits with
  | [] => str
  | d :: ds => store_digits (S i) ds (<[i := d]> str)
  end.

(** The bytes of a buffer up to its first NUL. *)
Fixpoint c_string (str : list Z) : list Z :=
  match str with
  | [] => []
  | c :: rest => if c =? 0 then [] else c :: c_string rest
  end.

(** The accumulated digit characters read as a decimal numeral, left to
    right in base 10. *)
Definition decimal_value (digits : list Z) : Z :=
  fold_left (fun acc c => acc * 10 + (c - 48)) digits 0.

(** The transmitter is empty again by the next status read. *)
Definition txe_batch (b : batch) : Prop := In EvTxe b.

(** Moreover at most one tick falls between two reads. *)
Definition good_batch (b : batch) : Prop := In EvTxe b /\ (ticks_in b <= 1)%nat.

(** On a schedule of good batches that still holds [n] ticks, [m]
    returns, and at most [n] ticks pass meanwhile. *)
Definition total_within (n : nat) {A} (m : M A) : Prop :=
  forall h sched, Forall good_batch sched -> (n <= ticks sched)%nat ->
    exists a h' c sched',
      m (World h sched) = Some (a, World h' sched') /\
      sched = c ++ sched' /\ (ticks c <= n)%nat /\
      msTicks h' = after_ticks (ticks c) (msTicks h).

(** Boolean forms of [txe_batch] and [good_batch]. *)
Definition is_txe (e : hw_event) : bool :=
  match e with EvTxe => true | _ => false end.
Definition txe_batchb (b : batch) : bool := existsb is_txe b.
Definition good_batchb (b : batch) : bool := existsb is_txe b && (ticks_in b <=? 1)%nat.

(** ** Scenarios *)

(** The registers after start-up: counter at 0, transmitter empty, duty
    cycle 0, a sample of 1800 against a calibration value of 1750. *)
Definition h_reset : hw := Hw 0 192 0 0 0 1800 1750 [] [].

(** [n] reads during each of which one tick passes and the transmitter
    is (or becomes) empty, and nothing is received. *)
Definition idle (n : nat) : list batch := repeat [EvTxe; EvTick] n.

(** Each byte of [bytes] arrives and is followed by [pause] idle reads. *)
Definition arrivals (bytes : list Z) (pause : nat) : list batch :=
  concat (map (fun b => [EvRx b] :: idle pause) bytes).

(** Command lines as [main] sees them: "L99", "L5\n", "LX", "L" alone,
    "T" twice, "LT". *)
Definition input_L99 : world := World h_reset (arrivals [76; 57; 57] 60 ++ idle 100).
Definition input_L5_newline : world := World h_reset (arrivals [76; 53; 10] 60 ++ idle 100).
Definition input_LX : world := World h_reset (arrivals [76; 88] 60 ++ idle 100).
Definition input_L_alone : world := World h_reset (arrivals [76] (Z.to_nat 5200)).
Definition input_T_T : world := World h_reset (arrivals [84; 84] 600).
Definition input_LT : world := World h_reset (arrivals [76; 84] 60 ++ idle 100).

(** Two T's after the banner: the banner takes 84 reads of the
    status register, so the first T waits at the first pass of the loop. *)
Definition input_reset_T_T : world :=
  World h_reset (idle 84 ++ arrivals [84; 84] 600).

(** The same at the point where the L command starts, its letter
    already taken. *)
Definition entry_L99 : world := World h_reset (idle 10 ++ arrivals [57; 57] 60 ++ idle 100).
Definition entry_L5_newline : world :=
  World h_reset (idle 10 ++ arrivals [53; 10] 60 ++ idle 100).
Definition entry_LX : world := World h_reset (idle 10 ++ arrivals [88] 60 ++ idle 100).
Definition entry_L_alone : world := World h_reset (idle (Z.to_nat 5200)).

(** An 'X' that waits when the digit loop is entered. *)
Definition entry_X : world := World h_reset ([EvRx 88] :: idle 6).

(** "L99" sent without a pause: the 'L' is there at the first read of
    the status register, the two digits arrive at the first two status
    reads made while the prompt is sent, and nothing follows. *)
Definition input_L99_burst : world :=
  World h_reset ([EvRx 76; EvTxe; EvTick] :: idle 2 ++
                 [[EvRx 57; EvTxe; EvTick]; [EvRx 57; EvTxe; EvTick]] ++
                 idle (Z.to_nat 5200)).

(** The bytes that a schedule sends to the board, in order. *)
Definition sent_to_board (sched : list batch) : list Z :=
  flat_map (flat_map (fun e => match e with EvRx c => [c] | _ => [] end)) sched.

(** ** Definitions for the further properties *)

(** No byte is received during the batch. *)
Definition no_rx (b : batch) : Prop := forall c, ~ In (EvRx c) b.

(** The receiver is empty and nothing is on its way. *)
Definition receiver_idle (w : world) : Prop :=
  Forall no_rx (pending w) /\ Z.testbit (USART_ISR (regs w)) 5 = false.

(** A finished run of [m] that starts with an idle receiver ends with
    an idle receiver. *)
Definition keeps_idle {A} (m : M A) : Prop :=
  forall w a w', receiver_idle w -> m w = Some (a, w') -> receiver_idle w'.

(** The byte is one of the four command letters T, t, L, l. *)
Definition is_command (c : Z) : bool :=
  (c =? 84) || (c =? 116) || (c =? 76) || (c =? 108).

(** [main] from line 38 on: the receiver is drained (the loop runs on a
    fuel that the pending batches bound, as in the digit loop), 50 ms
    pass, then the banner and the command loop follow. *)
Fixpoint drain_receiver (fuel : nat) : M unit :=
  match fuel with
  | O => fun _ => None
  | S fuel' =>
      avail <- uart_data_available ;;
      if avail =? 0 then ret tt
      else (uart_receive_char ;; drain_receiver fuel')
  end.

Definition main_from_drain (n : nat) : M Z :=
  (fun w => drain_receiver (S (length (pending w))) w) ;;
  delay_ms 50 ;;
  main_from_banner n.

(** The duty cycle in [h'] is the one of [h] or lies in 0..99. *)
Definition duty_rel (h h' : hw) : Prop :=
  TIM2_CCR1 h' = TIM2_CCR1 h \/ 0 <= TIM2_CCR1 h' <= 99.

(** [h'] has on the wire what [h] has, and possibly more after it. *)
Definition wire_grows (h h' : hw) : Prop := exists out, wire h' = wire h ++ out.


(** ** Configuration registers, by address ([Inc/nucleo_conf.h])

    The registers that the configuration functions write are kept in a
    map from addresses to values; a register that was never written
    reads 0.  These registers keep what the program writes to them.  The
    registers of the command loop stay in [hw]. *)

Definition SYST_CSR : Z := 0xE000E010.
Definition SYST_RVR : Z := 0xE000E014.
Definition SYST_CVR : Z := 0xE000E018.

Definition RCC_BASE : Z := 0x40021000.
Definition RCC_CR : Z := RCC_BASE + 0x00.
Definition RCC_CFGR : Z := RCC_BASE + 0x04.
Definition RCC_AHBENR : Z := RCC_BASE + 0x14.
Definition RCC_APB2ENR : Z := RCC_BASE + 0x18.
Definition RCC_APB1ENR : Z := RCC_BASE + 0x1C.

Definition ADC_BASE : Z := 0x40012400.
Definition ADC_CHSELR : Z := ADC_BASE + 0x28.
Definition ADC_SMPR : Z := ADC_BASE + 0x14.
Definition ADC_CCR : Z := ADC_BASE + 0x308.
Definition ADC_CR : Z := ADC_BASE + 0x08.
Definition ADC_CFGR1 : Z := ADC_BASE + 0x0C.

Definition GPIOA_BASE : Z := 0x48000000.
Definition GPIOA_MODER : Z := GPIOA_BASE + 0x00.
Definition GPIOA_AFRL : Z := GPIOA_BASE + 0x20.

Definition USART2_BASE : Z := 0x40004400.
Definition USART_CR1 : Z := USART2_BASE + 0x00.
Definition USART_CR2 : Z := USART2_BASE + 0x04.
Definition USART_BRR : Z := USART2_BASE + 0x0C.

Definition TIM2_BASE : Z := 0x40000000.
Definition TIM2_CR1 : Z := TIM2_BASE + 0x00.
Definition TIM2_CCMR1 : Z := TIM2_BASE + 0x18.
Definition TIM2_CCER : Z := TIM2_BASE + 0x20.
Definition TIM2_PSC : Z := TIM2_BASE + 0x28.
Definition TIM2_ARR : Z := TIM2_BASE + 0x2C.

Definition SYST_CSR_ENABLE : Z := Z.shiftl 1 0.
Definition SYST_CSR_TICKINT : Z := Z.shiftl 1 1.
Definition SYST_CSR_CLKSOURCE : Z := Z.shiftl 1 2.

Definition RCC_CR_HSION : Z := Z.shiftl 1 0.
Definition RCC_CR_HSIRDY : Z := Z.shiftl 1 1.
Definition RCC_CFGR_SW : Z := Z.shiftl 3 0.
Definition RCC_CFGR_SW_HSI : Z := Z.shiftl 0 0.
Definition RCC_CFGR_SWS : Z := Z.shiftl 3 2.
Definition RCC_CFGR_SWS_HSI : Z := Z.shiftl 0 2.

Definition ADC_CR_ADEN : Z := Z.shiftl 1 0.
Definition ADC_CR_ADDIS : Z := Z.shiftl 1 1.
Definition ADC_CR_ADSTART : Z := Z.shiftl 1 2.
Definition ADC_CR_ADCAL : Z := Z.shiftl 1 31.

(** The chip: the registers kept by address, and those of the command
    loop. *)
Record soc : Type := Soc { mem : gmap Z Z; core : hw }.

Definition rd (a : Z) (s : soc) : Z := default 0 (mem s !! a).
Definition wr (a v : Z) (s : soc) : soc := Soc (<[a := v]> (mem s)) (core s).

(** [REG |= v] and [REG &= ~v]; the complement is taken in 32 bits. *)
Definition reg_or (a v : Z) (s : soc) : soc := wr a (Z.lor (rd a s) v) s.
Definition reg_clear (a v : Z) (s : soc) : soc :=
  wr a (Z.land (rd a s) (uint32 (Z.lnot v))) s.

Definition on_core (f : hw -> hw) (s : soc) : soc := Soc (mem s) (f (core s)).

(** ** [system.c]: [systick_init] *)

Definition systick_init (s : soc) : soc :=
  let s := reg_or SYST_CSR SYST_CSR_CLKSOURCE s in
  let s := wr SYST_RVR (8000 - 1) s in
  let s := wr SYST_CVR 0 s in
  reg_or SYST_CSR (Z.lor SYST_CSR_ENABLE SYST_CSR_TICKINT) s.

(** ** [pwm.c]: [pwm_led_init] *)

(** TIM2_CCR1 is the register that [set_led_brightness] writes; it is
    the field of [hw]. *)
Definition pwm_led_init (s : soc) : soc :=
  let s := reg_or RCC_AHBENR (Z.shiftl 1 17) s in
  let s := reg_or RCC_APB1ENR (Z.shiftl 1 0) s in
  let s := reg_clear GPIOA_MODER (Z.shiftl 3 10) s in
  let s := reg_or GPIOA_MODER (Z.shiftl 2 10) s in
  let s := reg_clear GPIOA_AFRL (Z.shiftl 15 20) s in
  let s := reg_or GPIOA_AFRL (Z.shiftl 2 20) s in
  let s := wr TIM2_PSC (800 - 1) s in
  let s := wr TIM2_ARR (100 - 1) s in
  let s := reg_clear TIM2_CCMR1 (Z.shiftl 7 4) s in
  let s := reg_or TIM2_CCMR1 (Z.shiftl 6 4) s in
  let s := reg_or TIM2_CCMR1 (Z.shiftl 1 3) s in
  let s := reg_or TIM2_CCER (Z.shiftl 1 0) s in
  let s := on_core (set_TIM2_CCR1 0) s in
  reg_or TIM2_CR1 (Z.shiftl 1 0) s.

(** ** [uart.c]: [uart_conf] *)

Definition uart_conf (s : soc) : soc :=
  let s := reg_or RCC_AHBENR (Z.shiftl 1 17) s in
  let s := reg_clear GPIOA_MODER (Z.shiftl 3 4) s in
  let s := reg_or GPIOA_MODER (Z.shiftl 2 4) s in
  let s := reg_clear GPIOA_AFRL (Z.shiftl 15 8) s in
  let s := reg_or GPIOA_AFRL (Z.shiftl 1 8) s in
  let s := reg_clear GPIOA_MODER (Z.shiftl 3 6) s in
  let s := reg_or GPIOA_MODER (Z.shiftl 2 6) s in
  let s := reg_clear GPIOA_AFRL (Z.shiftl 15 12) s in
  let s := reg_or GPIOA_AFRL (Z.shiftl 1 12) s in
  let s := reg_or RCC_APB1ENR (Z.shiftl 1 17) s in
  let s := reg_clear USART_CR1 (Z.shiftl 1 0) s in
  let s := reg_clear USART_CR1 (Z.shiftl 1 15) s in
  let s := reg_clear USART_CR1 (Z.shiftl 1 12) s in
  let s := reg_clear USART_CR1 (Z.shiftl 1 28) s in
  let s := reg_clear USART_CR1 (Z.shiftl 1 10) s in
  let s := reg_clear USART_CR2 (Z.shiftl 3 12) s in
  let s := wr USART_BRR 0x341 s in
  let s := reg_or USART_CR1 (Z.shiftl 1 3) s in
  let s := reg_or USART_CR1 (Z.shiftl 1 2) s in
  reg_or USART_CR1 (Z.shiftl 1 0) s.

(** The bit field of [x] that is [w] bits wide and starts at bit [lo]. *)
Definition field (lo w x : Z) : Z := Z.land (Z.shiftr x lo) (Z.ones w).

(** ** Status bits and start-up

    [clk_conf] and [adc_conf] wait for bits that the hardware sets and
    clears in RCC_CR, RCC_CFGR and ADC_CR.  At each moment a batch of
    events reaches the registers of the command loop, and the hardware
    sets or clears bits of the registers kept by address.  One moment
    passes before each read of one of the three registers; the other
    registers are read as the program left them. *)

Inductive cfg_event : Type :=
| HwSet (a mask : Z)       (* the hardware sets the bits of [mask] in the register at [a] *)
| HwClear (a mask : Z).    (* the hardware clears them *)

Definition soc_step (s : soc) (e : cfg_event) : soc :=
  match e with
  | HwSet a k => wr a (Z.lor (rd a s) k) s
  | HwClear a k => wr a (Z.ldiff (rd a s) k) s
  end.

Definition moment : Type := (batch * list cfg_event)%type.

Definition chip_step (s : soc) (st : moment) : soc :=
  on_core (arrive (fst st)) (fold_left soc_step (snd st) s).

Record cworld : Type := CWorld { chip : soc; future : list moment }.

Definition Conf (A : Type) : Type := cworld -> option (A * cworld).

Definition cret {A} (a : A) : Conf A := fun cw => Some (a, cw).

Definition cbind {A B} (m : Conf A) (k : A -> Conf B) : Conf B :=
  fun cw => match m cw with
            | Some (a, cw') => k a cw'
            | None => None
            end.

Declare Scope conf_scope.
Delimit Scope conf_scope with conf.
Notation "x <- m ;; k" := (cbind m (fun x => k))
  (at level 100, m at level 99, k at level 200, right associativity) : conf_scope.
Notation "m ;; k" := (cbind m (fun _ => k))
  (at level 100, k at level 200, right associativity) : conf_scope.

(** One moment passes, then the register at [a] is read. *)
Definition cread (a : Z) : Conf Z :=
  fun cw => match future cw with
            | [] => None
            | st :: rest =>
                let s := chip_step (chip cw) st in Some (rd a s, CWorld s rest)
            end.

Definition cupdate (f : soc -> soc) : Conf unit :=
  fun cw => Some (tt, CWorld (f (chip cw)) (future cw)).

(** [REG = f(REG)] on one of the three registers: a read, then a write. *)
Definition crmw (a : Z) (f : Z -> Z) : Conf unit :=
  (v <- cread a ;; cupdate (wr a (f v)))%conf.

(** [while (cond);] where [cond] reads one of the three registers. *)
Fixpoint cspin (cond : soc -> bool) (s : soc) (sched : list moment)
  : option (unit * cworld) :=
  match sched with
  | [] => None
  | st :: rest =>
      let s' := chip_step s st in
      if cond s' then cspin cond s' rest else Some (tt, CWorld s' rest)
  end.

Definition cspin_while (cond : soc -> bool) : Conf unit :=
  fun cw => cspin cond (chip cw) (future cw).

(** A program of the command loop runs on the batches of the coming
    moments; the registers kept by address meanwhile change as the
    hardware changes them in the moments that the program lets pass. *)
Definition lift {A} (m : M A) : Conf A :=
  fun cw =>
    match m (World (core (chip cw)) (map fst (future cw))) with
    | None => None
    | Some (a, w') =>
        let k := (length (future cw) - length (pending w'))%nat in
        Some (a, CWorld (Soc (mem (fold_left chip_step (take k (future cw)) (chip cw)))
                             (regs w'))
                        (drop k (future cw)))
    end.

(** ** [system.c]: [clk_conf] *)

Definition clk_conf : Conf unit :=
  (crmw RCC_CR (fun v => Z.lor v RCC_CR_HSION) ;;
   cspin_while (fun s => Z.land (rd RCC_CR s) RCC_CR_HSIRDY =? 0) ;;
   crmw RCC_CFGR (fun v => Z.land v (uint32 (Z.lnot RCC_CFGR_SW))) ;;
   crmw RCC_CFGR (fun v => Z.lor v RCC_CFGR_SW_HSI) ;;
   cspin_while (fun s => negb (Z.land (rd RCC_CFGR s) RCC_CFGR_SWS =? RCC_CFGR_SWS_HSI)))%conf.

(** ** [adc.c]: [adc_conf] *)

Definition adc_conf : Conf unit :=
  (cupdate (reg_or RCC_APB2ENR (Z.shiftl 1 9)) ;;
   cr <- cread ADC_CR ;;
   (if Z.land cr ADC_CR_ADEN =? 0 then cret tt
    else (crmw ADC_CR (fun v => Z.lor v ADC_CR_ADDIS) ;;
          cspin_while (fun s => negb (Z.land (rd ADC_CR s) ADC_CR_ADEN =? 0)))) ;;
   crmw ADC_CR (fun v => Z.lor v ADC_CR_ADCAL) ;;
   cspin_while (fun s => negb (Z.land (rd ADC_CR s) ADC_CR_ADCAL =? 0)) ;;
   cupdate (reg_or ADC_CCR (Z.shiftl 1 23)) ;;
   cupdate (reg_or ADC_SMPR (Z.shiftl 7 0)) ;;
   lift (delay_ms 100) ;;
   cupdate (reg_or ADC_CFGR1 (Z.shiftl 1 13)) ;;
   cupdate (reg_or ADC_CHSELR (Z.shiftl 1 16)) ;;
   crmw ADC_CR (fun v => Z.lor v ADC_CR_ADEN) ;;
   cspin_while (fun s => Z.land (rd ADC_CR s) ADC_CR_ADEN =? 0) ;;
   lift (delay_ms 20) ;;
   crmw ADC_CR (fun v => Z.lor v ADC_CR_ADSTART))%conf.

(** ** [main.c]: [main], through [n] rounds of its loop *)

Definition main (n : nat) : Conf Z :=
  (clk_conf ;;
   cupdate systick_init ;;
   adc_conf ;;
   cupdate pwm_led_init ;;
   cupdate uart_conf ;;
   lift (main_from_drain n))%conf.

(** The bits that the hardware handles: HSIRDY, SWS, and ADEN, ADDIS,
    ADSTART and ADCAL. *)
Definition status_bits (a : Z) : Z :=
  if a =? RCC_CR then RCC_CR_HSIRDY
  else if a =? RCC_CFGR then RCC_CFGR_SWS
  else if a =? ADC_CR
       then Z.lor (Z.lor ADC_CR_ADEN ADC_CR_ADDIS) (Z.lor ADC_CR_ADSTART ADC_CR_ADCAL)
  else 0.

Definition event_target (e : cfg_event) : Z * Z :=
  match e with HwSet a k => (a, k) | HwClear a k => (a, k) end.

(** Every event of the moment changes status bits only. *)
Definition confined (st : moment) : Prop :=
  Forall (fun e => Z.ldiff (snd (event_target e)) (status_bits (fst (event_target e))) = 0)
         (snd st).

Definition confinedb (st : moment) : bool :=
  forallb (fun e => Z.ldiff (snd (event_target e)) (status_bits (fst (event_target e))) =? 0)
          (snd st).

(** The hardware never sets, respectively never clears, bit [n] of the
    register at [a] during the moment. *)
Definition never_sets (a n : Z) (st : moment) : Prop :=
  forall k, In (HwSet a k) (snd st) -> Z.testbit k n = false.

Definition never_clears (a n : Z) (st : moment) : Prop :=
  forall k, In (HwClear a k) (snd st) -> Z.testbit k n = false.

(** A moment in which the oscillator is ready, a calibration ends, the
    transmitter is empty and one tick passes. *)
Definition calm : moment :=
  ([EvTxe; EvTick], [HwSet RCC_CR RCC_CR_HSIRDY; HwClear ADC_CR ADC_CR_ADCAL]).

(** [Q] holds on through every moment that satisfies [P], and does not
    depend on the registers of the command loop. *)
Definition stable (P : moment -> Prop) (Q : soc -> Prop) : Prop :=
  (forall s st, P st -> Q s -> Q (chip_step s st)) /\
  (forall s h, Q s -> Q (Soc (mem s) h)).

(** Started where [Pre] holds, on moments that all satisfy [P], every
    finished run of [m] ends where [Post] holds. *)
Definition hoare (P : moment -> Prop) (Pre : soc -> Prop) {A} (m : Conf A)
  (Post : soc -> Prop) : Prop :=
  forall cw r cw', Forall P (future cw) -> Pre (chip cw) -> m cw = Some (r, cw') ->
    Post (chip cw') /\ Forall P (future cw').

(** Every finished run of [m] lets at least [t] ticks pass. *)
Definition cconsumes (t : Z) {A} (m : Conf A) : Prop :=
  forall cw r cw', m cw = Some (r, cw') ->
    exists c, future cw = c ++ future cw' /\ t <= Z.of_nat (ticks (map fst c)).

(** Every finished run of [m] relates the registers of the command loop
    before and after by [R]. *)
Definition cpreserves (R : hw -> hw -> Prop) {A} (m : Conf A) : Prop :=
  forall cw r cw', m cw = Some (r, cw') -> R (core (chip cw)) (core (chip cw')).

(** The serial traffic of [h'] is that of [h]. *)
Definition same_serial (h h' : hw) : Prop := wire h' = wire h /\ taken h' = taken h.

(** Started where [Pre] holds, on moments that all satisfy [P], [m]
    does not return, however many moments there are. *)
Definition blocks (P : moment -> Prop) (Pre : soc -> Prop) {A} (m : Conf A) : Prop :=
  forall cw, Forall P (future cw) -> Pre (chip cw) -> m cw = None.

(** A moment in which the hardware does what the start-up waits for:
    the transmitter is empty, at most one tick passes and nothing is
    received; the oscillator is ready and a calibration is over; the
    clock in use and ADEN stay as they are. *)
Definition cooperative (st : moment) : Prop :=
  good_batch (fst st) /\ no_rx (fst st) /\
  forall s,
    Z.testbit (rd RCC_CR (chip_step s st)) 1 = true /\
    Z.testbit (rd ADC_CR (chip_step s st)) 31 = false /\
    field 2 2 (rd RCC_CFGR (chip_step s st)) = field 2 2 (rd RCC_CFGR s) /\
    Z.testbit (rd ADC_CR (chip_step s st)) 0 = Z.testbit (rd ADC_CR s) 0.

(** Started where [Pre] holds, on cooperative moments that still hold
    [n] ticks, [m] returns where [Post] holds, and at most [n] ticks
    pass meanwhile. *)
Definition ctotal (n : nat) (Pre : soc -> Prop) {A} (m : Conf A) (Post : soc -> Prop)
  : Prop :=
  forall s sched, Forall cooperative sched -> Pre s -> (n <= ticks (map fst sched))%nat ->
    exists r s' c sched',
      m (CWorld s sched) = Some (r, CWorld s' sched') /\
      sched = c ++ sched' /\ (ticks (map fst c) <= n)%nat /\ Post s'.

(** * Properties *)

(** ** Arithmetic of the conversions *)

Lemma uint32_range z : 0 <= uint32 z < 2 ^ 32.
Proof. unfold uint32. apply Z.mod_pos_bound. lia. Qed.

Lemma uint32_small z : 0 <= z < 2 ^ 32 -> uint32 z = z.
Proof. intros. unfold uint32. apply Z.mod_small. lia. Qed.

Lemma int32_small z : - 2 ^ 31 <= z < 2 ^ 31 -> int32 z = z.
Proof. intros. unfold int32. rewrite Z.mod_small; lia. Qed.

Lemma uint8_small z : 0 <= z < 2 ^ 8 -> uint8 z = z.
Proof. intros. unfold uint8. apply Z.mod_small. lia. Qed.

Lemma uint32_succ_sub t start :
  uint32 (uint32 (t + 1) - start) = uint32 (uint32 (t - start) + 1).
Proof.
  unfold uint32.
  rewrite Zminus_mod_idemp_l, Zplus_mod_idemp_l. f_equal. lia.
Qed.

(** ** [get_temperature] *)

Lemma temperature_of_zero : temperature_of 0 0 = 30.
Proof. reflexivity. Qed.

(** On 12-bit samples at or above the calibration value nothing wraps
    and the code computes the written formula. *)
Lemma temperature_of_above_cal30 raw cal30 :
  0 <= cal30 <= raw -> raw <= 4095 ->
  temperature_of raw cal30 = temperature_formula raw cal30.
Proof.
  intros Hc Hr. unfold temperature_of, temperature_formula, VDD_APPLI, VDD_CALIB, AVG_SLOPE.
  rewrite (int32_small raw), (int32_small cal30) by lia.
  rewrite (uint32_small raw), (uint32_small cal30) by lia.
  rewrite (uint32_small (raw * 3300)) by lia.
  rewrite Z.div_mul, Z.quot_mul by lia.
  rewrite (uint32_small (raw - cal30)) by lia.
  rewrite (uint32_small ((raw - cal30) * 1000)) by lia.
  rewrite Z.quot_div_nonneg by lia.
  assert (0 <= (raw - cal30) * 1000 / 5336 <= 4095000).
  { split; [apply Z.div_pos; lia|].
    apply Z.div_le_upper_bound; lia. }
  rewrite uint32_small, int32_small; lia.
Qed.

(** Below the calibration value the unsigned subtraction wraps: the code
    returns more than 800000 where the formula gives at most 30. *)
Lemma temperature_of_below_cal30 raw cal30 :
  0 <= raw < cal30 -> cal30 <= 4095 ->
  800000 < temperature_of raw cal30 /\ temperature_formula raw cal30 <= 30.
Proof.
  intros Hr Hc. unfold temperature_of, temperature_formula, VDD_APPLI, VDD_CALIB, AVG_SLOPE.
  rewrite (int32_small raw), (int32_small cal30) by lia.
  rewrite (uint32_small raw), (uint32_small cal30) by lia.
  rewrite (uint32_small (raw * 3300)) by lia.
  rewrite Z.div_mul, Z.quot_mul by lia.
  split.
  - assert (Hd : uint32 (raw - cal30) = 2 ^ 32 - (cal30 - raw)).
    { unfold uint32. symmetry. apply (Z.mod_unique _ _ (-1)); lia. }
    rewrite Hd.
    assert (Hm : uint32 ((2 ^ 32 - (cal30 - raw)) * 1000) = 2 ^ 32 - (cal30 - raw) * 1000).
    { unfold uint32. symmetry. apply (Z.mod_unique _ _ 999); lia. }
    rewrite Hm.
    assert (800000 <= (2 ^ 32 - (cal30 - raw) * 1000) / 5336 <= 900000).
    { split; [apply Z.div_le_lower_bound; lia|].
      apply Z.div_le_upper_bound; lia. }
    rewrite uint32_small, int32_small; lia.
  - assert (Z.quot ((raw - cal30) * 1000) 5336 <= 0); [|lia].
    rewrite <- (Z.opp_involutive ((raw - cal30) * 1000)), Z.quot_opp_l by lia.
    assert (0 <= Z.quot (- ((raw - cal30) * 1000)) 5336); [|lia].
    apply Z.quot_pos; lia.
Qed.

(** C1 (the code departs from the claim): with the sample 1700 and the
    calibration value 1750, [get_temperature] returns 804924, while the
    formula ((raw * Vapp / Vcal) - cal30) * 1000 / slope + 30 in signed
    arithmetic truncating toward zero is 21.  With raw = 0 and
    cal30 = 0 both give 30. *)
Theorem get_temperature_below_calibration :
  let h := Hw 0 0 0 0 0 1700 1750 [] [] in
  get_temperature (World h [[]]) = Some (804924, World h []) /\
  temperature_formula 1700 1750 = 21 /\
  temperature_of 0 0 = 30 /\ temperature_formula 0 0 = 30.
Proof. vm_compute. auto. Qed.

(** ** [set_led_brightness] *)

(** C2: for v in [0,99] the compare register TIM2_CCR1 is left equal to
    v, for v in (99,255] equal to 99, and a second call with the same
    argument (or with the value just written) changes nothing. *)
Theorem set_led_brightness_clamps (v : Z) (h : hw) :
  (0 <= v <= 99 -> TIM2_CCR1 (set_led_brightness v h) = v) /\
  (99 < v <= 255 -> TIM2_CCR1 (set_led_brightness v h) = 99) /\
  set_led_brightness v (set_led_brightness v h) = set_led_brightness v h /\
  set_led_brightness (TIM2_CCR1 (set_led_brightness v h)) (set_led_brightness v h)
    = set_led_brightness v h.
Proof.
  unfold set_led_brightness, set_TIM2_CCR1; simpl.
  destruct (v >? 99) eqn:Hv; simpl.
  - repeat split; intros; try lia; reflexivity.
  - rewrite Hv. repeat split; intros; try lia; reflexivity.
Qed.

Lemma set_led_brightness_clamps_witness :
  let h := Hw 0 0 0 0 7 0 0 [] [] in
  TIM2_CCR1 (set_led_brightness 42 h) = 42 /\
  TIM2_CCR1 (set_led_brightness 150 h) = 99.
Proof.
  intros h. split.
  - apply (proj1 (set_led_brightness_clamps 42 h)). lia.
  - apply (proj1 (proj2 (set_led_brightness_clamps 150 h))). lia.
Defined.

(** ** The millisecond counter *)

Lemma after_ticks_S n t : after_ticks (S n) t = after_ticks n (uint32 (t + 1)).
Proof. exact (Nat.iter_succ_r n (fun t => uint32 (t + 1)) t). Qed.

Lemma after_ticks_add a b t :
  after_ticks (a + b) t = after_ticks b (after_ticks a t).
Proof.
  rewrite Nat.add_comm. exact (Nat.iter_add b a (fun t => uint32 (t + 1)) t).
Qed.

Lemma after_ticks_value n t :
  0 <= t < 2 ^ 32 -> after_ticks n t = uint32 (t + Z.of_nat n).
Proof.
  induction n as [|n IH]; intros Ht.
  - simpl. rewrite Z.add_0_r. symmetry. now apply uint32_small.
  - change (after_ticks (S n) t) with (uint32 (after_ticks n t + 1)).
    rewrite IH by assumption. unfold uint32.
    rewrite Zplus_mod_idemp_l. f_equal. lia.
Qed.

Lemma after_ticks_elapsed n t :
  uint32 (after_ticks n t - t) = uint32 (Z.of_nat n).
Proof.
  induction n as [|n IH].
  - simpl. now rewrite Z.sub_diag.
  - change (after_ticks (S n) t) with (uint32 (after_ticks n t + 1)).
    rewrite uint32_succ_sub, IH. unfold uint32.
    rewrite Zplus_mod_idemp_l. f_equal. lia.
Qed.

Lemma hw_step_msTicks h e :
  msTicks (hw_step h e) =
  match e with EvTick => uint32 (msTicks h + 1) | _ => msTicks h end.
Proof. destruct e; simpl; try reflexivity. now destruct (_ =? _). Qed.

Lemma arrive_msTicks b h :
  msTicks (arrive b h) = after_ticks (ticks_in b) (msTicks h).
Proof.
  unfold arrive. revert h. induction b as [|e b IH]; intros h; [reflexivity|].
  simpl fold_left. rewrite IH, hw_step_msTicks.
  destruct e; simpl ticks_in; try reflexivity.
  now rewrite after_ticks_S.
Qed.

Lemma ticks_app s1 s2 : ticks (s1 ++ s2) = (ticks s1 + ticks s2)%nat.
Proof. induction s1 as [|b s1 IH]; simpl; [reflexivity|]. rewrite IH. lia. Qed.

Lemma tracks_ret {A} (a : A) : tracks (ret a).
Proof.
  intros w a' w' [= <- <-]. exists []. split; reflexivity.
Qed.

Lemma tracks_bind {A B} (m : M A) (k : A -> M B) :
  tracks m -> (forall a, tracks (k a)) -> tracks (bind m k).
Proof.
  intros Hm Hk w b w' Hrun. unfold bind in Hrun.
  destruct (m w) as [[a w1]|] eqn:E1; [|discriminate].
  destruct (Hm _ _ _ E1) as (c1 & Hp1 & Ht1).
  destruct (Hk a _ _ _ Hrun) as (c2 & Hp2 & Ht2).
  exists (c1 ++ c2). split.
  - rewrite Hp1, Hp2. apply app_assoc.
  - rewrite Ht2, Ht1, ticks_app. symmetry. apply after_ticks_add.
Qed.

Lemma tracks_volatile_read {A} (f : hw -> A) : tracks (volatile_read f).
Proof.
  intros [h sched] a w' Hrun. unfold volatile_read in Hrun; simpl in Hrun.
  destruct sched as [|b rest]; [discriminate|].
  injection Hrun as <- <-. exists [b]. split; [reflexivity|].
  simpl. rewrite Nat.add_0_r. apply arrive_msTicks.
Qed.

Lemma tracks_modify (f : hw -> hw) :
  (forall h, msTicks (f h) = msTicks h) -> tracks (modify f).
Proof.
  intros Hf w a w' [= <- <-]. exists []. split; [reflexivity|]. simpl. apply Hf.
Qed.

Lemma tracks_spin_while cond : tracks (spin_while cond).
Proof.
  intros [h sched] a w'. unfold spin_while; simpl.
  revert h. induction sched as [|b rest IH]; intros h Hrun; [discriminate|].
  simpl in Hrun. destruct (cond (arrive b h)).
  - destruct (IH _ Hrun) as (c & Hp & Ht).
    exists (b :: c). split; [simpl; now rewrite Hp|].
    rewrite Ht, arrive_msTicks. simpl ticks. symmetry. apply after_ticks_add.
  - injection Hrun as <- <-. exists [b]. split; [reflexivity|].
    simpl. rewrite Nat.add_0_r. apply arrive_msTicks.
Qed.

Create HintDb tracks.
#[local] Hint Resolve tracks_ret tracks_volatile_read tracks_spin_while : tracks.

Ltac tracks_step :=
  match goal with
  | |- tracks (bind _ _) => apply tracks_bind; [|intros ?]
  | |- tracks (if ?c then _ else _) => destruct c
  | |- tracks (modify _) => apply tracks_modify; intros ?; reflexivity
  | |- tracks _ => solve [eauto with tracks]
  end.

Lemma tracks_delay_ms ms : tracks (delay_ms ms).
Proof. unfold delay_ms. repeat tracks_step. Qed.

Lemma tracks_uart_data_available : tracks uart_data_available.
Proof. unfold uart_data_available. repeat tracks_step. Qed.

Lemma tracks_uart_receive_char : tracks uart_receive_char.
Proof. unfold uart_receive_char, read_USART_RDR. repeat tracks_step. Qed.

Lemma tracks_write_USART_TDR c : tracks (write_USART_TDR c).
Proof. unfold write_USART_TDR. tracks_step. Qed.

Lemma tracks_wait_txe : tracks wait_txe.
Proof. unfold wait_txe. tracks_step. Qed.

#[local] Hint Resolve tracks_delay_ms tracks_uart_data_available
  tracks_uart_receive_char tracks_write_USART_TDR tracks_wait_txe : tracks.

Lemma tracks_uart_send_string str : tracks (uart_send_string str).
Proof. induction str as [|c rest IH]; simpl; repeat tracks_step. Qed.

#[local] Hint Resolve tracks_uart_send_string : tracks.

Lemma tracks_collect_digits fuel start_time idx str :
  tracks (collect_digits fuel start_time idx str).
Proof.
  revert idx str. induction fuel as [|fuel IH]; intros idx str.
  - intros w a w' [=].
  - simpl. repeat tracks_step.
Qed.

#[local] Hint Resolve tracks_collect_digits : tracks.

Lemma tracks_l_command : tracks l_command.
Proof.
  unfold l_command, l_collect, l_finish. repeat tracks_step.
  - intros w r w' Hrun. eapply tracks_collect_digits, Hrun.
Qed.

Lemma tracks_get_temperature : tracks get_temperature.
Proof. unfold get_temperature. tracks_step. Qed.

#[local] Hint Resolve tracks_l_command tracks_get_temperature : tracks.

Lemma tracks_main_iteration a : tracks (main_iteration a).
Proof.
  unfold main_iteration, dispatch, t_command, report_temperature.
  repeat tracks_step.
Qed.

#[local] Hint Resolve tracks_main_iteration : tracks.

Lemma tracks_main_loop n a : tracks (main_loop n a).
Proof. revert a. induction n as [|n IH]; intros a; simpl; repeat tracks_step. Qed.

Lemma iter_SysTick_Handler n h :
  msTicks (Nat.iter n SysTick_Handler h) = after_ticks n (msTicks h).
Proof.
  induction n as [|n IH]; [reflexivity|].
  simpl. now rewrite IH.
Qed.



(** ** [delay_ms] *)

Lemma uint32_le_nat n : uint32 (Z.of_nat n) <= Z.of_nat n.
Proof. unfold uint32. apply Z.mod_le; lia. Qed.

Lemma spin_delay_sound start ms sched : forall h w',
  spin (fun h => uint32 (msTicks h - start) <? ms) h sched = Some (tt, w') ->
  exists waited,
    sched = waited ++ pending w' /\
    msTicks (regs w') = after_ticks (ticks waited) (msTicks h) /\
    ms <= uint32 (msTicks (regs w') - start).
Proof.
  induction sched as [|b rest IH]; intros h w' Hrun; [discriminate|].
  simpl in Hrun.
  destruct (uint32 (msTicks (arrive b h) - start) <? ms) eqn:Hc.
  - destruct (IH _ _ Hrun) as (c & Hp & Ht & Hle).
    exists (b :: c). split; [simpl; now rewrite <- Hp|]. split; [|assumption].
    rewrite Ht, arrive_msTicks. simpl ticks. symmetry. apply after_ticks_add.
  - injection Hrun as <-. exists [b]. simpl. split; [reflexivity|].
    rewrite Nat.add_0_r. split; [apply arrive_msTicks|].
    apply Z.ltb_ge in Hc. exact Hc.
Qed.

Lemma spin_delay_total start ms sched : forall h,
  Forall (fun b => (ticks_in b <= 1)%nat) sched ->
  uint32 (msTicks h - start) < ms -> ms < 2 ^ 32 ->
  ms - uint32 (msTicks h - start) <= Z.of_nat (ticks sched) ->
  exists h' waited sched',
    spin (fun h => uint32 (msTicks h - start) <? ms) h sched = Some (tt, World h' sched') /\
    sched = waited ++ sched' /\
    Z.of_nat (ticks waited) = ms - uint32 (msTicks h - start).
Proof.
  induction sched as [|b rest IH]; intros h Hone He Hms Hticks.
  - simpl in Hticks. lia.
  - inversion Hone as [|? ? Hb Hrest]; subst. simpl.
    assert (Hm : msTicks (arrive b h) = after_ticks (ticks_in b) (msTicks h))
      by apply arrive_msTicks.
    simpl in Hticks.
    destruct (ticks_in b) as [|[|k]] eqn:Hk; [| |lia].
    + simpl in Hm. rewrite Hm.
      destruct (Z.ltb_spec (uint32 (msTicks h - start)) ms); [|lia].
      destruct (IH (arrive b h)) as (h' & c & s' & Hrun & Hs & Hc);
        try assumption; rewrite ?Hm; try lia.
      exists h', (b :: c), s'. rewrite Hm in Hc.
      split; [exact Hrun|]. split; [simpl; now rewrite Hs|].
      simpl. rewrite Hk. lia.
    + simpl in Hm.
      assert (He' : uint32 (msTicks (arrive b h) - start) = uint32 (msTicks h - start) + 1).
      { rewrite Hm, uint32_succ_sub. apply uint32_small.
        pose proof (uint32_range (msTicks h - start)). lia. }
      rewrite He'.
      destruct (Z.ltb_spec (uint32 (msTicks h - start) + 1) ms).
      * destruct (IH (arrive b h)) as (h' & c & s' & Hrun & Hs & Hc);
          try assumption; rewrite ?He'; try lia.
        exists h', (b :: c), s'.
        split; [exact Hrun|]. split; [simpl; now rewrite Hs|].
        simpl. rewrite Hk. lia.
      * exists (arrive b h), [b], rest.
        split; [reflexivity|]. split; [reflexivity|].
        simpl. rewrite Hk. lia.
Qed.

Lemma delay_ms_total ms h b0 sched :
  0 <= ms < 2 ^ 32 -> sched <> [] ->
  Forall (fun b => (ticks_in b <= 1)%nat) sched ->
  ms <= Z.of_nat (ticks sched) ->
  exists w' waited,
    delay_ms ms (World h (b0 :: sched)) = Some (tt, w') /\
    sched = waited ++ pending w' /\
    Z.of_nat (ticks waited) <= Z.max ms 1 /\
    (0 < ms -> Z.of_nat (ticks waited) = ms).
Proof.
  intros Hms Hne Hone Hticks.
  unfold delay_ms, bind, volatile_read, spin_while; simpl.
  set (t0 := msTicks (arrive b0 h)).
  assert (He : uint32 (msTicks (arrive b0 h) - t0) = 0).
  { unfold t0. now rewrite Z.sub_diag. }
  destruct (Z.eq_dec ms 0) as [->|Hpos].
  - destruct sched as [|b rest]; [congruence|]. simpl.
    destruct (Z.ltb_spec (uint32 (msTicks (arrive b (arrive b0 h)) - t0)) 0).
    + pose proof (uint32_range (msTicks (arrive b (arrive b0 h)) - t0)). lia.
    + exists (World (arrive b (arrive b0 h)) rest), [b].
      split; [reflexivity|]. split; [reflexivity|].
      inversion Hone; subst. simpl. lia.
  - destruct (spin_delay_total t0 ms sched (arrive b0 h))
      as (h' & c & s' & Hrun & Hs & Hc); try assumption; rewrite ?He; try lia.
    exists (World h' s'), c. split; [exact Hrun|]. split; [exact Hs|].
    rewrite Hc, He. lia.
Qed.

(** C3: [delay_ms ms], entered when the counter reads t0, returns only
    at a read of the counter where (msTicks - t0) mod 2^32 >= ms, which
    needs at least ms tick interrupts since entry, whatever t0 is and
    also across a wrap of the counter; and it does return once ms ticks
    have occurred, at the ms-th tick, when the loop sees every counter
    value (at most one tick between two reads). *)
Theorem delay_ms_waits (ms : Z) (h : hw) (b0 : batch) (sched : list batch) :
  let t0 := msTicks (arrive b0 h) in
  (forall w', delay_ms ms (World h (b0 :: sched)) = Some (tt, w') ->
     exists waited,
       sched = waited ++ pending w' /\
       msTicks (regs w') = after_ticks (ticks waited) t0 /\
       ms <= (msTicks (regs w') - t0) mod 2 ^ 32 /\
       ms <= Z.of_nat (ticks waited)) /\
  (0 <= ms < 2 ^ 32 -> sched <> [] ->
   Forall (fun b => (ticks_in b <= 1)%nat) sched ->
   ms <= Z.of_nat (ticks sched) ->
   exists w' waited,
     delay_ms ms (World h (b0 :: sched)) = Some (tt, w') /\
     sched = waited ++ pending w' /\
     Z.of_nat (ticks waited) <= Z.max ms 1 /\
     (0 < ms -> Z.of_nat (ticks waited) = ms)).
Proof.
  intros t0. unfold delay_ms, bind, volatile_read, spin_while; simpl.
  fold t0. split.
  - intros w' Hrun.
    destruct (spin_delay_sound _ _ _ _ _ Hrun) as (c & Hp & Ht & Hle).
    simpl in Ht. fold t0 in Ht.
    exists c. repeat split; try assumption.
    rewrite Ht in Hle. rewrite after_ticks_elapsed in Hle.
    pose proof (uint32_le_nat (ticks c)). lia.
  - intros Hms Hne Hone Hticks.
    exact (delay_ms_total ms h b0 sched Hms Hne Hone Hticks).
Qed.

(** The counter wraps during the wait: entered at 2^32 - 2, a delay of
    5 ms returns when the counter reads 3. *)
Lemma delay_ms_waits_witness :
  let h := Hw (2 ^ 32 - 2) 0 0 0 0 0 0 [] [] in
  exists w',
    delay_ms 5 (World h ([] :: repeat [EvTick] 8)) = Some (tt, w') /\
    msTicks (regs w') = 3.
Proof.
  intros h.
  destruct (proj2 (delay_ms_waits 5 h [] (repeat [EvTick] 8))) as (w' & c & Hw' & _).
  - lia.
  - discriminate.
  - apply List.Forall_forall. intros b Hb. apply repeat_spec in Hb. subst b. simpl. lia.
  - simpl. lia.
  - exists w'. split; [exact Hw'|].
    vm_compute in Hw'. injection Hw' as <-. reflexivity.
Defined.

(** ** Relations kept by every step of the program *)

Lemma land_bit x n : 0 <= n ->
  (Z.land x (Z.shiftl 1 n) =? 0) = negb (Z.testbit x n).
Proof.
  intros Hn. destruct (Z.testbit x n) eqn:Hb; simpl.
  - apply Z.eqb_neq. intros H0.
    assert (Z.testbit (Z.land x (Z.shiftl 1 n)) n = true).
    { rewrite Z.land_spec, Hb, Z.shiftl_spec, Z.sub_diag by lia. reflexivity. }
    rewrite H0 in H. rewrite Z.bits_0 in H. discriminate.
  - apply Z.eqb_eq. apply Z.bits_inj'. intros m Hm.
    rewrite Z.land_spec, Z.bits_0, Z.shiftl_spec by lia.
    destruct (Z.eq_dec m n) as [->|Hne]; [now rewrite Hb|].
    destruct (Z.ltb_spec m n).
    + rewrite (Z.testbit_neg_r 1) by lia. apply andb_false_r.
    + replace (Z.testbit 1 (m - n)) with false; [apply andb_false_r|].
      symmetry. change 1 with (2 ^ 0). apply Z.pow2_bits_false. lia.
Qed.

Lemma bind_Some {A B} (m : M A) (k : A -> M B) w r :
  bind m k w = Some r -> exists a w1, m w = Some (a, w1) /\ k a w1 = Some r.
Proof.
  unfold bind. destruct (m w) as [[a w1]|]; [eauto|discriminate].
Qed.

Section Frame.
Variable R : hw -> hw -> Prop.
Hypothesis R_refl : forall h, R h h.
Hypothesis R_trans : forall h1 h2 h3, R h1 h2 -> R h2 h3 -> R h1 h3.
Hypothesis R_step : forall h e, R h (hw_step h e).

Lemma R_arrive b h : R h (arrive b h).
Proof.
  unfold arrive. revert h. induction b as [|e b IH]; intros h; [apply R_refl|].
  simpl. eapply R_trans; [apply R_step|apply IH].
Qed.

Lemma preserves_ret {A} (a : A) : preserves R (ret a).
Proof. intros w a' w' [= <- <-]. apply R_refl. Qed.

Lemma preserves_bind {A B} (m : M A) (k : A -> M B) :
  preserves R m -> (forall a, preserves R (k a)) -> preserves R (bind m k).
Proof.
  intros Hm Hk w b w' Hrun.
  apply bind_Some in Hrun as (a & w1 & E1 & Hrun).
  eapply R_trans; [eapply Hm, E1|eapply Hk, Hrun].
Qed.

Lemma preserves_volatile_read {A} (f : hw -> A) : preserves R (volatile_read f).
Proof.
  intros [h sched] a w' Hrun. unfold volatile_read in Hrun; simpl in Hrun.
  destruct sched as [|b rest]; [discriminate|].
  injection Hrun as <- <-. apply R_arrive.
Qed.

Lemma preserves_modify (f : hw -> hw) :
  (forall h, R h (f h)) -> preserves R (modify f).
Proof. intros Hf w a w' [= <- <-]. apply Hf. Qed.

Lemma preserves_spin_while cond : preserves R (spin_while cond).
Proof.
  intros [h sched] a w'. unfold spin_while; simpl.
  revert h. induction sched as [|b rest IH]; intros h Hrun; [discriminate|].
  simpl in Hrun. destruct (cond (arrive b h)).
  - eapply R_trans; [apply (R_arrive b)|apply IH, Hrun].
  - injection Hrun as <- <-. apply R_arrive.
Qed.

Lemma preserves_delay_ms ms : preserves R (delay_ms ms).
Proof.
  unfold delay_ms. apply preserves_bind; [apply preserves_volatile_read|].
  intros ?. apply preserves_spin_while.
Qed.

Lemma preserves_uart_data_available : preserves R uart_data_available.
Proof.
  unfold uart_data_available. apply preserves_bind; [apply preserves_volatile_read|].
  intros ?. apply preserves_ret.
Qed.

Lemma preserves_wait_txe : preserves R wait_txe.
Proof. apply preserves_spin_while. Qed.
End Frame.

Lemma same_io_refl h : same_io h h.
Proof. repeat split. Qed.

Lemma same_io_trans h1 h2 h3 : same_io h1 h2 -> same_io h2 h3 -> same_io h1 h3.
Proof. intros (?&?&?) (?&?&?). repeat split; congruence. Qed.

Lemma same_io_hw_step h e : same_io h (hw_step h e).
Proof. destruct e; simpl; try destruct (_ =? _); repeat split. Qed.

Lemma keeps_txe_refl h : keeps_txe h h.
Proof. intros H; exact H. Qed.

Lemma keeps_txe_trans h1 h2 h3 : keeps_txe h1 h2 -> keeps_txe h2 h3 -> keeps_txe h1 h3.
Proof. unfold keeps_txe. auto. Qed.

Lemma keeps_txe_hw_step h e : keeps_txe h (hw_step h e).
Proof.
  intros Hb. destruct e; cbn [hw_step]; try assumption.
  - destruct (_ =? _); unfold set_USART_ISR; cbn [USART_ISR];
      rewrite Z.lor_spec, Hb; reflexivity.
  - unfold set_USART_ISR; cbn [USART_ISR]. rewrite Z.lor_spec, Hb. reflexivity.
Qed.

Lemma same_io_arrive b h : same_io h (arrive b h).
Proof. exact (R_arrive _ same_io_refl same_io_trans same_io_hw_step b h). Qed.

Lemma quiet_volatile_read {A} (f : hw -> A) : preserves same_io (volatile_read f).
Proof.
  exact (preserves_volatile_read _ same_io_refl same_io_trans same_io_hw_step f).
Qed.

Lemma quiet_delay_ms ms : preserves same_io (delay_ms ms).
Proof. exact (preserves_delay_ms _ same_io_refl same_io_trans same_io_hw_step ms). Qed.

Lemma quiet_uart_data_available : preserves same_io uart_data_available.
Proof.
  exact (preserves_uart_data_available _ same_io_refl same_io_trans same_io_hw_step).
Qed.

Lemma quiet_wait_txe : preserves same_io wait_txe.
Proof. exact (preserves_wait_txe _ same_io_refl same_io_trans same_io_hw_step). Qed.

(** The events never clear RXNE. *)
Lemma hw_step_rxne h e :
  Z.testbit (USART_ISR h) 5 = true -> Z.testbit (USART_ISR (hw_step h e)) 5 = true.
Proof.
  intros Hb. destruct e; cbn [hw_step]; try assumption.
  - destruct (_ =? _); unfold set_USART_ISR; cbn [USART_ISR];
      rewrite Z.lor_spec, Hb; reflexivity.
  - unfold set_USART_ISR; cbn [USART_ISR]. rewrite Z.lor_spec, Hb. reflexivity.
Qed.

Lemma arrive_rxne b h :
  Z.testbit (USART_ISR h) 5 = true -> Z.testbit (USART_ISR (arrive b h)) 5 = true.
Proof.
  unfold arrive. revert h. induction b as [|e b IH]; intros h Hb; [assumption|].
  simpl. apply IH, hw_step_rxne, Hb.
Qed.

Lemma uart_data_available_spec w a w' :
  uart_data_available w = Some (a, w') ->
  same_io (regs w) (regs w') /\
  (a = 0 \/ a <> 0 /\ Z.testbit (USART_ISR (regs w')) 5 = true).
Proof.
  intros Hrun. split; [eapply quiet_uart_data_available, Hrun|].
  destruct w as [h [|b rest]]; [discriminate|].
  unfold uart_data_available, bind, volatile_read, ret in Hrun.
  cbn [regs pending] in Hrun. injection Hrun as <- <-. cbn [regs].
  rewrite land_bit by lia.
  destruct (Z.testbit (USART_ISR (arrive b h)) 5); cbn [negb];
    [right; split; [discriminate|reflexivity] | left; reflexivity].
Qed.

(** With RXNE set, [uart_receive_char] reads USART_RDR once and returns
    its low byte. *)
Lemma uart_receive_char_spec w c w' :
  uart_receive_char w = Some (c, w') ->
  Z.testbit (USART_ISR (regs w)) 5 = true ->
  exists rdr, c = uint8 rdr /\
    taken (regs w') = taken (regs w) ++ [rdr] /\
    wire (regs w') = wire (regs w) /\
    TIM2_CCR1 (regs w') = TIM2_CCR1 (regs w).
Proof.
  intros Hrun Hb.
  destruct w as [h [|b1 rest]]; [discriminate|].
  cbn [regs] in Hb.
  unfold uart_receive_char, bind, volatile_read in Hrun. cbn [regs pending] in Hrun.
  rewrite land_bit, (arrive_rxne b1 h Hb) in Hrun by lia. cbn [negb] in Hrun.
  destruct rest as [|b2 rest]; [discriminate|].
  unfold read_USART_RDR, bind, volatile_read, modify, ret in Hrun.
  cbn [regs pending] in Hrun.
  injection Hrun as <- <-. cbn [regs wire taken TIM2_CCR1].
  destruct (same_io_arrive b1 h) as (W1 & T1 & C1).
  destruct (same_io_arrive b2 (arrive b1 h)) as (W2 & T2 & C2).
  eexists. split; [reflexivity|]. repeat split; congruence.
Qed.

Lemma write_USART_TDR_spec c w a w' :
  write_USART_TDR c w = Some (a, w') ->
  wire (regs w') = wire (regs w) ++ [c] /\
  taken (regs w') = taken (regs w) /\
  TIM2_CCR1 (regs w') = TIM2_CCR1 (regs w) /\
  msTicks (regs w') = msTicks (regs w).
Proof. intros [= <- <-]. simpl. auto. Qed.

Lemma store_digits_snoc i digits d str :
  store_digits i (digits ++ [d]) str
  = <[(i + length digits)%nat := d]> (store_digits i digits str).
Proof.
  revert i str. induction digits as [|x ds IH]; intros i str; simpl.
  - now rewrite Nat.add_0_r.
  - rewrite IH. f_equal. lia.
Qed.

(** What a finished run of the digit loop has done. *)
Lemma collect_digits_spec fuel : forall start idx str w idx' str' w',
  0 <= idx ->
  collect_digits fuel start idx str w = Some ((idx', str'), w') ->
  exists read digits tail,
    taken (regs w') = taken (regs w) ++ read /\
    wire (regs w') = wire (regs w) ++ map uint8 read /\
    TIM2_CCR1 (regs w') = TIM2_CCR1 (regs w) /\
    map uint8 read = digits ++ tail /\
    Forall (fun c => is_digit c = true) digits /\
    idx' = idx + Z.of_nat (length digits) /\
    str' = store_digits (Z.to_nat idx) digits str /\
    ((tail = [] /\ 2 <= idx' <= Z.max idx 2) \/
     (tail = [] /\ idx' < 2 /\ 5000 <= uint32 (msTicks (regs w') - start)) \/
     (exists c, tail = [c] /\ is_digit c = false /\ idx' < 2)).
Proof.
  induction fuel as [|fuel IH]; intros start idx str w idx' str' w' Hidx Hrun;
    [discriminate|].
  cbn [collect_digits] in Hrun.
  destruct (Z.ltb_spec idx 2) as [Hlt|Hge]; cbn [negb] in Hrun.
  2:{ injection Hrun as <- <- <-. exists [], [], [].
      rewrite !app_nil_r. simpl. rewrite Z.add_0_r.
      repeat split; auto. left. repeat split; lia. }
  apply bind_Some in Hrun as (now & w1 & E1 & Hrun).
  pose proof (quiet_volatile_read _ _ _ _ E1) as (W1 & T1 & C1).
  assert (Hnow : now = msTicks (regs w1)).
  { destruct w as [h [|b rest]]; [discriminate|]. now injection E1 as <- <-. }
  destruct (Z.ltb_spec (uint32 (now - start)) 5000) as [Hin|Hout]; cbn [negb] in Hrun.
  2:{ injection Hrun as <- <- <-. exists [], [], [].
      rewrite !app_nil_r. simpl. rewrite Z.add_0_r.
      repeat split; auto. right; left. subst now. repeat split; auto. }
  apply bind_Some in Hrun as (avail & w2 & E2 & Hrun).
  destruct (uart_data_available_spec _ _ _ E2) as ((W2 & T2 & C2) & Hav).
  destruct Hav as [->|[Hav Hbit]].
  { cbn in Hrun. destruct (IH _ _ _ _ _ _ _ Hidx Hrun)
      as (read & digits & tail & Ht & Hw & Hc & Hm & Hd & Hi & Hs & Hex).
    exists read, digits, tail. repeat split; try assumption; congruence. }
  destruct (Z.eqb_spec avail 0) as [|_]; [contradiction|].
  apply bind_Some in Hrun as (c & w3 & E3 & Hrun).
  destruct (uart_receive_char_spec _ _ _ E3 Hbit) as (rdr & Hc & T3 & W3 & C3).
  apply bind_Some in Hrun as (u4 & w4 & E4 & Hrun).
  destruct (write_USART_TDR_spec _ _ _ _ E4) as (W4 & T4 & C4 & _).
  apply bind_Some in Hrun as (u5 & w5 & E5 & Hrun).
  pose proof (quiet_wait_txe _ _ _ E5) as (W5 & T5 & C5).
  destruct (is_digit c) eqn:Hdig.
  - apply bind_Some in Hrun as (u6 & w6 & E6 & Hrun).
    pose proof (quiet_delay_ms _ _ _ _ E6) as (W6 & T6 & C6).
    assert (Hidx' : 0 <= idx + 1) by lia.
    destruct (IH _ _ _ _ _ _ _ Hidx' Hrun)
      as (read & digits & tail & Ht & Hw & Hcc & Hm & Hd & Hi & Hs & Hex).
    exists (rdr :: read), (c :: digits), tail.
    repeat split.
    + rewrite Ht, T6, T5, T4, T3, T2, T1, <- app_assoc. reflexivity.
    + rewrite Hw, W6, W5, W4, W3, W2, W1, <- app_assoc. simpl. now rewrite Hc.
    + congruence.
    + simpl. now rewrite Hm, Hc.
    + constructor; assumption.
    + rewrite Hi. simpl length. lia.
    + rewrite Hs. simpl. f_equal. lia.
    + destruct Hex as [(?&?)|[(?&?&?)|(c'&?&?&?)]].
      * left. split; [assumption|lia].
      * right; left. auto.
      * right; right. eauto.
  - injection Hrun as <- <- <-.
    exists [rdr], [], [c].
    repeat split.
    + rewrite T5, T4, T3, T2, T1. reflexivity.
    + rewrite W5, W4, W3, W2, W1. simpl. now rewrite Hc.
    + congruence.
    + simpl. now rewrite Hc.
    + constructor.
    + simpl. lia.
    + right; right. exists c. auto.
Qed.

(** ** Waiting for the transmitter *)

Lemma spin_exit cond sched : forall h w',
  spin cond h sched = Some (tt, w') -> cond (regs w') = false.
Proof.
  induction sched as [|b rest IH]; intros h w' Hrun; [discriminate|].
  simpl in Hrun. destruct (cond (arrive b h)) eqn:Hc; [eauto|].
  now injection Hrun as <-.
Qed.

Lemma wait_txe_sets w u w' :
  wait_txe w = Some (u, w') -> Z.testbit (USART_ISR (regs w')) 7 = true.
Proof.
  destruct u. intros Hrun. apply spin_exit in Hrun.
  rewrite land_bit in Hrun by lia.
  now destruct (Z.testbit (USART_ISR (regs w')) 7).
Qed.

Lemma keeps_txe_volatile_read {A} (f : hw -> A) : preserves keeps_txe (volatile_read f).
Proof.
  exact (preserves_volatile_read _ keeps_txe_refl keeps_txe_trans keeps_txe_hw_step f).
Qed.

Lemma keeps_txe_delay_ms ms : preserves keeps_txe (delay_ms ms).
Proof. exact (preserves_delay_ms _ keeps_txe_refl keeps_txe_trans keeps_txe_hw_step ms). Qed.

Lemma keeps_txe_uart_data_available : preserves keeps_txe uart_data_available.
Proof.
  exact (preserves_uart_data_available _ keeps_txe_refl keeps_txe_trans keeps_txe_hw_step).
Qed.

Lemma arrive_txe b h : txe_batch b -> Z.testbit (USART_ISR (arrive b h)) 7 = true.
Proof.
  unfold txe_batch, arrive. revert h.
  induction b as [|e b IH]; intros h Hin; [destruct Hin|].
  destruct Hin as [->|Hin]; [|apply IH, Hin].
  simpl fold_left.
  apply (R_arrive _ keeps_txe_refl keeps_txe_trans keeps_txe_hw_step b).
  unfold set_USART_ISR; cbn [USART_ISR]. rewrite Z.lor_spec.
  apply orb_true_r.
Qed.

(** The digit loop returns with TXE set if it found it set, and also if
    it echoed anything. *)
Lemma collect_digits_txe fuel : forall start idx str w r w',
  collect_digits fuel start idx str w = Some (r, w') ->
  (Z.testbit (USART_ISR (regs w)) 7 = true \/ taken (regs w') <> taken (regs w)) ->
  Z.testbit (USART_ISR (regs w')) 7 = true.
Proof.
  induction fuel as [|fuel IH]; intros start idx str w r w' Hrun Hpre; [discriminate|].
  cbn [collect_digits] in Hrun.
  destruct (idx <? 2); cbn [negb] in Hrun.
  2:{ injection Hrun as <- <-. destruct Hpre; [assumption|contradiction]. }
  apply bind_Some in Hrun as (now & w1 & E1 & Hrun).
  pose proof (keeps_txe_volatile_read _ _ _ _ E1) as K1.
  pose proof (quiet_volatile_read _ _ _ _ E1) as (_ & T1 & _).
  destruct (uint32 (now - start) <? 5000); cbn [negb] in Hrun.
  2:{ injection Hrun as <- <-. destruct Hpre; [auto|congruence]. }
  apply bind_Some in Hrun as (avail & w2 & E2 & Hrun).
  pose proof (keeps_txe_uart_data_available _ _ _ E2) as K2.
  destruct (uart_data_available_spec _ _ _ E2) as ((_ & T2 & _) & Hav).
  destruct Hav as [->|[Hav Hbit]].
  { cbn in Hrun. apply (IH _ _ _ _ _ _ Hrun).
    destruct Hpre; [left; auto|right; congruence]. }
  destruct (Z.eqb_spec avail 0) as [|_]; [contradiction|].
  apply bind_Some in Hrun as (c & w3 & E3 & Hrun).
  apply bind_Some in Hrun as (u4 & w4 & E4 & Hrun).
  apply bind_Some in Hrun as (u5 & w5 & E5 & Hrun).
  pose proof (wait_txe_sets _ _ _ E5) as K5.
  destruct (is_digit c).
  - apply bind_Some in Hrun as (u6 & w6 & E6 & Hrun).
    pose proof (keeps_txe_delay_ms _ _ _ _ E6 K5) as K6.
    apply (IH _ _ _ _ _ _ Hrun). left. exact K6.
  - now injection Hrun as <- <-.
Qed.

(** ** [uart_send_string] *)

Lemma uart_send_string_spec str : forall w u w',
  uart_send_string str w = Some (u, w') ->
  wire (regs w') = wire (regs w) ++ c_string str /\
  taken (regs w') = taken (regs w) /\
  TIM2_CCR1 (regs w') = TIM2_CCR1 (regs w).
Proof.
  induction str as [|c rest IH]; intros w u w' Hrun; cbn [uart_send_string c_string] in *.
  - injection Hrun as <- <-. rewrite app_nil_r. auto.
  - destruct (c =? 0).
    + injection Hrun as <- <-. rewrite app_nil_r. auto.
    + apply bind_Some in Hrun as (u1 & w1 & E1 & Hrun).
      apply bind_Some in Hrun as (u2 & w2 & E2 & Hrun).
      destruct (write_USART_TDR_spec _ _ _ _ E1) as (W1 & T1 & C1 & _).
      destruct (quiet_wait_txe _ _ _ E2) as (W2 & T2 & C2).
      destruct (IH _ _ _ Hrun) as (W3 & T3 & C3).
      repeat split; try congruence.
      rewrite W3, W2, W1, <- app_assoc. reflexivity.
Qed.

(** With a prompt transmitter each byte costs one status read. *)
Lemma uart_send_string_total str : forall h sched,
  Forall txe_batch sched -> (length (c_string str) <= length sched)%nat ->
  exists h', uart_send_string str (World h sched)
             = Some (tt, World h' (drop (length (c_string str)) sched)).
Proof.
  induction str as [|c rest IH]; intros h sched Htx Hlen;
    cbn [uart_send_string c_string] in *.
  - eexists. reflexivity.
  - destruct (c =? 0).
    + eexists. reflexivity.
    + destruct sched as [|b sched]; [simpl in Hlen; lia|].
      inversion Htx as [|? ? Hb Hrest]; subst.
      unfold bind, write_USART_TDR, modify, wait_txe, spin_while.
      cbn [regs pending spin].
      rewrite land_bit, arrive_txe by (assumption || lia). cbn [negb].
      simpl length in *. cbn [drop].
      apply IH; [assumption|lia].
Qed.

(** ** Parsing the digits *)

Lemma is_digit_range c : is_digit c = true <-> 48 <= c <= 57.
Proof. unfold is_digit. rewrite andb_true_iff, !Z.leb_le. reflexivity. Qed.

Lemma parse_brightness_store digits :
  Forall (fun c => is_digit c = true) digits -> (length digits <= 2)%nat ->
  parse_brightness (Z.of_nat (length digits)) (store_digits 0 digits [0; 0; 0])
    = decimal_value digits /\
  0 <= decimal_value digits <= 99.
Proof.
  intros Hd Hlen.
  destruct digits as [|d1 [|d2 [|d3 ds]]]; simpl in Hlen; try lia.
  - split; [reflexivity|]. unfold decimal_value; simpl. lia.
  - inversion Hd as [|? ? H1 _]; subst. apply is_digit_range in H1.
    unfold parse_brightness, decimal_value; simpl.
    rewrite uint8_small by lia. lia.
  - inversion Hd as [|? ? H1 Hd']; subst. inversion Hd' as [|? ? H2 _]; subst.
    apply is_digit_range in H1. apply is_digit_range in H2.
    unfold parse_brightness, decimal_value; simpl.
    rewrite (uint8_small (0 * 10 + (d1 - 48))) by lia.
    rewrite uint8_small by lia. lia.
Qed.

(** What [%d] prints for a value below 100, and the line built from it:
    no NUL inside, 29 bytes at most. *)
Lemma msg_brightness_text v :
  0 <= v <= 99 ->
  decimal v = (if v <? 10 then [48 + v] else [48 + v / 10; 48 + v mod 10]) /\
  c_string (msg_brightness v) = msg_brightness v /\
  (length (msg_brightness v) <= 29)%nat.
Proof.
  intros Hv.
  assert (Hall : forallb (fun n =>
            let v := Z.of_nat n in
            bool_decide (decimal v =
               (if v <? 10 then [48 + v] else [48 + v / 10; 48 + v mod 10])) &&
            bool_decide (c_string (msg_brightness v) = msg_brightness v) &&
            (length (msg_brightness v) <=? 29)%nat) (seq 0 100) = true)
    by (vm_compute; reflexivity).
  rewrite forallb_forall in Hall.
  specialize (Hall (Z.to_nat v)). rewrite Z2Nat.id in Hall by lia.
  cbv zeta in Hall.
  rewrite !andb_true_iff, !bool_decide_eq_true, Nat.leb_le in Hall.
  destruct Hall as [[? ?] ?]; [apply in_seq; lia|]. auto.
Qed.

(** ** The L command *)

Lemma l_collect_spec w idx str w1 :
  l_collect w = Some ((idx, str), w1) ->
  exists read digits tail,
    taken (regs w1) = taken (regs w) ++ read /\
    wire (regs w1) = wire (regs w) ++ msg_led_prompt ++ map uint8 read /\
    TIM2_CCR1 (regs w1) = TIM2_CCR1 (regs w) /\
    map uint8 read = digits ++ tail /\
    Forall (fun c => is_digit c = true) digits /\
    idx = Z.of_nat (length digits) /\
    (length digits <= 2)%nat /\
    str = store_digits 0 digits [0; 0; 0] /\
    (tail = [] \/ exists c, tail = [c] /\ is_digit c = false).
Proof.
  intros Hrun. unfold l_collect in Hrun.
  apply bind_Some in Hrun as (u & wp & Ep & Hrun).
  apply bind_Some in Hrun as (start & w0 & E0 & Hrun).
  destruct (uart_send_string_spec _ _ _ _ Ep) as (Wp & Tp & Cp).
  destruct (quiet_volatile_read _ _ _ _ E0) as (W0 & T0 & C0).
  destruct (collect_digits_spec _ _ _ _ _ _ _ _ (Z.le_refl 0) Hrun)
    as (read & digits & tail & Ht & Hw & Hc & Hm & Hd & Hi & Hs & Hex).
  exists read, digits, tail. repeat split; try assumption.
  - congruence.
  - rewrite Hw, W0, Wp, <- app_assoc. reflexivity.
  - congruence.
  - destruct Hex as [(_ & ?)|[(_ & ? & _)|(c & _ & _ & ?)]]; lia.
  - destruct Hex as [(? & _)|[(? & _)|(c & ? & ? & _)]]; eauto.
Qed.

Lemma txe_batchb_sound sched :
  forallb txe_batchb sched = true -> Forall txe_batch sched.
Proof.
  intros H. apply List.Forall_forall. intros b Hb.
  rewrite forallb_forall in H. specialize (H b Hb).
  unfold txe_batchb in H. apply existsb_exists in H as (e & He & Hte).
  destruct e; try discriminate. exact He.
Qed.

Lemma l_command_run w idx str w1 :
  l_collect w = Some ((idx, str), w1) -> l_command w = l_finish idx str w1.
Proof. intros H. unfold l_command, bind. now rewrite H. Qed.

(** C6: when the digit loop ends with no digit collected (an immediate
    non-digit byte, or the timeout without any byte), the interpreter
    only sends "No digits received after L command\r\n":
    [set_led_brightness] is not called and TIM2_CCR1 keeps its value.
    With a prompt transmitter the command does return. *)
Theorem l_command_no_digits (w : world) (str : list Z) (w1 : world) :
  l_collect w = Some ((0, str), w1) ->
  l_finish 0 str = uart_send_string (bytes_of "No digits received after L command" ++ [13; 10]) /\
  (forall w', l_command w = Some (tt, w') ->
     TIM2_CCR1 (regs w') = TIM2_CCR1 (regs w) /\
     exists echoed,
       (echoed = [] \/ exists c, echoed = [c] /\ is_digit c = false) /\
       wire (regs w') = wire (regs w) ++ msg_led_prompt ++ echoed ++ msg_no_digits) /\
  (Forall txe_batch (pending w1) -> (36 <= length (pending w1))%nat ->
   exists w', l_command w = Some (tt, w')).
Proof.
  intros Hcol. split; [reflexivity|].
  rewrite (l_command_run _ _ _ _ Hcol).
  destruct (l_collect_spec _ _ _ _ Hcol)
    as (read & digits & tail & Ht & Hw & Hc & Hm & Hd & Hi & Hlen & Hs & Hex).
  assert (digits = []) by (destruct digits; [reflexivity|simpl in Hi; lia]).
  subst digits. simpl in Hm.
  split.
  - intros w' Hrun. change (l_finish 0 str) with (uart_send_string msg_no_digits) in Hrun.
    destruct (uart_send_string_spec _ _ _ _ Hrun) as (W & T & C).
    split; [congruence|].
    exists tail. split; [assumption|].
    rewrite W, Hw, Hm, <- !app_assoc. reflexivity.
  - intros Htx Hlen'. change (l_finish 0 str) with (uart_send_string msg_no_digits).
    destruct w1 as [h1 sched1].
    destruct (uart_send_string_total msg_no_digits h1 sched1 Htx) as [h' Hh'].
    + exact Hlen'.
    + eauto.
Qed.

(** "LX": the X is echoed, the line follows, the duty cycle stays 0. *)
Lemma l_command_no_digits_witness :
  exists w',
    l_command entry_LX = Some (tt, w') /\
    TIM2_CCR1 (regs w') = 0 /\
    wire (regs w') = msg_led_prompt ++ [88] ++ msg_no_digits.
Proof.
  destruct (l_collect entry_LX) as [[[idx str] w1]|] eqn:E;
    [|vm_compute in E; discriminate].
  pose proof E as E'. vm_compute in E'. injection E' as <- <- <-.
  destruct (proj2 (proj2 (l_command_no_digits _ _ _ E))) as [w' Hw'].
  - apply txe_batchb_sound. vm_compute. reflexivity.
  - apply Nat.leb_le. vm_compute. reflexivity.
  - exists w'. split; [exact Hw'|].
    vm_compute in Hw'. injection Hw' as <-. split; reflexivity.
Defined.

(** C7: when the digit loop ends with one or two digits collected, the
    value handed to [set_led_brightness] is the decimal numeral they
    spell, read left to right, at most 99; TIM2_CCR1 receives it and the
    line "\r\nLED brightness set to <value>%\r\n" is sent after the
    echoed bytes.  With a prompt transmitter the command does return. *)
Theorem l_command_sets_brightness (w : world) (idx : Z) (str : list Z) (w1 : world) :
  l_collect w = Some ((idx, str), w1) -> 0 < idx ->
  exists digits echoed,
    Forall (fun c => is_digit c = true) digits /\
    idx = Z.of_nat (length digits) /\ idx <= 2 /\
    (echoed = digits \/ exists c, echoed = digits ++ [c] /\ is_digit c = false) /\
    parse_brightness idx str = decimal_value digits /\
    0 <= decimal_value digits <= 99 /\
    (forall w', l_command w = Some (tt, w') ->
       TIM2_CCR1 (regs w') = decimal_value digits /\
       wire (regs w') =
         wire (regs w) ++ msg_led_prompt ++ echoed ++
         [13; 10] ++ bytes_of "LED brightness set to " ++
         decimal (decimal_value digits) ++ bytes_of "%" ++ [13; 10]) /\
    (Forall txe_batch (pending w1) -> (29 <= length (pending w1))%nat ->
     exists w', l_command w = Some (tt, w')).
Proof.
  intros Hcol Hpos.
  rewrite (l_command_run _ _ _ _ Hcol).
  destruct (l_collect_spec _ _ _ _ Hcol)
    as (read & digits & tail & Ht & Hw & Hc & Hm & Hd & Hi & Hlen & Hs & Hex).
  destruct (parse_brightness_store digits Hd Hlen) as [Hparse Hrange].
  rewrite <- Hi, <- Hs in Hparse.
  destruct (msg_brightness_text _ Hrange) as (_ & Hcstr & Hmlen).
  exists digits, (digits ++ tail). repeat split; try assumption; try lia.
  - destruct Hex as [->|(c & -> & Hnd)]; [left; apply app_nil_r|right; eauto].
  - unfold l_finish in H. destruct (Z.gtb_spec idx 0); [|lia].
    apply bind_Some in H as (u & wm & Em & Hsend).
    injection Em as _ <-.
    destruct (uart_send_string_spec _ _ _ _ Hsend) as (_ & _ & C).
    rewrite C. cbn [regs]. rewrite Hparse. unfold set_led_brightness.
    destruct (Z.gtb_spec (decimal_value digits) 99); [lia|reflexivity].
  - unfold l_finish in H. destruct (Z.gtb_spec idx 0); [|lia].
    apply bind_Some in H as (u & wm & Em & Hsend).
    injection Em as _ <-.
    destruct (uart_send_string_spec _ _ _ _ Hsend) as (W & _ & _).
    rewrite W. cbn [regs]. rewrite Hparse, Hcstr.
    unfold set_led_brightness, set_TIM2_CCR1; cbn [wire].
    rewrite Hw, Hm, <- !app_assoc. reflexivity.
  - intros Htx Hlen'. unfold l_finish. destruct (Z.gtb_spec idx 0); [|lia].
    unfold bind, modify. destruct w1 as [h1 sched1]. cbn [regs pending] in *.
    rewrite Hparse.
    edestruct (uart_send_string_total (msg_brightness (decimal_value digits)))
      as [h' Hh']; [exact Htx| |eauto].
    rewrite Hcstr. lia.
Qed.

(** "L5\n": TIM2_CCR1 becomes 5; after the prompt the 5 and the newline
    are echoed and "\r\nLED brightness set to 5%\r\n" follows. *)
Lemma l_command_sets_brightness_witness :
  exists w',
    l_command entry_L5_newline = Some (tt, w') /\
    TIM2_CCR1 (regs w') = 5 /\
    wire (regs w') =
      msg_led_prompt ++ [53; 10] ++
      [13; 10] ++ bytes_of "LED brightness set to 5%" ++ [13; 10].
Proof.
  destruct (l_collect entry_L5_newline) as [[[idx str] w1]|] eqn:E;
    [|vm_compute in E; discriminate].
  pose proof E as E'. vm_compute in E'. injection E' as <- <- <-.
  destruct (l_command_sets_brightness _ _ _ _ E) as (digits & echoed & H);
    [reflexivity|].
  destruct H as (_ & _ & _ & _ & _ & _ & _ & Htotal).
  destruct Htotal as [w' Hw'].
  - apply txe_batchb_sound. vm_compute. reflexivity.
  - apply Nat.leb_le. vm_compute. reflexivity.
  - exists w'. split; [exact Hw'|].
    vm_compute in Hw'. injection Hw' as <-. split; reflexivity.
Defined.

(** C10: every brightness the interpreter hands to [set_led_brightness]
    is parsed from one or two digit characters and is at most 99, so the
    clamping branch is never taken there: the call is a plain write of
    the parsed value. *)
Theorem interpreter_brightness_below_100 (w : world) (idx : Z) (str : list Z) (w1 : world) :
  l_collect w = Some ((idx, str), w1) -> 0 < idx ->
  0 <= parse_brightness idx str <= 99 /\
  (parse_brightness idx str >? 99) = false /\
  forall h, set_led_brightness (parse_brightness idx str) h
            = set_TIM2_CCR1 (parse_brightness idx str) h.
Proof.
  intros Hcol Hpos.
  destruct (l_collect_spec _ _ _ _ Hcol)
    as (read & digits & tail & _ & _ & _ & _ & Hd & Hi & Hlen & Hs & _).
  destruct (parse_brightness_store digits Hd Hlen) as [Hparse Hrange].
  rewrite <- Hi, <- Hs in Hparse. rewrite Hparse.
  assert (Hgt : (decimal_value digits >? 99) = false) by (rewrite Z.gtb_ltb; apply Z.ltb_ge; lia).
  split; [lia|]. split; [exact Hgt|].
  intros h. unfold set_led_brightness. now rewrite Hgt.
Qed.

Lemma interpreter_brightness_below_100_witness :
  exists str w1,
    l_collect entry_L99 = Some ((2, str), w1) /\
    parse_brightness 2 str = 99 /\
    (parse_brightness 2 str >? 99) = false.
Proof.
  destruct (l_collect entry_L99) as [[[idx str] w1]|] eqn:E;
    [|vm_compute in E; discriminate].
  pose proof E as E'. vm_compute in E'. injection E' as <- <- <-.
  eexists _, _. split; [reflexivity|].
  split; [reflexivity|].
  apply (interpreter_brightness_below_100 _ _ _ _ E). reflexivity.
Defined.

(** C9: every byte the digit loop takes from USART_RDR is written to
    USART_TDR, in the same order, and the loop has waited for TXE after
    the write, whether the byte is a digit or not: a non-digit byte that
    ends the loop is the last byte on the wire. *)
Theorem digit_loop_echoes (fuel : nat) (start_time idx : Z) (str : list Z)
    (w : world) (idx' : Z) (str' : list Z) (w' : world) :
  0 <= idx ->
  collect_digits fuel start_time idx str w = Some ((idx', str'), w') ->
  exists read,
    taken (regs w') = taken (regs w) ++ read /\
    wire (regs w') = wire (regs w) ++ map uint8 read /\
    (read <> [] -> Z.testbit (USART_ISR (regs w')) 7 = true) /\
    (forall c, In c (map uint8 read) -> is_digit c = false ->
       last (wire (regs w')) = Some c /\ idx' < 2).
Proof.
  intros Hidx Hrun.
  destruct (collect_digits_spec _ _ _ _ _ _ _ _ Hidx Hrun)
    as (read & digits & tail & Ht & Hw & Hc & Hm & Hd & Hi & Hs & Hex).
  exists read. split; [assumption|]. split; [assumption|]. split.
  - intros Hne. apply (collect_digits_txe _ _ _ _ _ _ _ Hrun). right.
    rewrite Ht. intros Heq. apply Hne.
    apply (f_equal (@length Z)) in Heq. rewrite length_app in Heq.
    destruct read; [reflexivity|simpl in Heq; lia].
  - intros c Hin Hnd. rewrite Hm in Hin. apply in_app_or in Hin as [Hin|Hin].
    + rewrite List.Forall_forall in Hd. rewrite (Hd _ Hin) in Hnd. discriminate.
    + destruct Hex as [(-> & _)|[(-> & _)|(c' & -> & _ & Hlt)]];
        try (destruct Hin; fail).
      destruct Hin as [<-|[]]. split; [|assumption].
      rewrite Hw, Hm, !app_assoc. apply last_snoc.
Qed.

(** "L5\n": the loop takes 5 and the newline, and both are echoed. *)
Lemma digit_loop_echoes_witness :
  exists str' w',
    collect_digits 200 0 0 [0; 0; 0] entry_L5_newline = Some ((1, str'), w') /\
    taken (regs w') = [53; 10] /\
    wire (regs w') = [53; 10] /\
    last (wire (regs w')) = Some 10.
Proof.
  destruct (collect_digits 200 0 0 [0; 0; 0] entry_L5_newline)
    as [[[idx' str'] w']|] eqn:E; [|vm_compute in E; discriminate].
  pose proof E as E'. vm_compute in E'. injection E' as <- <- <-.
  eexists _, _. split; [reflexivity|].
  split; [reflexivity|]. split; [reflexivity|].
  destruct (digit_loop_echoes _ _ _ _ _ _ _ _ (Z.le_refl 0) E)
    as (read & _ & Hw & _ & Hlast).
  apply (Hlast 10); [|reflexivity].
  unfold entry_L5_newline, h_reset in Hw. cbn [regs wire app] in Hw.
  rewrite <- Hw. right; left; reflexivity.
Defined.

(** ** The T command *)

Lemma t_command_spec a w a' w' :
  t_command a w = Some (a', w') ->
  a' = (if a =? 0 then 1 else 0) /\
  wire (regs w') = wire (regs w) ++ (if a' =? 0 then msg_temp_off else msg_temp_on) /\
  TIM2_CCR1 (regs w') = TIM2_CCR1 (regs w).
Proof.
  unfold t_command. intros Hrun.
  apply bind_Some in Hrun as (u & w1 & E1 & Hrun). injection Hrun as <- <-.
  split; [reflexivity|].
  assert (H10 : (1 =? 0) = false) by reflexivity.
  assert (H00 : (0 =? 0) = true) by reflexivity.
  destruct (a =? 0); rewrite ?H10, ?H00 in E1 |- *;
    destruct (uart_send_string_spec _ _ _ _ E1) as (W & _ & C); auto.
Qed.

Lemma main_iteration_flag a w a' w' :
  a = 0 \/ a = 1 -> main_iteration a w = Some (a', w') -> a' = 0 \/ a' = 1.
Proof.
  intros Ha Hrun. unfold main_iteration in Hrun.
  apply bind_Some in Hrun as (avail & w1 & _ & Hrun).
  apply bind_Some in Hrun as (a1 & w2 & E2 & Hrun).
  apply bind_Some in Hrun as (u & w3 & _ & Hrun). injection Hrun as <- <-.
  destruct (avail =? 0); [now injection E2 as <- <-|].
  apply bind_Some in E2 as (c & w4 & _ & E2). unfold dispatch in E2.
  destruct ((c =? 84) || (c =? 116)).
  - apply t_command_spec in E2 as (-> & _). destruct (a =? 0); auto.
  - destruct ((c =? 76) || (c =? 108)).
    + apply bind_Some in E2 as (u' & w5 & _ & E2). now injection E2 as <- <-.
    + now injection E2 as <- <-.
Qed.

Lemma main_loop_flag n : forall a w a' w',
  a = 0 \/ a = 1 -> main_loop n a w = Some (a', w') -> a' = 0 \/ a' = 1.
Proof.
  induction n as [|n IH]; intros a w a' w' Ha Hrun; simpl in Hrun.
  - now injection Hrun as <- <-.
  - apply bind_Some in Hrun as (a1 & w1 & E1 & Hrun).
    eapply IH; [|exact Hrun]. eapply main_iteration_flag; eassumption.
Qed.

Lemma c_string_banner :
  c_string (nth 0 msg_banner []) = bytes_of "STM32F0xx Demo" ++ [13; 10] /\
  c_string (nth 1 msg_banner []) = bytes_of "T - to toggle temperature reading" ++ [13; 10] /\
  c_string (nth 2 msg_banner []) = bytes_of "L<0-99> - to set LED brightness" ++ [13; 10].
Proof. vm_compute. auto. Qed.

(** ** One pass of the loop, byte by byte *)

Lemma t_command_taken a w a' w' :
  t_command a w = Some (a', w') -> taken (regs w') = taken (regs w).
Proof.
  unfold t_command. cbv zeta. intros Hrun.
  apply bind_Some in Hrun as (u & w1 & E1 & Hrun). injection Hrun as _ <-.
  destruct ((if a =? 0 then 1 else 0) =? 0);
    now destruct (uart_send_string_spec _ _ _ _ E1) as (_ & T & _).
Qed.

Lemma l_command_taken w u w' :
  l_command w = Some (u, w') -> exists read, taken (regs w') = taken (regs w) ++ read.
Proof.
  unfold l_command. intros Hrun.
  apply bind_Some in Hrun as ([idx str] & w1 & E1 & Hrun). cbn [fst snd] in Hrun.
  destruct (l_collect_spec _ _ _ _ E1) as (read & _ & _ & Ht & _).
  exists read. rewrite <- Ht. unfold l_finish in Hrun. destruct (idx >? 0).
  - apply bind_Some in Hrun as (u1 & w2 & E2 & Hrun). injection E2 as _ <-.
    now destruct (uart_send_string_spec _ _ _ _ Hrun) as (_ & T & _).
  - now destruct (uart_send_string_spec _ _ _ _ Hrun) as (_ & T & _).
Qed.

Lemma dispatch_taken c a w a' w' :
  dispatch c a w = Some (a', w') -> exists more, taken (regs w') = taken (regs w) ++ more.
Proof.
  unfold dispatch. intros Hrun. destruct ((c =? 84) || (c =? 116)).
  - exists []. rewrite app_nil_r. eapply t_command_taken, Hrun.
  - destruct ((c =? 76) || (c =? 108)).
    + apply bind_Some in Hrun as (u & w1 & E1 & Hrun). injection Hrun as _ <-.
      eapply l_command_taken, E1.
    + injection Hrun as _ <-. exists []. now rewrite app_nil_r.
Qed.

Lemma report_temperature_quiet w u w' :
  report_temperature w = Some (u, w') ->
  taken (regs w') = taken (regs w) /\
  TIM2_CCR1 (regs w') = TIM2_CCR1 (regs w) /\
  exists report, wire (regs w') = wire (regs w) ++ report.
Proof.
  unfold report_temperature. intros Hrun.
  apply bind_Some in Hrun as (t & w1 & E1 & Hrun).
  apply bind_Some in Hrun as (u2 & w2 & E2 & Hrun).
  destruct (quiet_volatile_read _ _ _ _ E1) as (W1 & T1 & C1).
  destruct (uart_send_string_spec _ _ _ _ E2) as (W2 & T2 & C2).
  destruct (quiet_delay_ms _ _ _ _ Hrun) as (W3 & T3 & C3).
  split; [congruence|]. split; [congruence|].
  exists (c_string (msg_temperature t)). congruence.
Qed.

(** What follows the command in a pass: nothing while the flag is 0,
    one report otherwise. *)
Lemma main_iteration_tail a w u w' :
  ((if a =? 0 then ret tt else report_temperature) w) = Some (u, w') ->
  taken (regs w') = taken (regs w) /\
  TIM2_CCR1 (regs w') = TIM2_CCR1 (regs w) /\
  exists report, wire (regs w') = wire (regs w) ++ report /\ (a = 0 -> report = []).
Proof.
  destruct (Z.eqb_spec a 0) as [->|Hne]; intros Hrun.
  - injection Hrun as _ <-. repeat split. exists []. now rewrite app_nil_r.
  - destruct (report_temperature_quiet _ _ _ Hrun) as (T & C & report & W).
    repeat split; try assumption. exists report. split; [exact W|]. intros; contradiction.
Qed.

(** A pass of the loop takes nothing, or takes a byte and dispatches
    it; the report, if any, comes last. *)
Lemma main_iteration_run a w a' w' :
  main_iteration a w = Some (a', w') ->
  exists w2 w3,
    wire (regs w2) = wire (regs w) /\ TIM2_CCR1 (regs w2) = TIM2_CCR1 (regs w) /\
    ((a' = a /\ w3 = w2 /\ taken (regs w2) = taken (regs w)) \/
     (exists rdr, taken (regs w2) = taken (regs w) ++ [rdr] /\
                  dispatch (uint8 rdr) a w2 = Some (a', w3))) /\
    ((if a' =? 0 then ret tt else report_temperature) w3) = Some (tt, w').
Proof.
  intros Hrun. unfold main_iteration in Hrun.
  apply bind_Some in Hrun as (avail & w1 & E1 & Hrun).
  apply bind_Some in Hrun as (a1 & w3 & E2 & Hrun).
  apply bind_Some in Hrun as (u & w4 & E3 & Hrun). injection Hrun as <- <-.
  destruct u.
  destruct (uart_data_available_spec _ _ _ E1) as ((W1 & T1 & C1) & Hav).
  destruct (Z.eqb_spec avail 0) as [->|Hne].
  - injection E2 as <- <-. exists w1, w1. repeat split; try assumption. left. auto.
  - destruct Hav as [?|[_ Hrx]]; [contradiction|].
    apply bind_Some in E2 as (c & w2 & Ec & E2).
    destruct (uart_receive_char_spec _ _ _ Ec Hrx) as (rdr & -> & T2 & W2 & C2).
    exists w2, w3. split; [congruence|]. split; [congruence|]. split; [|exact E3].
    right. exists rdr. split; [congruence|exact E2].
Qed.

Lemma main_iteration_taken a w a' w' :
  main_iteration a w = Some (a', w') -> exists l, taken (regs w') = taken (regs w) ++ l.
Proof.
  intros Hrun.
  destruct (main_iteration_run _ _ _ _ Hrun) as (w2 & w3 & _ & _ & Hd & Ht).
  destruct (main_iteration_tail _ _ _ _ Ht) as (T & _).
  destruct Hd as [(_ & -> & T2)|(rdr & T2 & Hd)].
  - exists []. rewrite app_nil_r. congruence.
  - destruct (dispatch_taken _ _ _ _ _ Hd) as (more & Tm).
    exists (rdr :: more). rewrite T, Tm, T2, <- app_assoc. reflexivity.
Qed.

(** A pass whose first byte taken is T or t takes no other byte,
    inverts the flag and answers ON or OFF before any report. *)
Lemma main_iteration_T a w a' w' rdr more :
  main_iteration a w = Some (a', w') ->
  taken (regs w') = taken (regs w) ++ rdr :: more ->
  uint8 rdr = 84 \/ uint8 rdr = 116 ->
  more = [] /\
  a' = (if a =? 0 then 1 else 0) /\
  TIM2_CCR1 (regs w') = TIM2_CCR1 (regs w) /\
  exists report,
    wire (regs w') = wire (regs w) ++
      (if a' =? 0 then msg_temp_off else msg_temp_on) ++ report /\
    (a' = 0 -> report = []).
Proof.
  intros Hrun Ht Hc.
  destruct (main_iteration_run _ _ _ _ Hrun) as (w2 & w3 & W2 & C2 & Hd & Htail).
  destruct (main_iteration_tail _ _ _ _ Htail) as (T3 & C3 & report & W3 & Hrep).
  destruct Hd as [(_ & -> & T2)|(r & T2 & Hd)].
  - exfalso. rewrite T3, T2 in Ht. apply (f_equal (@length Z)) in Ht.
    rewrite length_app in Ht. simpl in Ht. lia.
  - destruct (dispatch_taken _ _ _ _ _ Hd) as (m & Tm).
    assert (Hrm : r :: m = rdr :: more).
    { rewrite T3, Tm, T2, <- app_assoc in Ht. now apply app_inv_head in Ht. }
    injection Hrm as -> ->.
    assert (Hdisp : dispatch (uint8 rdr) a = t_command a)
      by (destruct Hc as [->| ->]; reflexivity).
    rewrite Hdisp in Hd.
    pose proof (t_command_taken _ _ _ _ Hd) as Tt.
    destruct (t_command_spec _ _ _ _ Hd) as (Ha & Wt & Ct).
    split.
    { rewrite Tt in Tm. rewrite <- (app_nil_r (taken (regs w2))) in Tm at 1.
      now apply app_inv_head in Tm. }
    split; [exact Ha|]. split; [congruence|].
    exists report. split; [|exact Hrep].
    rewrite W3, Wt, W2, <- app_assoc. reflexivity.
Qed.

(** C8: the flag starts at 0 and only ever holds 0 or 1; a received
    'T' or 't' inverts it and sends "Temperature reading ON\r\n" when it
    becomes 1, "Temperature reading OFF\r\n" when it becomes 0, so a
    second T restores the flag; with a prompt transmitter the command
    returns.  In the loop of [main]: a pass that receives T or t takes
    that byte only, inverts the flag and answers before any report; and
    when the first two bytes received after the banner are T's, the
    first is answered ON, the second OFF, and the flag is 0 again. *)
Theorem t_command_toggles :
  (forall w a w', main_from_banner 0 w = Some (a, w') -> a = 0) /\
  (forall n w a w', main_from_banner n w = Some (a, w') -> a = 0 \/ a = 1) /\
  (forall received_char a w a' w',
     received_char = 84 \/ received_char = 116 ->
     dispatch received_char a w = Some (a', w') ->
     a' = (if a =? 0 then 1 else 0) /\
     wire (regs w') = wire (regs w) ++
       (if a' =? 0 then bytes_of "Temperature reading OFF" ++ [13; 10]
        else bytes_of "Temperature reading ON" ++ [13; 10])) /\
  (forall c1 c2 a w a1 w1 v a2 w2,
     c1 = 84 \/ c1 = 116 -> c2 = 84 \/ c2 = 116 -> a = 0 \/ a = 1 ->
     dispatch c1 a w = Some (a1, w1) -> dispatch c2 a1 v = Some (a2, w2) ->
     a2 = a) /\
  (forall received_char a h sched,
     received_char = 84 \/ received_char = 116 ->
     Forall txe_batch sched -> (25 <= length sched)%nat ->
     exists a' w', dispatch received_char a (World h sched) = Some (a', w')) /\
  (forall a w avail w1 c w2 a' w',
     uart_data_available w = Some (avail, w1) -> avail <> 0 ->
     uart_receive_char w1 = Some (c, w2) -> c = 84 \/ c = 116 ->
     main_iteration a w = Some (a', w') ->
     a' = (if a =? 0 then 1 else 0) /\
     TIM2_CCR1 (regs w') = TIM2_CCR1 (regs w) /\
     (exists rdr, c = uint8 rdr /\ taken (regs w') = taken (regs w) ++ [rdr]) /\
     exists report,
       wire (regs w') = wire (regs w) ++
         (if a' =? 0 then bytes_of "Temperature reading OFF" ++ [13; 10]
          else bytes_of "Temperature reading ON" ++ [13; 10]) ++ report /\
       (a' = 0 -> report = [])) /\
  (forall a w a1 w1 a2 w2 r1 r2,
     a = 0 \/ a = 1 ->
     main_iteration a w = Some (a1, w1) -> taken (regs w1) = taken (regs w) ++ [r1] ->
     uint8 r1 = 84 \/ uint8 r1 = 116 ->
     main_iteration a1 w1 = Some (a2, w2) -> taken (regs w2) = taken (regs w1) ++ [r2] ->
     uint8 r2 = 84 \/ uint8 r2 = 116 ->
     main_loop 2 a w = Some (a, w2)) /\
  (forall w a w' r1 r2,
     main_from_banner 2 w = Some (a, w') ->
     taken (regs w') = taken (regs w) ++ [r1; r2] ->
     uint8 r1 = 84 \/ uint8 r1 = 116 -> uint8 r2 = 84 \/ uint8 r2 = 116 ->
     a = 0 /\
     exists report,
       wire (regs w') = wire (regs w) ++
         (bytes_of "STM32F0xx Demo" ++ [13; 10]) ++
         (bytes_of "T - to toggle temperature reading" ++ [13; 10]) ++
         (bytes_of "L<0-99> - to set LED brightness" ++ [13; 10]) ++
         (bytes_of "Temperature reading ON" ++ [13; 10]) ++ report ++
         (bytes_of "Temperature reading OFF" ++ [13; 10])).
Proof.
  assert (Hd : forall c a, c = 84 \/ c = 116 -> dispatch c a = t_command a).
  { intros c a [->| ->]; reflexivity. }
  split; [|split; [|split; [|split; [|split; [|split; [|split]]]]]].
  - intros w a w' Hrun. unfold main_from_banner in Hrun.
    repeat (apply bind_Some in Hrun as (? & ? & _ & Hrun)).
    now injection Hrun as <- <-.
  - intros n w a w' Hrun. unfold main_from_banner in Hrun.
    repeat (apply bind_Some in Hrun as (? & ? & _ & Hrun)).
    eapply main_loop_flag; [|exact Hrun]. now left.
  - intros c a w a' w' Hc Hrun. rewrite (Hd _ _ Hc) in Hrun.
    destruct (t_command_spec _ _ _ _ Hrun) as (Ha & W & _). auto.
  - intros c1 c2 a w a1 w1 v a2 w2 H1 H2 Ha R1 R2.
    rewrite (Hd _ _ H1) in R1. rewrite (Hd _ _ H2) in R2.
    apply t_command_spec in R1 as (-> & _). apply t_command_spec in R2 as (-> & _).
    destruct Ha as [->| ->]; reflexivity.
  - intros c a h sched Hc Htx Hlen. rewrite (Hd _ _ Hc). unfold t_command, bind.
    assert (H10 : (1 =? 0) = false) by reflexivity.
    assert (H00 : (0 =? 0) = true) by reflexivity.
    destruct (a =? 0); rewrite ?H10, ?H00.
    + destruct (uart_send_string_total msg_temp_on h sched Htx) as [h' ->];
        [etransitivity; [|exact Hlen]; apply Nat.leb_le; vm_compute; reflexivity|eauto].
    + destruct (uart_send_string_total msg_temp_off h sched Htx) as [h' ->];
        [etransitivity; [|exact Hlen]; apply Nat.leb_le; vm_compute; reflexivity|eauto].
  - intros a w avail w1 c w2 a' w' E1 Hne Ec Hc Hrun.
    destruct (uart_data_available_spec _ _ _ E1) as ((W1 & T1 & C1) & Hav).
    destruct Hav as [?|[_ Hrx]]; [contradiction|].
    destruct (uart_receive_char_spec _ _ _ Ec Hrx) as (rdr & Hcr & T2 & W2 & C2).
    destruct (main_iteration_taken _ _ _ _ Hrun) as (l & Tl).
    assert (Hl : exists more, l = rdr :: more).
    { unfold main_iteration in Hrun.
      apply bind_Some in Hrun as (avail' & w1' & E1' & Hrun).
      rewrite E1 in E1'. injection E1' as <- <-.
      apply bind_Some in Hrun as (a1 & w3 & E2 & Hrun).
      apply bind_Some in Hrun as (u & w4 & E3 & Hrun). injection Hrun as <- <-.
      destruct (Z.eqb_spec avail 0); [contradiction|].
      apply bind_Some in E2 as (c' & w2' & Ec' & E2).
      rewrite Ec in Ec'. injection Ec' as <- <-.
      destruct (dispatch_taken _ _ _ _ _ E2) as (more & Tm).
      destruct (main_iteration_tail _ _ _ _ E3) as (T3 & _).
      exists more. rewrite T3, Tm, T2, T1, <- app_assoc in Tl.
      now apply app_inv_head in Tl. }
    destruct Hl as (more & ->). subst c.
    destruct (main_iteration_T _ _ _ _ _ _ Hrun Tl Hc) as (-> & Ha & C & report & W & Hr).
    split; [exact Ha|]. split; [exact C|]. split; [eauto|]. exists report. auto.
  - intros a w a1 w1 a2 w2 r1 r2 Ha R1 T1 H1 R2 T2 H2.
    destruct (main_iteration_T _ _ _ _ _ _ R1 T1 H1) as (_ & Ha1 & _).
    destruct (main_iteration_T _ _ _ _ _ _ R2 T2 H2) as (_ & Ha2 & _).
    cbn [main_loop]. unfold bind. rewrite R1, R2. unfold ret. subst a1 a2.
    destruct Ha as [->| ->]; reflexivity.
  - intros w a w' r1 r2 Hrun Ht H1 H2.
    destruct c_string_banner as (B1 & B2 & B3).
    unfold main_from_banner in Hrun. cbv zeta in Hrun.
    apply bind_Some in Hrun as (u1 & v1 & E1 & Hrun).
    apply bind_Some in Hrun as (u2 & v2 & E2 & Hrun).
    apply bind_Some in Hrun as (u3 & v3 & E3 & Hrun).
    destruct (uart_send_string_spec _ _ _ _ E1) as (W1 & T1 & _).
    destruct (uart_send_string_spec _ _ _ _ E2) as (W2 & T2 & _).
    destruct (uart_send_string_spec _ _ _ _ E3) as (W3 & T3 & _).
    rewrite B1 in W1. rewrite B2 in W2. rewrite B3 in W3.
    cbn [main_loop] in Hrun.
    apply bind_Some in Hrun as (a1 & x1 & R1 & Hrun).
    apply bind_Some in Hrun as (a2 & x2 & R2 & Hrun). injection Hrun as <- <-.
    destruct (main_iteration_taken _ _ _ _ R1) as (l1 & L1).
    destruct (main_iteration_taken _ _ _ _ R2) as (l2 & L2).
    assert (Hl : l1 ++ l2 = [r1; r2]).
    { rewrite L2, L1, T3, T2, T1, <- app_assoc in Ht. now apply app_inv_head in Ht. }
    destruct l1 as [|x l1].
    + exfalso. simpl in Hl. subst l2. rewrite app_nil_r in L1.
      destruct (main_iteration_T _ _ _ _ _ _ R2 L2 H1) as (Hm & _). discriminate Hm.
    + simpl in Hl. injection Hl as -> Hl.
      destruct (main_iteration_T _ _ _ _ _ _ R1 L1 H1) as (-> & Ha1 & _ & rep1 & Wr1 & _).
      simpl in Hl. subst l2.
      destruct (main_iteration_T _ _ _ _ _ _ R2 L2 H2) as (_ & Ha2 & _ & rep2 & Wr2 & Hr2).
      change (0 =? 0) with true in Ha1. subst a1.
      change (1 =? 0) with false in Ha2. subst a2.
      change (0 =? 0) with true in Wr2. change (1 =? 0) with false in Wr1.
      rewrite (Hr2 eq_refl), app_nil_r in Wr2.
      split; [reflexivity|]. exists rep1.
      rewrite Wr2, Wr1, W3, W2, W1, <- !app_assoc. reflexivity.
Qed.

(** The first T after start-up answers ON, the second OFF: at the
    command itself, and in [main] from the banner on, where the two T's
    are received by the loop and one report falls between them. *)
Lemma t_command_toggles_witness :
  (exists a1 w1 a2 w2,
     dispatch 84 0 (World h_reset (idle 60)) = Some (a1, w1) /\
     dispatch 84 a1 w1 = Some (a2, w2) /\
     a1 = 1 /\ a2 = 0 /\
     wire (regs w2) = msg_temp_on ++ msg_temp_off) /\
  (exists w',
     main_from_banner 2 input_reset_T_T = Some (0, w') /\
     taken (regs w') = [84; 84] /\
     wire (regs w') =
       (bytes_of "STM32F0xx Demo" ++ [13; 10]) ++
       (bytes_of "T - to toggle temperature reading" ++ [13; 10]) ++
       (bytes_of "L<0-99> - to set LED brightness" ++ [13; 10]) ++
       (bytes_of "Temperature reading ON" ++ [13; 10]) ++
       (bytes_of "Temp: 39 degC" ++ [13; 10]) ++
       (bytes_of "Temperature reading OFF" ++ [13; 10])).
Proof.
  split.
  - destruct t_command_toggles as (_ & _ & _ & _ & Htotal & _).
    destruct (Htotal 84 0 h_reset (idle 60)) as (a1 & w1 & R1).
    { now left. }
    { apply txe_batchb_sound. vm_compute. reflexivity. }
    { apply Nat.leb_le. reflexivity. }
    pose proof R1 as R1'. vm_compute in R1'. injection R1' as <- <-.
    match type of R1 with
    | _ = Some (_, World ?h ?s) => destruct (Htotal 84 1 h s) as (a2 & w2 & R2)
    end.
    { now left. }
    { apply txe_batchb_sound. vm_compute. reflexivity. }
    { apply Nat.leb_le. reflexivity. }
    pose proof R2 as R2'. vm_compute in R2'. injection R2' as <- <-.
    eexists _, _, _, _. split; [exact R1|]. split; [exact R2|].
    repeat split; reflexivity.
  - destruct (main_from_banner 2 input_reset_T_T) as [[a w']|] eqn:E;
      [|vm_compute in E; discriminate E].
    assert (Ht : taken (regs w') = taken (regs input_reset_T_T) ++ [84; 84])
      by (vm_compute in E; injection E as _ <-; reflexivity).
    destruct (proj2 (proj2 (proj2 (proj2 (proj2 (proj2 (proj2 t_command_toggles))))))
                input_reset_T_T a w' 84 84 E Ht) as (-> & report & W);
      [now left|now left|].
    exists w'. split; [reflexivity|]. split; [exact Ht|].
    vm_compute in E. injection E as <-. reflexivity.
Defined.

(** ** Termination on good schedules *)

Lemma good_batchb_sound sched :
  forallb good_batchb sched = true -> Forall good_batch sched.
Proof.
  intros H. apply List.Forall_forall. intros b Hb.
  rewrite forallb_forall in H. specialize (H b Hb).
  unfold good_batchb in H. apply andb_true_iff in H as [H1 H2].
  apply existsb_exists in H1 as (e & He & Hte). apply Nat.leb_le in H2.
  destruct e; try discriminate. split; assumption.
Qed.

Lemma good_txe sched : Forall good_batch sched -> Forall txe_batch sched.
Proof. apply List.Forall_impl. intros b [H _]. exact H. Qed.

Lemma good_one_tick sched :
  Forall good_batch sched -> Forall (fun b => (ticks_in b <= 1)%nat) sched.
Proof. apply List.Forall_impl. intros b [_ H]. exact H. Qed.

Lemma good_ticks_length sched :
  Forall good_batch sched -> (ticks sched <= length sched)%nat.
Proof.
  induction 1 as [|b sched [_ Hb] _ IH]; simpl; lia.
Qed.

Lemma good_app_r c sched : Forall good_batch (c ++ sched) -> Forall good_batch sched.
Proof. intros H. apply Forall_app in H. tauto. Qed.

Lemma elapsed_after n m start :
  uint32 (after_ticks n m - start) = uint32 (uint32 (m - start) + Z.of_nat n).
Proof.
  induction n as [|n IH].
  - simpl. rewrite Z.add_0_r. unfold uint32. now rewrite Z.mod_mod by lia.
  - change (after_ticks (S n) m) with (uint32 (after_ticks n m + 1)).
    rewrite uint32_succ_sub, IH. unfold uint32.
    rewrite Zplus_mod_idemp_l. f_equal. lia.
Qed.

Lemma elapsed_small n m m' start :
  m' = after_ticks n m -> uint32 (m - start) + Z.of_nat n < 2 ^ 32 ->
  uint32 (m' - start) = uint32 (m - start) + Z.of_nat n.
Proof.
  intros -> H. rewrite elapsed_after. apply uint32_small.
  pose proof (uint32_range (m - start)). lia.
Qed.

Lemma total_within_intro n {A} (m : M A) :
  tracks m ->
  (forall h sched, Forall good_batch sched -> (n <= ticks sched)%nat ->
     exists a w', m (World h sched) = Some (a, w') /\
                  (ticks sched <= n + ticks (pending w'))%nat) ->
  total_within n m.
Proof.
  intros Htr Hrun h sched Hgood Hn.
  destruct (Hrun h sched Hgood Hn) as (a & [h' sched'] & E & Hle).
  destruct (Htr _ _ _ E) as (c & Hp & Hm). cbn [regs pending] in *.
  exists a, h', c, sched'. repeat split; try assumption.
  rewrite Hp, ticks_app in Hle. lia.
Qed.

Lemma total_within_weaken n n' {A} (m : M A) :
  (n <= n')%nat -> total_within n m -> total_within n' m.
Proof.
  intros Hle Hm h sched Hgood Hn.
  destruct (Hm h sched Hgood) as (a & h' & c & s' & E & Hs & Hc & Ht); [lia|].
  exists a, h', c, s'. repeat split; try assumption. lia.
Qed.

Lemma total_within_ret {A} (a : A) : total_within 0 (ret a).
Proof.
  intros h sched _ _. exists a, h, [], sched. repeat split. simpl. lia.
Qed.

Lemma total_within_bind n1 n2 {A B} (m : M A) (k : A -> M B) :
  total_within n1 m -> (forall a, total_within n2 (k a)) ->
  total_within (n1 + n2) (bind m k).
Proof.
  intros Hm Hk h sched Hgood Hn.
  destruct (Hm h sched Hgood) as (a & h1 & c1 & s1 & E1 & Hs1 & Hc1 & Ht1); [lia|].
  assert (Hgood1 : Forall good_batch s1) by (rewrite Hs1 in Hgood; eapply good_app_r, Hgood).
  assert (Hn1 : (n2 <= ticks s1)%nat) by (rewrite Hs1, ticks_app in Hn; lia).
  destruct (Hk a h1 s1 Hgood1 Hn1) as (b & h2 & c2 & s2 & E2 & Hs2 & Hc2 & Ht2).
  exists b, h2, (c1 ++ c2), s2. unfold bind. rewrite E1. split; [exact E2|].
  split; [rewrite Hs1, Hs2; apply app_assoc|].
  split; [rewrite ticks_app; lia|].
  rewrite Ht2, Ht1, ticks_app. symmetry. apply after_ticks_add.
Qed.

Lemma total_within_volatile_read {A} (f : hw -> A) : total_within 1 (volatile_read f).
Proof.
  apply total_within_intro; [apply tracks_volatile_read|].
  intros h [|b rest] Hgood Hn; [simpl in Hn; lia|].
  inversion Hgood as [|? ? [_ Hb] _]; subst.
  eexists _, _. split; [reflexivity|]. simpl. lia.
Qed.

Lemma total_within_modify (f : hw -> hw) :
  (forall h, msTicks (f h) = msTicks h) -> total_within 0 (modify f).
Proof.
  intros Hf h sched _ _. exists tt, (f h), [], sched.
  repeat split; [simpl; lia|apply Hf].
Qed.

Lemma total_within_wait_txe : total_within 1 wait_txe.
Proof.
  apply total_within_intro; [apply tracks_wait_txe|].
  intros h [|b rest] Hgood Hn; [simpl in Hn; lia|].
  inversion Hgood as [|? ? [Htx Hb] _]; subst.
  unfold wait_txe, spin_while; cbn [regs pending spin].
  rewrite land_bit, arrive_txe by (assumption || lia). cbn [negb].
  eexists _, _. split; [reflexivity|]. simpl. lia.
Qed.

Lemma total_within_uart_data_available : total_within 1 uart_data_available.
Proof.
  unfold uart_data_available. change 1%nat with (1 + 0)%nat.
  apply total_within_bind; [apply total_within_volatile_read|].
  intros ?. apply total_within_ret.
Qed.

Lemma total_within_uart_receive_char : total_within 2 uart_receive_char.
Proof.
  unfold uart_receive_char. change 2%nat with (1 + 1)%nat.
  apply total_within_bind; [apply total_within_volatile_read|].
  intros isr. destruct (_ =? 0).
  - apply (total_within_weaken 0); [lia|apply total_within_ret].
  - unfold read_USART_RDR. change 1%nat with (1 + (0 + 0) + 0)%nat.
    apply total_within_bind; [|intros ?; apply total_within_ret].
    apply total_within_bind; [apply total_within_volatile_read|].
    intros ?. apply total_within_bind; [|intros ?; apply total_within_ret].
    apply total_within_modify. reflexivity.
Qed.

Lemma total_within_write_USART_TDR c : total_within 0 (write_USART_TDR c).
Proof. apply total_within_modify. reflexivity. Qed.

Lemma total_within_delay_ms ms :
  0 <= ms < 2 ^ 32 -> total_within (Z.to_nat ms + 2) (delay_ms ms).
Proof.
  intros Hms. apply total_within_intro; [apply tracks_delay_ms|].
  intros h [|b0 sched] Hgood Hn; [simpl in Hn; lia|].
  inversion Hgood as [|? ? [_ Hb0] Hgood']; subst.
  simpl in Hn.
  destruct (delay_ms_total ms h b0 sched) as (w' & c & E & Hs & Hc & _).
  - exact Hms.
  - intros ->. simpl in Hn. lia.
  - apply good_one_tick, Hgood'.
  - lia.
  - exists tt, w'. split; [exact E|].
    rewrite Hs at 1. simpl. rewrite ticks_app. lia.
Qed.

Lemma total_within_uart_send_string str :
  total_within (length (c_string str)) (uart_send_string str).
Proof.
  induction str as [|c rest IH]; cbn [uart_send_string c_string].
  - apply total_within_ret.
  - destruct (c =? 0); [apply total_within_ret|].
    change (length (c :: c_string rest)) with (0 + (1 + length (c_string rest)))%nat.
    apply total_within_bind; [apply total_within_write_USART_TDR|].
    intros ?. apply total_within_bind; [apply total_within_wait_txe|].
    intros ?. exact IH.
Qed.

(** With ticks still to come, the digit loop ends, at the latest at the
    first read of the counter that shows 5000 elapsed milliseconds. *)
Lemma collect_digits_total fuel : forall sched h start idx str,
  Forall good_batch sched -> (length sched < fuel)%nat ->
  uint32 (msTicks h - start) <= 5010 ->
  5011 <= uint32 (msTicks h - start) + Z.of_nat (ticks sched) ->
  exists r h' c sched',
    collect_digits fuel start idx str (World h sched) = Some (r, World h' sched') /\
    sched = c ++ sched' /\
    uint32 (msTicks h - start) + Z.of_nat (ticks c) <= 5011.
Proof.
  induction fuel as [|fuel IH]; intros sched h start idx str Hgood Hfuel He Hticks;
    [lia|].
  cbn [collect_digits].
  destruct (idx <? 2); cbn [negb].
  2:{ exists (idx, str), h, [], sched. repeat split. simpl. lia. }
  destruct sched as [|b rest]; [simpl in Hticks; lia|].
  inversion Hgood as [|? ? [Htx Hb] Hgood1]; subst.
  simpl in Hticks, Hfuel.
  unfold bind at 1. unfold volatile_read at 1. cbn [regs pending].
  assert (E1 : uint32 (msTicks (arrive b h) - start)
               = uint32 (msTicks h - start) + Z.of_nat (ticks_in b)).
  { apply elapsed_small; [apply arrive_msTicks|lia]. }
  destruct (Z.ltb_spec (uint32 (msTicks (arrive b h) - start)) 5000) as [Hin|Hout];
    cbn [negb].
  2:{ exists (idx, str), (arrive b h), [b], rest. repeat split. simpl. lia. }
  destruct (total_within_uart_data_available (arrive b h) rest Hgood1)
    as (avail & h2 & c2 & s2 & R2 & Hs2 & Hc2 & Ht2); [lia|].
  unfold bind at 1. rewrite R2.
  assert (Hgood2 : Forall good_batch s2) by (rewrite Hs2 in Hgood1; eapply good_app_r, Hgood1).
  assert (E2 : uint32 (msTicks h2 - start)
               = uint32 (msTicks (arrive b h) - start) + Z.of_nat (ticks c2)).
  { apply elapsed_small; [exact Ht2|lia]. }
  assert (Hl2 : length rest = (length c2 + length s2)%nat) by (rewrite Hs2; apply length_app).
  assert (Hk2 : ticks rest = (ticks c2 + ticks s2)%nat) by (rewrite Hs2; apply ticks_app).
  destruct (avail =? 0).
  { destruct (IH s2 h2 start idx str Hgood2) as (r & h' & c' & s' & R & Hs & Hbound);
      try lia.
    exists r, h', (b :: c2 ++ c'), s'. split; [exact R|].
    split; [simpl; rewrite Hs2, Hs, app_assoc; reflexivity|].
    simpl. rewrite ticks_app. lia. }
  destruct (total_within_uart_receive_char h2 s2 Hgood2)
    as (c & h3 & c3 & s3 & R3 & Hs3 & Hc3 & Ht3); [lia|].
  unfold bind at 1. rewrite R3.
  assert (Hgood3 : Forall good_batch s3) by (rewrite Hs3 in Hgood2; eapply good_app_r, Hgood2).
  assert (E3 : uint32 (msTicks h3 - start) = uint32 (msTicks h2 - start) + Z.of_nat (ticks c3)).
  { apply elapsed_small; [exact Ht3|lia]. }
  assert (Hl3 : length s2 = (length c3 + length s3)%nat) by (rewrite Hs3; apply length_app).
  assert (Hk3 : ticks s2 = (ticks c3 + ticks s3)%nat) by (rewrite Hs3; apply ticks_app).
  unfold bind at 1. unfold write_USART_TDR at 1, modify at 1. cbn [regs pending].
  match goal with
  | |- context [World ?hh s3] =>
      destruct (total_within_wait_txe hh s3 Hgood3)
        as (u5 & h5 & c5 & s5 & R5 & Hs5 & Hc5 & Ht5); [lia|]
  end.
  cbn [msTicks] in Ht5.
  unfold bind at 1. rewrite R5.
  assert (Hgood5 : Forall good_batch s5) by (rewrite Hs5 in Hgood3; eapply good_app_r, Hgood3).
  assert (E5 : uint32 (msTicks h5 - start) = uint32 (msTicks h3 - start) + Z.of_nat (ticks c5)).
  { apply elapsed_small; [exact Ht5|lia]. }
  assert (Hl5 : length s3 = (length c5 + length s5)%nat) by (rewrite Hs5; apply length_app).
  assert (Hk5 : ticks s3 = (ticks c5 + ticks s5)%nat) by (rewrite Hs5; apply ticks_app).
  destruct (is_digit c).
  - destruct (total_within_delay_ms 5 ltac:(lia) h5 s5 Hgood5)
      as (u6 & h6 & c6 & s6 & R6 & Hs6 & Hc6 & Ht6); [simpl; lia|].
    unfold bind at 1. rewrite R6.
    assert (Hgood6 : Forall good_batch s6)
      by (rewrite Hs6 in Hgood5; eapply good_app_r, Hgood5).
    simpl in Hc6.
    assert (E6 : uint32 (msTicks h6 - start)
                 = uint32 (msTicks h5 - start) + Z.of_nat (ticks c6)).
    { apply elapsed_small; [exact Ht6|lia]. }
    assert (Hl6 : length s5 = (length c6 + length s6)%nat) by (rewrite Hs6; apply length_app).
    assert (Hk6 : ticks s5 = (ticks c6 + ticks s6)%nat) by (rewrite Hs6; apply ticks_app).
    destruct (IH s6 h6 start (idx + 1) (<[Z.to_nat idx := c]> str) Hgood6)
      as (r & h' & c' & s' & R & Hs & Hbound); try lia.
    exists r, h', (b :: c2 ++ c3 ++ c5 ++ c6 ++ c'), s'. split; [exact R|].
    split; [simpl; rewrite Hs2, Hs3, Hs5, Hs6, Hs, <- !app_assoc; reflexivity|].
    simpl. rewrite !ticks_app. lia.
  - exists (idx, str), h5, (b :: c2 ++ c3 ++ c5), s5. split; [reflexivity|].
    split; [simpl; rewrite Hs2, Hs3, Hs5, <- !app_assoc; reflexivity|].
    simpl. rewrite !ticks_app. lia.
Qed.

Lemma parse_from_range n : forall i str b,
  0 <= b < 256 -> 0 <= parse_from n i str b < 256.
Proof.
  induction n as [|n IH]; intros i str b Hb; simpl; [exact Hb|].
  apply IH. unfold uint8. apply Z.mod_pos_bound. lia.
Qed.

Lemma msg_brightness_length v :
  0 <= v < 256 -> (length (c_string (msg_brightness v)) <= 30)%nat.
Proof.
  intros Hv.
  assert (Hall : forallb (fun n =>
            (length (c_string (msg_brightness (Z.of_nat n))) <=? 30)%nat) (seq 0 256) = true)
    by (vm_compute; reflexivity).
  rewrite forallb_forall in Hall.
  specialize (Hall (Z.to_nat v)). rewrite Z2Nat.id in Hall by lia.
  apply Nat.leb_le, Hall, in_seq. lia.
Qed.

Lemma l_finish_total idx str h sched :
  Forall txe_batch sched -> (36 <= length sched)%nat ->
  exists w', l_finish idx str (World h sched) = Some (tt, w').
Proof.
  intros Htx Hlen. unfold l_finish. destruct (idx >? 0).
  - unfold bind, modify. cbn [regs pending].
    edestruct (uart_send_string_total (msg_brightness (parse_brightness idx str)))
      as [h' Hh']; [exact Htx| |eauto].
    assert (Hr : 0 <= parse_brightness idx str < 256)
      by (apply parse_from_range; lia).
    pose proof (msg_brightness_length _ Hr). lia.
  - edestruct (uart_send_string_total msg_no_digits) as [h' Hh']; [exact Htx| |eauto].
    exact Hlen.
Qed.

Lemma l_command_total h sched :
  Forall good_batch sched -> 5093 <= Z.of_nat (ticks sched) ->
  exists w', l_command (World h sched) = Some (tt, w').
Proof.
  intros Hgood Hticks. unfold l_command, l_collect.
  destruct (total_within_uart_send_string msg_led_prompt h sched Hgood)
    as (u & hp & cp & sp & Rp & Hsp & Hcp & _).
  { transitivity 45%nat; [apply Nat.leb_le; vm_compute; reflexivity|lia]. }
  assert (Hlp : (ticks cp <= 45)%nat).
  { etransitivity; [exact Hcp|]. apply Nat.leb_le. vm_compute. reflexivity. }
  assert (Hgoodp : Forall good_batch sp) by (rewrite Hsp in Hgood; eapply good_app_r, Hgood).
  assert (Hkp : ticks sched = (ticks cp + ticks sp)%nat) by (rewrite Hsp; apply ticks_app).
  unfold bind at 1. unfold bind at 1. rewrite Rp.
  destruct sp as [|b0 s0]; [simpl in Hkp; lia|].
  inversion Hgoodp as [|? ? [_ Hb0] Hgood0]; subst.
  simpl in Hkp.
  unfold bind at 1. unfold volatile_read at 1. cbn [regs pending].
  destruct (collect_digits_total (S (length s0)) s0 (arrive b0 hp)
              (msTicks (arrive b0 hp)) 0 [0; 0; 0] Hgood0)
    as ([idx str] & h1 & c1 & s1 & R1 & Hs1 & Hbound).
  { lia. }
  { rewrite Z.sub_diag. vm_compute. discriminate. }
  { rewrite Z.sub_diag. change (uint32 0) with 0. lia. }
  rewrite R1. cbn [fst snd].
  rewrite Z.sub_diag in Hbound. change (uint32 0) with 0 in Hbound.
  assert (Hk1 : ticks s0 = (ticks c1 + ticks s1)%nat) by (rewrite Hs1; apply ticks_app).
  assert (Hgood1 : Forall good_batch s1) by (rewrite Hs1 in Hgood0; eapply good_app_r, Hgood0).
  apply l_finish_total; [apply good_txe, Hgood1|].
  pose proof (good_ticks_length s1 Hgood1). lia.
Qed.

Lemma map_snoc_inv {A B} (f : A -> B) l : forall xs y,
  map f l = xs ++ [y] -> exists l' x, l = l' ++ [x] /\ map f l' = xs /\ f x = y.
Proof.
  induction l as [|a l IH]; intros xs y H.
  - destruct xs; discriminate.
  - destruct xs as [|x xs]; simpl in H.
    + injection H as H1 H2. apply map_eq_nil in H2. subst l.
      exists [], a. auto.
    + injection H as H1 H2. destruct (IH _ _ H2) as (l' & z & -> & <- & <-).
      exists (a :: l'), z. simpl. rewrite H1. auto.
Qed.

(** ** What the L command leaves behind, in terms of the bytes it took *)

Lemma l_command_outcome w u w' :
  l_command w = Some (u, w') ->
  exists read digits tail,
    taken (regs w') = taken (regs w) ++ read /\
    map uint8 read = digits ++ tail /\
    Forall (fun c => is_digit c = true) digits /\ (length digits <= 2)%nat /\
    (tail = [] \/ exists c, tail = [c] /\ is_digit c = false) /\
    (digits <> [] ->
     TIM2_CCR1 (regs w') = decimal_value digits /\
     wire (regs w') = wire (regs w) ++ msg_led_prompt ++ map uint8 read ++
                      msg_brightness (decimal_value digits)) /\
    (digits = [] ->
     TIM2_CCR1 (regs w') = TIM2_CCR1 (regs w) /\
     wire (regs w') = wire (regs w) ++ msg_led_prompt ++ map uint8 read ++ msg_no_digits).
Proof.
  intros Hrun. unfold l_command in Hrun.
  apply bind_Some in Hrun as ([idx str] & w1 & Hcol & Hfin). cbn [fst snd] in Hfin.
  destruct (l_collect_spec _ _ _ _ Hcol)
    as (read & digits & tail & Ht & Hw & Hc & Hm & Hd & Hi & Hlen & Hs & Hex).
  destruct (parse_brightness_store digits Hd Hlen) as [Hparse Hrange].
  rewrite <- Hi, <- Hs in Hparse.
  destruct (msg_brightness_text _ Hrange) as (_ & Hcstr & _).
  exists read, digits, tail.
  assert (Htaken : taken (regs w') = taken (regs w) ++ read).
  { unfold l_finish in Hfin. destruct (idx >? 0).
    - apply bind_Some in Hfin as (u1 & wm & Em & Hsend). injection Em as _ <-.
      destruct (uart_send_string_spec _ _ _ _ Hsend) as (_ & T & _).
      rewrite T. exact Ht.
    - destruct (uart_send_string_spec _ _ _ _ Hfin) as (_ & T & _). congruence. }
  split; [exact Htaken|]. split; [exact Hm|]. split; [exact Hd|]. split; [exact Hlen|].
  split; [exact Hex|]. split.
  - intros Hne. assert (0 < idx) by (destruct digits; [congruence|simpl in Hi; lia]).
    unfold l_finish in Hfin. destruct (Z.gtb_spec idx 0); [|lia].
    apply bind_Some in Hfin as (u1 & wm & Em & Hsend). injection Em as _ <-.
    destruct (uart_send_string_spec _ _ _ _ Hsend) as (W & _ & C).
    rewrite W, C. cbn [regs]. rewrite Hparse, Hcstr.
    unfold set_led_brightness, set_TIM2_CCR1; cbn [wire TIM2_CCR1].
    destruct (Z.gtb_spec (decimal_value digits) 99); [lia|].
    split; [reflexivity|]. rewrite Hw, <- !app_assoc. reflexivity.
  - intros ->. simpl in Hi. subst idx.
    change (l_finish 0 str) with (uart_send_string msg_no_digits) in Hfin.
    destruct (uart_send_string_spec _ _ _ _ Hfin) as (W & _ & C).
    split; [congruence|]. rewrite W, Hw, <- !app_assoc. reflexivity.
Qed.

(** A byte that is no digit can only be the last one of a run of the
    loop. *)
Lemma non_digit_is_last (read digits tail pre post : list Z) (r : Z) :
  map uint8 read = digits ++ tail ->
  Forall (fun c => is_digit c = true) digits ->
  (length tail <= 1)%nat ->
  read = pre ++ r :: post -> is_digit (uint8 r) = false -> post = [].
Proof.
  intros Hm Hd Hlen -> Hr.
  destruct post as [|p post]; [reflexivity|exfalso].
  rewrite map_app in Hm. cbn [map] in Hm.
  assert (Hlook : (digits ++ tail) !! length (map uint8 pre) = Some (uint8 r)).
  { rewrite <- Hm. apply list_lookup_middle. reflexivity. }
  assert (Hl : (length (map uint8 pre) < length digits)%nat).
  { apply (f_equal (@length Z)) in Hm. rewrite !length_app in Hm.
    cbn [length] in Hm. lia. }
  rewrite lookup_app_l in Hlook by exact Hl.
  rewrite Forall_lookup in Hd. rewrite (Hd _ _ Hlook) in Hr. discriminate Hr.
Qed.

Lemma main_iteration_L a w a' w' rdr more :
  main_iteration a w = Some (a', w') ->
  taken (regs w') = taken (regs w) ++ rdr :: more ->
  uint8 rdr = 76 \/ uint8 rdr = 108 ->
  exists w2 w3,
    wire (regs w2) = wire (regs w) /\ TIM2_CCR1 (regs w2) = TIM2_CCR1 (regs w) /\
    taken (regs w2) = taken (regs w) ++ [rdr] /\
    l_command w2 = Some (tt, w3) /\ taken (regs w3) = taken (regs w2) ++ more /\
    a' = a /\
    TIM2_CCR1 (regs w') = TIM2_CCR1 (regs w3) /\
    exists report, wire (regs w') = wire (regs w3) ++ report /\ (a = 0 -> report = []).
Proof.
  intros Hrun Ht Hc.
  destruct (main_iteration_run _ _ _ _ Hrun) as (w2 & w3 & W2 & C2 & Hmid & Htail).
  destruct (main_iteration_tail _ _ _ _ Htail) as (T3 & C3 & report & W3 & Hr).
  destruct Hmid as [(-> & -> & T2)|(rdr' & T2 & Hd)].
  - exfalso. rewrite T3, T2 in Ht. rewrite <- (app_nil_r (taken (regs w))) in Ht at 1.
    apply app_inv_head in Ht. discriminate Ht.
  - destruct (dispatch_taken _ _ _ _ _ Hd) as (more' & Tm).
    rewrite T3, Tm, T2, <- app_assoc in Ht. apply app_inv_head in Ht.
    simpl in Ht. injection Ht as -> ->.
    assert (Hl : dispatch (uint8 rdr) a = (l_command ;; ret a)).
    { destruct Hc as [-> | ->]; reflexivity. }
    rewrite Hl in Hd. apply bind_Some in Hd as (u & w3' & Hl3 & Hret).
    injection Hret as <- <-. destruct u.
    exists w2, w3'. repeat split; try assumption.
    exists report. auto.
Qed.




(** ** The fuel of the digit loop never runs out first *)

Lemma tracks_length {A} (m : M A) w a w' :
  tracks m -> m w = Some (a, w') -> (length (pending w') <= length (pending w))%nat.
Proof.
  intros Htr Hrun. destruct (Htr _ _ _ Hrun) as (c & -> & _).
  rewrite length_app. lia.
Qed.

Lemma collect_digits_fuel fuel : forall fuel' start idx str w,
  (length (pending w) < fuel)%nat -> (length (pending w) < fuel')%nat ->
  collect_digits fuel start idx str w = collect_digits fuel' start idx str w.
Proof.
  induction fuel as [|fuel IH]; intros [|fuel'] start idx str w H H'; try lia.
  cbn [collect_digits].
  destruct (idx <? 2); [|reflexivity]. cbn [negb].
  unfold bind at 1 7.
  destruct (volatile_read msTicks w) as [[now w1]|] eqn:E1; [|reflexivity].
  assert (L1 : (length (pending w1) < length (pending w))%nat).
  { destruct w as [h [|b rest]]; [discriminate|]. injection E1 as <- <-. simpl. lia. }
  destruct (uint32 (now - start) <? 5000); [|reflexivity]. cbn [negb].
  unfold bind at 1 6.
  destruct (uart_data_available w1) as [[avail w2]|] eqn:E2; [|reflexivity].
  pose proof (tracks_length _ _ _ _ tracks_uart_data_available E2) as L2.
  destruct (avail =? 0); [apply IH; lia|].
  unfold bind at 1 5.
  destruct (uart_receive_char w2) as [[c w3]|] eqn:E3; [|reflexivity].
  pose proof (tracks_length _ _ _ _ tracks_uart_receive_char E3) as L3.
  unfold bind at 1 4.
  destruct (write_USART_TDR c w3) as [[u4 w4]|] eqn:E4; [|reflexivity].
  pose proof (tracks_length _ _ _ _ (tracks_write_USART_TDR c) E4) as L4.
  unfold bind at 1 3.
  destruct (wait_txe w4) as [[u5 w5]|] eqn:E5; [|reflexivity].
  pose proof (tracks_length _ _ _ _ tracks_wait_txe E5) as L5.
  destruct (is_digit c); [|reflexivity].
  unfold bind.
  destruct (delay_ms 5 w5) as [[u6 w6]|] eqn:E6; [|reflexivity].
  pose proof (tracks_length _ _ _ _ (tracks_delay_ms 5) E6) as L6.
  apply IH; lia.
Qed.

(** ** The scenarios of the specification, run through [main] *)

Example scenario_T_T :
  exists w',
    main_loop 2 0 input_T_T = Some (0, w') /\
    wire (regs w') =
      bytes_of "Temperature reading ON" ++ [13; 10] ++
      bytes_of "Temp: 39 degC" ++ [13; 10] ++
      bytes_of "Temperature reading OFF" ++ [13; 10].
Proof. eexists. split; vm_compute; reflexivity. Qed.

Example scenario_L5_newline :
  exists w',
    main_iteration 0 input_L5_newline = Some (0, w') /\
    TIM2_CCR1 (regs w') = 5 /\
    wire (regs w') =
      msg_led_prompt ++ [53; 10] ++ [13; 10] ++
      bytes_of "LED brightness set to 5%" ++ [13; 10].
Proof. eexists. split; [|split]; vm_compute; reflexivity. Qed.

Example scenario_LX :
  exists w',
    main_iteration 0 input_LX = Some (0, w') /\
    TIM2_CCR1 (regs w') = 0 /\
    wire (regs w') = msg_led_prompt ++ [88] ++ msg_no_digits.
Proof. eexists. split; [|split]; vm_compute; reflexivity. Qed.

Example scenario_L_alone :
  exists w',
    main_iteration 0 input_L_alone = Some (0, w') /\
    TIM2_CCR1 (regs w') = 0 /\
    wire (regs w') = msg_led_prompt ++ msg_no_digits.
Proof. eexists. split; [|split]; vm_compute; reflexivity. Qed.

(** A T that arrives while the L command collects digits is taken as the
    byte that ends the collection: it is echoed and the flag stays 0. *)
Example scenario_LT :
  exists w',
    main_iteration 0 input_LT = Some (0, w') /\
    wire (regs w') = msg_led_prompt ++ [84] ++ msg_no_digits.
Proof. eexists. split; vm_compute; reflexivity. Qed.


(** * Further properties of the code *)

(** ** [uart.c] *)

Lemma spin_shrinks cond sched : forall h u w',
  spin cond h sched = Some (u, w') -> (length (pending w') < length sched)%nat.
Proof.
  induction sched as [|b rest IH]; intros h u w' Hrun; [discriminate|].
  simpl in Hrun. destruct (cond (arrive b h)).
  - apply IH in Hrun. simpl. lia.
  - injection Hrun as _ <-. simpl. lia.
Qed.

Lemma uart_send_string_reads str : forall w u w',
  uart_send_string str w = Some (u, w') ->
  (length (pending w') + length (c_string str) <= length (pending w))%nat.
Proof.
  induction str as [|c rest IH]; intros w u w' Hrun; cbn [uart_send_string c_string] in *.
  - injection Hrun as _ <-. simpl. lia.
  - destruct (c =? 0).
    + injection Hrun as _ <-. simpl. lia.
    + apply bind_Some in Hrun as (u1 & w1 & E1 & Hrun).
      apply bind_Some in Hrun as (u2 & w2 & E2 & Hrun).
      injection E1 as _ <-.
      unfold wait_txe, spin_while in E2. apply spin_shrinks in E2.
      apply IH in Hrun. cbn [pending] in E2. simpl. lia.
Qed.

(** X1: [uart_send_string] writes to USART_TDR exactly the bytes of the
    buffer that precede its first NUL, in order, and it reads the status
    register at least once per byte; it takes nothing from the receiver
    and leaves the duty cycle alone.  A buffer that is empty or starts
    with NUL sends nothing and reads nothing. *)
Theorem uart_send_string_sends (str : list Z) (w : world) :
  (forall w', uart_send_string str w = Some (tt, w') ->
     wire (regs w') = wire (regs w) ++ c_string str /\
     taken (regs w') = taken (regs w) /\
     TIM2_CCR1 (regs w') = TIM2_CCR1 (regs w) /\
     (length (pending w') + length (c_string str) <= length (pending w))%nat) /\
  (c_string str = [] -> uart_send_string str w = Some (tt, w)).
Proof.
  split.
  - intros w' Hrun.
    destruct (uart_send_string_spec _ _ _ _ Hrun) as (W & T & C).
    repeat split; try assumption. eapply uart_send_string_reads, Hrun.
  - intros Hnil. destruct str as [|c rest]; [reflexivity|].
    cbn [uart_send_string c_string] in *. destruct (c =? 0); [reflexivity|discriminate].
Qed.

(** "A", NUL, "B": only the A goes out. *)
Lemma uart_send_string_sends_witness :
  exists w',
    uart_send_string [65; 0; 66] (World h_reset (idle 3)) = Some (tt, w') /\
    wire (regs w') = [65] /\
    uart_send_string [0; 66] (World h_reset []) = Some (tt, World h_reset []).
Proof.
  destruct (uart_send_string [65; 0; 66] (World h_reset (idle 3)))
    as [[[] w']|] eqn:E; [|vm_compute in E; discriminate].
  exists w'. split; [reflexivity|].
  destruct (uart_send_string_sends [65; 0; 66] (World h_reset (idle 3))) as [Hs _].
  destruct (Hs w' E) as (W & _).
  split; [exact W|].
  apply (proj2 (uart_send_string_sends [0; 66] (World h_reset []))). reflexivity.
Defined.

Lemma no_rx_hw_step h e :
  (forall c, e <> EvRx c) ->
  Z.testbit (USART_ISR h) 5 = false -> Z.testbit (USART_ISR (hw_step h e)) 5 = false.
Proof.
  intros Hne Hb. destruct e as [|c| |v]; cbn [hw_step]; try assumption.
  - now destruct (Hne c).
  - unfold set_USART_ISR; cbn [USART_ISR]. rewrite Z.lor_spec, Hb. reflexivity.
Qed.

Lemma no_rx_arrive b : forall h,
  no_rx b ->
  Z.testbit (USART_ISR h) 5 = false -> Z.testbit (USART_ISR (arrive b h)) 5 = false.
Proof.
  unfold arrive. induction b as [|e b IH]; intros h Hno Hb; [assumption|].
  simpl. apply IH.
  - intros c Hin. apply (Hno c). now right.
  - apply no_rx_hw_step; [|assumption]. intros c ->. apply (Hno c). now left.
Qed.

Lemma uart_receive_char_empty h b rest :
  Z.testbit (USART_ISR (arrive b h)) 5 = false ->
  uart_receive_char (World h (b :: rest)) = Some (0, World (arrive b h) rest).
Proof.
  intros Hb. unfold uart_receive_char, bind, volatile_read. cbn [regs pending].
  rewrite land_bit, Hb by lia. reflexivity.
Qed.

Lemma uart_receive_char_data h b b2 rest :
  Z.testbit (USART_ISR (arrive b h)) 5 = true ->
  exists h',
    uart_receive_char (World h (b :: b2 :: rest))
      = Some (uint8 (USART_RDR (arrive b2 (arrive b h))), World h' rest) /\
    taken h' = taken h ++ [USART_RDR (arrive b2 (arrive b h))] /\
    Z.testbit (USART_ISR h') 5 = false.
Proof.
  intros Hb. unfold uart_receive_char, bind, volatile_read. cbn [regs pending].
  rewrite land_bit, Hb by lia. cbn [negb].
  unfold read_USART_RDR, bind, volatile_read, modify, ret. cbn [regs pending].
  eexists. split; [reflexivity|]. cbn [taken USART_ISR]. split.
  - destruct (same_io_arrive b h) as (_ & T1 & _).
    destruct (same_io_arrive b2 (arrive b h)) as (_ & T2 & _). congruence.
  - rewrite Z.ldiff_spec. apply andb_false_iff. right. reflexivity.
Qed.

Lemma uart_receive_char_clears w c w' :
  uart_receive_char w = Some (c, w') -> Z.testbit (USART_ISR (regs w')) 5 = false.
Proof.
  destruct w as [h [|b rest]]; [discriminate|]. intros Hrun.
  destruct (Z.testbit (USART_ISR (arrive b h)) 5) eqn:Hb.
  - destruct rest as [|b2 rest].
    + unfold uart_receive_char, bind, volatile_read in Hrun. cbn [regs pending] in Hrun.
      rewrite land_bit, Hb in Hrun by lia. discriminate.
    + destruct (uart_receive_char_data h b b2 rest Hb) as (h' & E & _ & Hc).
      rewrite E in Hrun. now injection Hrun as _ <-.
  - rewrite (uart_receive_char_empty h b rest Hb) in Hrun. now injection Hrun as _ <-.
Qed.

(** X2: [uart_receive_char] returns 0 in two different situations: when
    RXNE is clear at its status read (then USART_RDR is not read), and
    when RXNE is set and the received byte is NUL (then the byte is
    taken).  In every case RXNE is clear when it returns. *)
Theorem uart_receive_char_sentinel (h : hw) (b : batch) (rest : list batch) :
  (Z.testbit (USART_ISR (arrive b h)) 5 = false ->
   uart_receive_char (World h (b :: rest)) = Some (0, World (arrive b h) rest)) /\
  (Z.testbit (USART_ISR (arrive b h)) 5 = true ->
   forall b2 rest2, rest = b2 :: rest2 ->
     exists h',
       uart_receive_char (World h (b :: rest))
         = Some (uint8 (USART_RDR (arrive b2 (arrive b h))), World h' rest2) /\
       taken h' = taken h ++ [USART_RDR (arrive b2 (arrive b h))]) /\
  (forall c w', uart_receive_char (World h (b :: rest)) = Some (c, w') ->
     Z.testbit (USART_ISR (regs w')) 5 = false).
Proof.
  split; [apply uart_receive_char_empty|]. split.
  - intros Hb b2 rest2 ->.
    destruct (uart_receive_char_data h b b2 rest2 Hb) as (h' & E & T & _). eauto.
  - intros c w'. apply uart_receive_char_clears.
Qed.

Lemma uart_receive_char_sentinel_witness :
  uart_receive_char (World h_reset [[]; []]) = Some (0, World h_reset [[]]) /\
  exists h',
    uart_receive_char (World h_reset [[EvRx 0]; []]) = Some (0, World h' []) /\
    taken h' = [0].
Proof.
  split.
  - apply (proj1 (uart_receive_char_sentinel h_reset [] [[]])). reflexivity.
  - destruct (proj1 (proj2 (uart_receive_char_sentinel h_reset [EvRx 0] [[]]))
                eq_refl [] [] eq_refl) as (h' & E & T).
    exists h'. split; [exact E|exact T].
Defined.

(** X3: a byte is delivered once.  When [uart_data_available] has
    answered 1, the next [uart_receive_char] reads USART_RDR; after it,
    [uart_data_available] answers 0 until another byte arrives. *)
Theorem uart_byte_delivered_once (w w1 w2 : world) (avail c : Z) :
  uart_data_available w = Some (avail, w1) -> avail <> 0 ->
  uart_receive_char w1 = Some (c, w2) ->
  (exists rdr, c = uint8 rdr /\ taken (regs w2) = taken (regs w1) ++ [rdr]) /\
  (forall b rest, pending w2 = b :: rest -> no_rx b ->
     uart_data_available w2 = Some (0, World (arrive b (regs w2)) rest)).
Proof.
  intros Hav Hne Hrecv.
  destruct (uart_data_available_spec _ _ _ Hav) as (_ & [->|[_ Hbit]]); [contradiction|].
  split.
  - destruct (uart_receive_char_spec _ _ _ Hrecv Hbit) as (rdr & Hc & T & _).
    eauto.
  - intros b rest Hp Hno.
    assert (Hclear : Z.testbit (USART_ISR (regs w2)) 5 = false).
    { eapply uart_receive_char_clears, Hrecv. }
    destruct w2 as [h2 s2]. cbn [pending regs] in *. subst s2.
    unfold uart_data_available, bind, volatile_read, ret. cbn [regs pending].
    rewrite land_bit, (no_rx_arrive b h2 Hno Hclear) by lia. reflexivity.
Qed.

Lemma uart_byte_delivered_once_witness :
  exists w1 w2,
    uart_data_available (World h_reset [[EvRx 65]; []; []; [EvTick]; []]) = Some (1, w1) /\
    uart_receive_char w1 = Some (65, w2) /\
    uart_data_available w2 = Some (0, World (arrive [EvTick] (regs w2)) [[]]).
Proof.
  destruct (uart_data_available (World h_reset [[EvRx 65]; []; []; [EvTick]; []]))
    as [[avail w1]|] eqn:E1; [|vm_compute in E1; discriminate].
  pose proof E1 as E1'. vm_compute in E1'. injection E1' as <- <-.
  destruct (uart_receive_char (World (arrive [EvRx 65] h_reset) [[]; []; [EvTick]; []]))
    as [[c w2]|] eqn:E2; [|vm_compute in E2; discriminate].
  pose proof E2 as E2'. vm_compute in E2'. injection E2' as <- <-.
  eexists _, _. split; [exact E1|]. split; [exact E2|].
  apply (proj2 (uart_byte_delivered_once _ _ _ _ _ E1 ltac:(discriminate) E2)
           [EvTick] [[]] eq_refl).
  intros c [H|[]]. discriminate.
Defined.

(** ** [adc.c] *)

Lemma get_temperature_at_least_30_aux adc_value cal30 :
  30 <= temperature_of adc_value cal30 <= 804941.
Proof.
  unfold temperature_of, AVG_SLOPE.
  set (micro := uint32 (_ * 1000)).
  assert (Hm : 0 <= micro < 2 ^ 32) by apply uint32_range.
  assert (Hq : 0 <= micro / 5336 <= 804911).
  { split; [apply Z.div_pos; lia|]. apply Z.div_le_upper_bound; lia. }
  rewrite uint32_small, int32_small; lia.
Qed.

(** X4: whatever the sample and the calibration value, the value
    returned by [get_temperature] lies between 30 and 804941: the
    unsigned arithmetic never yields a temperature below 30. *)
Theorem get_temperature_at_least_30 (adc_value cal30 : Z) :
  30 <= temperature_of adc_value cal30 <= 804941.
Proof. apply get_temperature_at_least_30_aux. Qed.

(** X5: for 12-bit samples at or above the calibration value the code
    computes the documented formula in signed arithmetic, and the result
    is between 30 and 797. *)
Theorem get_temperature_above_calibration (raw cal30 : Z) :
  0 <= cal30 <= raw -> raw <= 4095 ->
  temperature_of raw cal30 = temperature_formula raw cal30 /\
  temperature_of raw cal30 = (raw - cal30) * 1000 / 5336 + 30 /\
  30 <= temperature_of raw cal30 <= 797.
Proof.
  intros Hc Hr.
  assert (E : temperature_of raw cal30 = (raw - cal30) * 1000 / 5336 + 30).
  { rewrite temperature_of_above_cal30 by assumption.
    unfold temperature_formula, VDD_APPLI, VDD_CALIB, AVG_SLOPE.
    rewrite Z.quot_mul by lia. rewrite Z.quot_div_nonneg by lia. reflexivity. }
  split; [now apply temperature_of_above_cal30|]. split; [exact E|].
  rewrite E.
  assert (0 <= (raw - cal30) * 1000 / 5336 < 768); [|lia].
  split; [apply Z.div_pos; lia|]. apply Z.div_lt_upper_bound; lia.
Qed.

Lemma get_temperature_above_calibration_witness :
  temperature_of 1800 1750 = 39.
Proof.
  rewrite (proj1 (proj2 (get_temperature_above_calibration 1800 1750
                           ltac:(lia) ltac:(lia)))).
  reflexivity.
Defined.

(** X6: for 12-bit samples below the calibration value the subtraction
    wraps and the returned value exceeds 800000. *)
Theorem get_temperature_below_calibration_wraps (raw cal30 : Z) :
  0 <= raw < cal30 -> cal30 <= 4095 ->
  temperature_of raw cal30 = (2 ^ 32 - (cal30 - raw) * 1000) / 5336 + 30 /\
  800000 < temperature_of raw cal30.
Proof.
  intros Hr Hc. split; [|now apply temperature_of_below_cal30].
  unfold temperature_of, VDD_APPLI, VDD_CALIB, AVG_SLOPE.
  rewrite (int32_small raw), (int32_small cal30) by lia.
  rewrite (uint32_small raw), (uint32_small cal30) by lia.
  rewrite (uint32_small (raw * 3300)) by lia.
  rewrite Z.div_mul by lia.
  assert (Hd : uint32 (raw - cal30) = 2 ^ 32 - (cal30 - raw)).
  { unfold uint32. symmetry. apply (Z.mod_unique _ _ (-1)); lia. }
  rewrite Hd.
  assert (Hm : uint32 ((2 ^ 32 - (cal30 - raw)) * 1000) = 2 ^ 32 - (cal30 - raw) * 1000).
  { unfold uint32. symmetry. apply (Z.mod_unique _ _ 999); lia. }
  rewrite Hm.
  assert (800000 <= (2 ^ 32 - (cal30 - raw) * 1000) / 5336 <= 900000).
  { split; [apply Z.div_le_lower_bound; lia|]. apply Z.div_le_upper_bound; lia. }
  rewrite uint32_small, int32_small; lia.
Qed.

Lemma get_temperature_below_calibration_wraps_witness :
  temperature_of 1749 1750 = 804933.
Proof.
  rewrite (proj1 (get_temperature_below_calibration_wraps 1749 1750
                    ltac:(lia) ltac:(lia))).
  reflexivity.
Defined.

(** ** Formatted text *)

Lemma string_of_uint_no_nul d :
  Forall (fun c => c <> 0) (bytes_of (NilEmpty.string_of_uint d)).
Proof.
  induction d; simpl; constructor; try assumption; discriminate.
Qed.

Lemma decimal_no_nul z : Forall (fun c => c <> 0) (decimal z).
Proof.
  unfold decimal, NilZero.string_of_int, NilZero.string_of_uint.
  destruct (Z.to_int z) as [d|d].
  - destruct d; try apply string_of_uint_no_nul.
    simpl. constructor; [discriminate|constructor].
  - change (bytes_of (String "-" ?s)) with (45 :: bytes_of s).
    constructor; [discriminate|].
    destruct d; try apply string_of_uint_no_nul.
    simpl. constructor; [discriminate|constructor].
Qed.

Lemma c_string_no_nul l : Forall (fun c => c <> 0) l -> c_string l = l.
Proof.
  induction 1 as [|c l Hc _ IH]; [reflexivity|].
  simpl. destruct (Z.eqb_spec c 0); [contradiction|]. now rewrite IH.
Qed.

Lemma c_string_msg_temperature t : c_string (msg_temperature t) = msg_temperature t.
Proof.
  apply c_string_no_nul. unfold msg_temperature.
  repeat (apply Forall_app; split); try apply decimal_no_nul;
    apply List.Forall_forall; intros c Hc; vm_compute in Hc;
    repeat (destruct Hc as [<-|Hc]; [discriminate|]); destruct Hc.
Qed.

(** ** [main.c]: the command loop *)

Lemma delay_ms_elapsed ms w u w' :
  delay_ms ms w = Some (u, w') ->
  exists consumed,
    pending w = consumed ++ pending w' /\ ms <= Z.of_nat (ticks consumed).
Proof.
  destruct w as [h [|b0 sched]]; [discriminate|]. destruct u.
  unfold delay_ms, bind, volatile_read, spin_while; cbn [regs pending].
  intros Hrun.
  destruct (spin_delay_sound _ _ _ _ _ Hrun) as (c & Hp & Ht & Hle).
  exists (b0 :: c). split; [simpl; now rewrite Hp|].
  cbn [regs] in Ht. rewrite Ht, after_ticks_elapsed in Hle.
  pose proof (uint32_le_nat (ticks c)). simpl. lia.
Qed.

(** X7: a temperature report sends exactly one line
    "Temp: <t> degC\r\n", where t is the conversion of the sample read
    at that moment, and then keeps the loop busy for at least 1000
    ticks; it takes no byte from the receiver and leaves the duty cycle
    alone. *)
Theorem report_temperature_line (h : hw) (b : batch) (rest : list batch) (w' : world) :
  report_temperature (World h (b :: rest)) = Some (tt, w') ->
  let t := temperature_of (ADC_DR (arrive b h)) (TEMP30_CAL (arrive b h)) in
  wire (regs w') = wire h ++ bytes_of "Temp: " ++ decimal t ++ bytes_of " degC" ++ [13; 10] /\
  taken (regs w') = taken h /\
  TIM2_CCR1 (regs w') = TIM2_CCR1 h /\
  exists consumed,
    b :: rest = consumed ++ pending w' /\ 1000 <= Z.of_nat (ticks consumed).
Proof.
  intros Hrun t. unfold report_temperature in Hrun.
  apply bind_Some in Hrun as (t' & w1 & E1 & Hrun).
  unfold get_temperature, volatile_read in E1. cbn [regs pending] in E1.
  injection E1 as <- <-. fold t in Hrun.
  apply bind_Some in Hrun as (u2 & w2 & E2 & Hrun).
  destruct (uart_send_string_spec _ _ _ _ E2) as (W2 & T2 & C2).
  rewrite c_string_msg_temperature in W2. cbn [regs] in W2, T2, C2.
  destruct (same_io_arrive b h) as (W1 & T1 & C1).
  destruct (quiet_delay_ms _ _ _ _ Hrun) as (W3 & T3 & C3).
  destruct (delay_ms_elapsed _ _ _ _ Hrun) as (c3 & Hp3 & Hticks).
  destruct (tracks_uart_send_string _ _ _ _ E2) as (c2 & Hp2 & _).
  cbn [pending] in Hp2.
  repeat split; try congruence.
  - rewrite W3, W2, W1. reflexivity.
  - exists (b :: c2 ++ c3). split.
    + simpl. rewrite Hp2, Hp3, app_assoc. reflexivity.
    + simpl. rewrite ticks_app. lia.
Qed.

Lemma report_temperature_line_witness :
  exists w',
    report_temperature (World h_reset (idle 1100)) = Some (tt, w') /\
    wire (regs w') = bytes_of "Temp: 39 degC" ++ [13; 10].
Proof.
  destruct (report_temperature (World h_reset (idle 1100))) as [[[] w']|] eqn:E;
    [|vm_compute in E; discriminate].
  exists w'. split; [reflexivity|].
  change (idle 1100) with ([EvTxe; EvTick] :: idle 1099) in E.
  destruct (report_temperature_line _ _ _ _ E) as (W & _).
  rewrite W. reflexivity.
Defined.

(** X8: the digit loop of the L command takes at most two bytes from
    the receiver, stores only digit characters, only in the first two
    places of its three-byte buffer, and the buffer stays a
    NUL-terminated string of the digits collected. *)
Theorem l_collect_buffer (w : world) (idx : Z) (str : list Z) (w1 : world) :
  l_collect w = Some ((idx, str), w1) ->
  0 <= idx <= 2 /\
  exists read digits,
    taken (regs w1) = taken (regs w) ++ read /\ (length read <= 2)%nat /\
    Forall (fun c => is_digit c = true) digits /\
    idx = Z.of_nat (length digits) /\
    length str = 3%nat /\
    c_string str = digits /\
    take (length digits) (map uint8 read) = digits.
Proof.
  intros Hrun. unfold l_collect in Hrun.
  apply bind_Some in Hrun as (u & wp & Ep & Hrun).
  apply bind_Some in Hrun as (start & w0 & E0 & Hrun).
  destruct (uart_send_string_spec _ _ _ _ Ep) as (_ & Tp & _).
  destruct (quiet_volatile_read _ _ _ _ E0) as (_ & T0 & _).
  destruct (collect_digits_spec _ _ _ _ _ _ _ _ (Z.le_refl 0) Hrun)
    as (read & digits & tail & Ht & _ & _ & Hm & Hd & Hi & Hs & Hex).
  assert (Hlen : (length digits + length tail <= 2)%nat).
  { destruct Hex as [(-> & ?)|[(-> & ? & _)|(c & -> & _ & ?)]]; simpl; lia. }
  split; [lia|].
  exists read, digits. split; [congruence|].
  split. { rewrite <- (length_map uint8), Hm, length_app. exact Hlen. }
  split; [assumption|]. split; [lia|].
  assert (Hdig : forall c, In c digits -> c <> 0).
  { intros c Hin ->. rewrite List.Forall_forall in Hd. specialize (Hd _ Hin).
    discriminate. }
  split; [|split].
  - subst str. destruct digits as [|d1 [|d2 [|d3 ds]]]; simpl in *; try reflexivity; lia.
  - subst str. destruct digits as [|d1 [|d2 [|d3 ds]]]; simpl in Hlen; try lia.
    + reflexivity.
    + simpl. destruct (Z.eqb_spec d1 0) as [E|_]; [|reflexivity].
      exfalso. apply (Hdig d1); [now left|exact E].
    + simpl. destruct (Z.eqb_spec d1 0) as [E|_];
        [exfalso; apply (Hdig d1); [now left|exact E]|].
      destruct (Z.eqb_spec d2 0) as [E|_]; [|reflexivity].
      exfalso. apply (Hdig d2); [right; now left|exact E].
  - rewrite Hm. rewrite take_app_length. reflexivity.
Qed.

Lemma l_collect_buffer_witness :
  exists w1, l_collect entry_L99 = Some ((2, [57; 57; 0]), w1) /\
             taken (regs w1) = [57; 57].
Proof.
  destruct (l_collect entry_L99) as [[[idx str] w1]|] eqn:E;
    [|vm_compute in E; discriminate].
  pose proof E as E'. vm_compute in E'. injection E' as <- <- <-.
  eexists. split; [reflexivity|].
  destruct (l_collect_buffer _ _ _ _ E) as (_ & read & digits & T & _).
  reflexivity.
Defined.

(** ** Relations kept by the whole command loop *)

Lemma parse_brightness_range idx str : 0 <= parse_brightness idx str < 256.
Proof. apply parse_from_range. lia. Qed.

Section Invariant.
Variable R : hw -> hw -> Prop.
Hypothesis R_trans : forall h1 h2 h3, R h1 h2 -> R h2 h3 -> R h1 h3.
Hypothesis R_io : forall h h',
  TIM2_CCR1 h' = TIM2_CCR1 h -> wire_grows h h' -> R h h'.
Hypothesis R_duty : forall h b, 0 <= b -> R h (set_led_brightness b h).

Lemma R_refl' h : R h h.
Proof. apply R_io; [reflexivity|]. exists []. now rewrite app_nil_r. Qed.

Lemma R_step' h e : R h (hw_step h e).
Proof.
  destruct (same_io_hw_step h e) as (W & _ & C).
  apply R_io; [exact C|]. exists []. now rewrite app_nil_r.
Qed.

Ltac inv_step :=
  match goal with
  | |- preserves R (bind _ _) => apply (preserves_bind R R_trans); [|intros ?]
  | |- preserves R (ret _) => apply (preserves_ret R R_refl')
  | |- preserves R (volatile_read _) =>
      apply (preserves_volatile_read R R_refl' R_trans R_step')
  | |- preserves R (spin_while _) => apply (preserves_spin_while R R_refl' R_trans R_step')
  | |- preserves R wait_txe => apply (preserves_wait_txe R R_refl' R_trans R_step')
  | |- preserves R (delay_ms _) => apply (preserves_delay_ms R R_refl' R_trans R_step')
  | |- preserves R uart_data_available =>
      apply (preserves_uart_data_available R R_refl' R_trans R_step')
  | |- preserves R get_temperature =>
      apply (preserves_volatile_read R R_refl' R_trans R_step')
  | |- preserves R (if ?c then _ else _) => destruct c
  | |- preserves R (let x := _ in _) => cbv zeta
  end.

Lemma inv_write_USART_TDR c : preserves R (write_USART_TDR c).
Proof.
  apply (preserves_modify R). intros h. apply R_io; [reflexivity|].
  exists [c]. reflexivity.
Qed.

Lemma inv_uart_receive_char : preserves R uart_receive_char.
Proof.
  unfold uart_receive_char, read_USART_RDR. repeat inv_step.
  apply (preserves_modify R). intros h. apply R_io; [reflexivity|].
  exists []. cbn [wire]. now rewrite app_nil_r.
Qed.

Lemma inv_uart_send_string str : preserves R (uart_send_string str).
Proof.
  induction str as [|c rest IH]; cbn [uart_send_string]; repeat inv_step;
    try apply inv_write_USART_TDR; exact IH.
Qed.

Lemma inv_collect_digits fuel : forall start idx str,
  preserves R (collect_digits fuel start idx str).
Proof.
  induction fuel as [|fuel IH]; intros start idx str; [intros w a w' [=]|].
  cbn [collect_digits]. repeat inv_step;
    try apply inv_write_USART_TDR; try apply inv_uart_receive_char; apply IH.
Qed.

Lemma inv_l_command : preserves R l_command.
Proof.
  unfold l_command, l_collect, l_finish. repeat inv_step;
    try apply inv_uart_send_string.
  - intros w r w' Hrun. eapply inv_collect_digits, Hrun.
  - apply (preserves_modify R). intros h. apply R_duty.
    apply parse_brightness_range.
Qed.

Lemma inv_dispatch c a : preserves R (dispatch c a).
Proof.
  unfold dispatch, t_command. repeat inv_step;
    try apply inv_uart_send_string; apply inv_l_command.
Qed.

Lemma inv_report_temperature : preserves R report_temperature.
Proof. unfold report_temperature. repeat inv_step. apply inv_uart_send_string. Qed.

Lemma inv_main_iteration a : preserves R (main_iteration a).
Proof.
  unfold main_iteration. repeat inv_step;
    try apply inv_uart_receive_char; try apply inv_dispatch;
    apply inv_report_temperature.
Qed.

Lemma inv_main_loop n : forall a, preserves R (main_loop n a).
Proof.
  induction n as [|n IH]; intros a; cbn [main_loop]; repeat inv_step;
    [apply inv_main_iteration|apply IH].
Qed.

Lemma inv_main_from_banner n : preserves R (main_from_banner n).
Proof.
  unfold main_from_banner. repeat inv_step;
    try apply inv_uart_send_string. apply inv_main_loop.
Qed.

Lemma inv_drain_receiver fuel : preserves R (drain_receiver fuel).
Proof.
  induction fuel as [|fuel IH]; [intros w a w' [=]|].
  cbn [drain_receiver]. repeat inv_step; [apply inv_uart_receive_char|exact IH].
Qed.

Lemma inv_main_from_drain n : preserves R (main_from_drain n).
Proof.
  unfold main_from_drain. repeat inv_step; try apply inv_main_from_banner.
  intros w r w' Hrun. eapply inv_drain_receiver, Hrun.
Qed.
End Invariant.

Lemma duty_rel_trans h1 h2 h3 : duty_rel h1 h2 -> duty_rel h2 h3 -> duty_rel h1 h3.
Proof. unfold duty_rel. intros [?|?] [?|?]; (left; congruence) || (right; lia). Qed.

Lemma duty_rel_io h h' :
  TIM2_CCR1 h' = TIM2_CCR1 h -> wire_grows h h' -> duty_rel h h'.
Proof. intros H _. now left. Qed.

Lemma duty_rel_duty h b : 0 <= b -> duty_rel h (set_led_brightness b h).
Proof.
  intros Hb. right. unfold set_led_brightness, set_TIM2_CCR1; cbn [TIM2_CCR1].
  destruct (Z.gtb_spec b 99); lia.
Qed.

Lemma wire_grows_trans h1 h2 h3 : wire_grows h1 h2 -> wire_grows h2 h3 -> wire_grows h1 h3.
Proof.
  intros [o1 H1] [o2 H2]. exists (o1 ++ o2). rewrite H2, H1. symmetry. apply app_assoc.
Qed.

Lemma wire_grows_io h h' :
  TIM2_CCR1 h' = TIM2_CCR1 h -> wire_grows h h' -> wire_grows h h'.
Proof. auto. Qed.

Lemma wire_grows_duty h b : 0 <= b -> wire_grows h (set_led_brightness b h).
Proof. intros _. exists []. cbn. now rewrite app_nil_r. Qed.

(** X9: once the duty cycle is in 0..99 (as after [pwm_led_init]) it
    stays there over any run of the command loop, whatever arrives on
    the serial line; and a command other than L or l, like the
    temperature report, does not change it at all. *)
Theorem duty_cycle_stays_in_range :
  (forall n a w a' w',
     0 <= TIM2_CCR1 (regs w) <= 99 -> main_loop n a w = Some (a', w') ->
     0 <= TIM2_CCR1 (regs w') <= 99) /\
  (forall n w a' w',
     0 <= TIM2_CCR1 (regs w) <= 99 -> main_from_drain n w = Some (a', w') ->
     0 <= TIM2_CCR1 (regs w') <= 99) /\
  (forall c a w a' w',
     c <> 76 -> c <> 108 -> dispatch c a w = Some (a', w') ->
     TIM2_CCR1 (regs w') = TIM2_CCR1 (regs w)) /\
  (forall w u w',
     report_temperature w = Some (u, w') -> TIM2_CCR1 (regs w') = TIM2_CCR1 (regs w)).
Proof.
  split; [|split; [|split]].
  - intros n a w a' w' Hr Hrun.
    destruct (inv_main_loop duty_rel duty_rel_trans duty_rel_io duty_rel_duty
                n a _ _ _ Hrun) as [E|E]; [rewrite E|]; exact Hr || exact E.
  - intros n w a' w' Hr Hrun.
    destruct (inv_main_from_drain duty_rel duty_rel_trans duty_rel_io duty_rel_duty
                n _ _ _ Hrun) as [E|E]; [rewrite E|]; exact Hr || exact E.
  - intros c a w a' w' H1 H2 Hrun. unfold dispatch in Hrun.
    destruct ((c =? 84) || (c =? 116)).
    + now apply t_command_spec in Hrun as (_ & _ & C).
    + destruct (Z.eqb_spec c 76); [contradiction|].
      destruct (Z.eqb_spec c 108); [contradiction|].
      cbn [orb] in Hrun. now injection Hrun as _ <-.
  - intros w u w' Hrun. unfold report_temperature in Hrun.
    apply bind_Some in Hrun as (t & w1 & E1 & Hrun).
    apply bind_Some in Hrun as (u2 & w2 & E2 & Hrun).
    destruct (quiet_volatile_read _ _ _ _ E1) as (_ & _ & C1).
    destruct (uart_send_string_spec _ _ _ _ E2) as (_ & _ & C2).
    destruct (quiet_delay_ms _ _ _ _ Hrun) as (_ & _ & C3). congruence.
Qed.

(** "L99" raises the duty cycle from 0 to 99, inside the range. *)
Lemma duty_cycle_stays_in_range_witness :
  exists w', main_loop 1 0 input_L99 = Some (0, w') /\ 0 <= TIM2_CCR1 (regs w') <= 99.
Proof.
  destruct (main_loop 1 0 input_L99) as [[a w']|] eqn:E; [|vm_compute in E; discriminate].
  pose proof E as E'. vm_compute in E'. injection E' as <- <-.
  eexists. split; [reflexivity|].
  eapply (proj1 duty_cycle_stays_in_range 1%nat 0 input_L99); [|exact E].
  vm_compute. split; discriminate.
Defined.

Lemma uart_data_available_bit w a w' :
  uart_data_available w = Some (a, w') ->
  a = (if Z.testbit (USART_ISR (regs w')) 5 then 1 else 0).
Proof.
  destruct w as [h [|b rest]]; [discriminate|].
  unfold uart_data_available, bind, volatile_read, ret. cbn [regs pending].
  intros [= <- <-]. cbn [regs]. rewrite land_bit by lia.
  now destruct (Z.testbit (USART_ISR (arrive b h)) 5).
Qed.

Lemma uart_data_available_run h b rest :
  uart_data_available (World h (b :: rest))
  = Some ((if Z.testbit (USART_ISR (arrive b h)) 5 then 1 else 0), World (arrive b h) rest).
Proof.
  unfold uart_data_available, bind, volatile_read, ret. cbn [regs pending].
  rewrite land_bit by lia.
  now destruct (Z.testbit (USART_ISR (arrive b h)) 5).
Qed.

Lemma is_command_false c :
  is_command c = false ->
  (c =? 84) || (c =? 116) = false /\ (c =? 76) || (c =? 108) = false.
Proof.
  unfold is_command. destruct (c =? 84), (c =? 116), (c =? 76), (c =? 108);
    simpl; intros; try discriminate; auto.
Qed.

(** X10: a pass of the loop with reporting off does nothing when no
    byte is waiting (one status read, no output); and a byte that is
    none of T, t, L, l is taken from the receiver and ignored: nothing
    is sent, flag and duty cycle are unchanged. *)
Theorem main_iteration_ignores :
  (forall h b rest,
     Z.testbit (USART_ISR (arrive b h)) 5 = false ->
     main_iteration 0 (World h (b :: rest)) = Some (0, World (arrive b h) rest)) /\
  (forall w avail w1 c w2,
     uart_data_available w = Some (avail, w1) -> avail <> 0 ->
     uart_receive_char w1 = Some (c, w2) -> is_command c = false ->
     main_iteration 0 w = Some (0, w2) /\
     wire (regs w2) = wire (regs w) /\
     TIM2_CCR1 (regs w2) = TIM2_CCR1 (regs w) /\
     exists rdr, c = uint8 rdr /\ taken (regs w2) = taken (regs w) ++ [rdr]).
Proof.
  assert (H00 : (0 =? 0) = true) by reflexivity.
  split.
  - intros h b rest Hb.
    unfold main_iteration, bind. rewrite uart_data_available_run, Hb.
    unfold ret. rewrite !H00. reflexivity.
  - intros w avail w1 c w2 Hav Hne Hrecv Hcmd.
    destruct (is_command_false _ Hcmd) as [HT HL].
    split.
    + unfold main_iteration, bind. rewrite Hav.
      destruct (Z.eqb_spec avail 0); [contradiction|].
      rewrite Hrecv. unfold dispatch. rewrite HT, HL.
      unfold ret. rewrite H00. reflexivity.
    + destruct (uart_data_available_spec _ _ _ Hav) as ((W1 & T1 & C1) & [->|[_ Hbit]]);
        [contradiction|].
      destruct (uart_receive_char_spec _ _ _ Hrecv Hbit) as (rdr & Hc & T2 & W2 & C2).
      repeat split; try congruence.
      exists rdr. split; [exact Hc|]. congruence.
Qed.

(** An X arrives while the loop is idle. *)
Lemma main_iteration_ignores_witness :
  exists w2,
    main_iteration 0 (World h_reset ([EvRx 88] :: idle 3)) = Some (0, w2) /\
    wire (regs w2) = [] /\ taken (regs w2) = [88].
Proof.
  destruct (uart_data_available (World h_reset ([EvRx 88] :: idle 3)))
    as [[avail w1]|] eqn:E1; [|vm_compute in E1; discriminate].
  pose proof E1 as E1'. vm_compute in E1'. injection E1' as <- <-.
  destruct (uart_receive_char (World (arrive [EvRx 88] h_reset) (idle 3)))
    as [[c w2]|] eqn:E2; [|vm_compute in E2; discriminate].
  pose proof E2 as E2'. vm_compute in E2'. injection E2' as <- <-.
  destruct (proj2 main_iteration_ignores _ _ _ _ _ E1 ltac:(discriminate) E2 eq_refl)
    as (Hrun & W & _).
  eexists. split; [exact Hrun|]. split; reflexivity.
Defined.

Lemma tracks_dispatch c a : tracks (dispatch c a).
Proof. unfold dispatch, t_command. repeat tracks_step. Qed.

Lemma report_temperature_spec w u w' :
  report_temperature w = Some (u, w') ->
  exists t consumed,
    30 <= t <= 804941 /\
    wire (regs w') = wire (regs w) ++ msg_temperature t /\
    pending w = consumed ++ pending w' /\ 1000 <= Z.of_nat (ticks consumed).
Proof.
  intros Hrun. unfold report_temperature in Hrun.
  apply bind_Some in Hrun as (t & w1 & E1 & Hrun).
  apply bind_Some in Hrun as (u2 & w2 & E2 & Hrun).
  destruct (quiet_volatile_read _ _ _ _ E1) as (W1 & _).
  destruct (tracks_get_temperature _ _ _ E1) as (c1 & Hp1 & _).
  destruct (uart_send_string_spec _ _ _ _ E2) as (W2 & _).
  rewrite c_string_msg_temperature in W2.
  destruct (tracks_uart_send_string _ _ _ _ E2) as (c2 & Hp2 & _).
  destruct (quiet_delay_ms _ _ _ _ Hrun) as (W3 & _).
  destruct (delay_ms_elapsed _ _ _ _ Hrun) as (c3 & Hp3 & Hticks).
  exists t, (c1 ++ c2 ++ c3). split.
  - destruct w as [h [|b rest]]; [discriminate|].
    unfold get_temperature, volatile_read in E1. cbn [regs pending] in E1.
    injection E1 as <- _. apply get_temperature_at_least_30_aux.
  - split; [rewrite W3, W2, W1; reflexivity|]. split.
    + rewrite Hp1, Hp2, Hp3, <- !app_assoc. reflexivity.
    + rewrite !ticks_app. lia.
Qed.

(** X11: while reporting is on, every pass of the loop ends with a
    temperature line and lasts at least 1000 ticks, so a command byte
    is looked at once per second at most. *)
Theorem main_iteration_reporting_period (a : Z) (w : world) (a' : Z) (w' : world) :
  main_iteration a w = Some (a', w') -> a' <> 0 ->
  exists consumed out t,
    pending w = consumed ++ pending w' /\ 1000 <= Z.of_nat (ticks consumed) /\
    30 <= t <= 804941 /\
    wire (regs w') = wire (regs w) ++ out ++
                     bytes_of "Temp: " ++ decimal t ++ bytes_of " degC" ++ [13; 10].
Proof.
  intros Hrun Hon. unfold main_iteration in Hrun.
  apply bind_Some in Hrun as (avail & w1 & E1 & Hrun).
  apply bind_Some in Hrun as (a1 & w2 & E2 & Hrun).
  apply bind_Some in Hrun as (u & w3 & E3 & Hrun).
  injection Hrun as -> ->.
  destruct (Z.eqb_spec a' 0); [contradiction|].
  destruct (tracks_uart_data_available _ _ _ E1) as (c1 & Hp1 & _).
  pose proof (preserves_uart_data_available wire_grows
                (R_refl' _ wire_grows_io) wire_grows_trans
                (R_step' _ wire_grows_io) _ _ _ E1) as [o1 W1].
  assert (H2 : (exists c2, pending w1 = c2 ++ pending w2) /\ wire_grows (regs w1) (regs w2)).
  { destruct (avail =? 0).
    - injection E2 as _ <-. split; [now exists []|]. exists []. now rewrite app_nil_r.
    - apply bind_Some in E2 as (c & w4 & E4 & E2).
      destruct (tracks_uart_receive_char _ _ _ E4) as (c4 & Hp4 & _).
      destruct (tracks_dispatch _ _ _ _ _ E2) as (c5 & Hp5 & _).
      split; [exists (c4 ++ c5); rewrite Hp4, Hp5; apply app_assoc|].
      eapply wire_grows_trans.
      + eapply (inv_uart_receive_char _ wire_grows_trans wire_grows_io), E4.
      + eapply (inv_dispatch _ wire_grows_trans wire_grows_io wire_grows_duty), E2. }
  destruct H2 as [[c2 Hp2] [o2 W2]].
  destruct (report_temperature_spec _ _ _ E3) as (t & c3 & Ht & W3 & Hp3 & Hticks).
  exists (c1 ++ c2 ++ c3), (o1 ++ o2), t. split.
  - rewrite Hp1, Hp2, Hp3, <- !app_assoc. reflexivity.
  - split; [rewrite !ticks_app; lia|]. split; [exact Ht|].
    rewrite W3, W2, W1, <- !app_assoc. reflexivity.
Qed.

Lemma main_iteration_reporting_period_witness :
  exists w',
    main_iteration 1 (World h_reset (idle 1100)) = Some (1, w') /\
    1000 <= msTicks (regs w').
Proof.
  destruct (main_iteration 1 (World h_reset (idle 1100))) as [[a' w']|] eqn:E;
    [|vm_compute in E; discriminate].
  pose proof E as E'. vm_compute in E'. injection E' as <- <-.
  destruct (main_iteration_reporting_period _ _ _ _ E ltac:(discriminate))
    as (consumed & _).
  eexists. split; [reflexivity|]. vm_compute. discriminate.
Defined.

(** ** [main.c]: start-up *)

Lemma drain_receiver_spec fuel : forall w u w',
  drain_receiver fuel w = Some (u, w') ->
  wire (regs w') = wire (regs w) /\
  TIM2_CCR1 (regs w') = TIM2_CCR1 (regs w) /\
  Z.testbit (USART_ISR (regs w')) 5 = false /\
  exists discarded, taken (regs w') = taken (regs w) ++ discarded.
Proof.
  induction fuel as [|fuel IH]; intros w u w' Hrun; [discriminate|].
  cbn [drain_receiver] in Hrun.
  apply bind_Some in Hrun as (avail & w1 & E1 & Hrun).
  destruct (uart_data_available_spec _ _ _ E1) as ((W1 & T1 & C1) & Hav).
  pose proof (uart_data_available_bit _ _ _ E1) as Hbit.
  destruct (Z.testbit (USART_ISR (regs w1)) 5) eqn:Hb; subst avail.
  - change (1 =? 0) with false in Hrun.
    apply bind_Some in Hrun as (c & w2 & E2 & Hrun).
    destruct (uart_receive_char_spec _ _ _ E2 Hb) as (rdr & _ & T2 & W2 & C2).
    destruct (IH _ _ _ Hrun) as (W3 & C3 & B3 & d & T3).
    repeat split; try congruence.
    exists (rdr :: d). rewrite T3, T2, T1, <- app_assoc. reflexivity.
  - change (0 =? 0) with true in Hrun. injection Hrun as _ <-.
    repeat split; try assumption. exists []. rewrite app_nil_r. exact T1.
Qed.

Lemma drain_receiver_total h sched :
  Forall no_rx sched -> (4 <= length sched)%nat ->
  exists h' discarded k,
    (k <= 4)%nat /\
    drain_receiver (S (length sched)) (World h sched) = Some (tt, World h' (drop k sched)) /\
    taken h' = taken h ++ discarded /\ (length discarded <= 1)%nat.
Proof.
  intros Hno Hlen.
  destruct sched as [|b1 [|b2 [|b3 [|b4 rest]]]]; simpl in Hlen; try lia.
  inversion Hno as [|? ? N1 Hno1]; subst. inversion Hno1 as [|? ? N2 Hno2]; subst.
  inversion Hno2 as [|? ? N3 Hno3]; subst. inversion Hno3 as [|? ? N4 _]; subst.
  assert (H10 : (1 =? 0) = false) by reflexivity.
  assert (H00 : (0 =? 0) = true) by reflexivity.
  cbn [drain_receiver]. unfold bind at 1. rewrite uart_data_available_run.
  destruct (Z.testbit (USART_ISR (arrive b1 h)) 5) eqn:Hb1.
  - rewrite H10. unfold bind at 1.
    destruct (uart_receive_char_data (arrive b1 h) b2 b3 (b4 :: rest)
                (arrive_rxne b2 _ Hb1)) as (h3 & E & T & Hclear).
    rewrite E.
    cbn [length drain_receiver]. unfold bind at 1. rewrite uart_data_available_run.
    rewrite (no_rx_arrive b4 h3 N4 Hclear), H00.
    eexists _, _, 4%nat. split; [lia|]. split; [reflexivity|].
    destruct (same_io_arrive b4 h3) as (_ & T4 & _).
    destruct (same_io_arrive b1 h) as (_ & T1 & _).
    rewrite T4, T, T1. split; [reflexivity|]. simpl. lia.
  - rewrite H00. exists (arrive b1 h), [], 1%nat.
    split; [lia|]. split; [reflexivity|].
    destruct (same_io_arrive b1 h) as (_ & T1 & _).
    rewrite T1, app_nil_r. split; [reflexivity|]. simpl. lia.
Qed.

(** X12: the start-up drain loop takes the bytes waiting in the
    receiver and throws them away: nothing is echoed, no command is
    run, the duty cycle is unchanged, and it returns only when the
    receiver is empty.  When nothing more arrives it returns after
    discarding at most one byte. *)
Theorem drain_receiver_discards :
  (forall fuel w w',
     drain_receiver fuel w = Some (tt, w') ->
     wire (regs w') = wire (regs w) /\
     TIM2_CCR1 (regs w') = TIM2_CCR1 (regs w) /\
     Z.testbit (USART_ISR (regs w')) 5 = false /\
     exists discarded, taken (regs w') = taken (regs w) ++ discarded) /\
  (forall h sched,
     Forall no_rx sched -> (4 <= length sched)%nat ->
     exists w' discarded,
       drain_receiver (S (length sched)) (World h sched) = Some (tt, w') /\
       taken (regs w') = taken h ++ discarded /\ (length discarded <= 1)%nat).
Proof.
  split; [intros fuel w w'; apply drain_receiver_spec|].
  intros h sched Hno Hlen.
  destruct (drain_receiver_total h sched Hno Hlen) as (h' & d & k & _ & E & T & L).
  exists (World h' (drop k sched)), d. auto.
Qed.

(** A byte that arrived before the loop is thrown away. *)
Lemma drain_receiver_discards_witness :
  exists w',
    drain_receiver 5 (World (arrive [EvRx 84] h_reset) (idle 4)) = Some (tt, w') /\
    taken (regs w') = [84] /\ wire (regs w') = [].
Proof.
  destruct (proj2 drain_receiver_discards (arrive [EvRx 84] h_reset) (idle 4))
    as (w' & d & E & T & L).
  - apply List.Forall_forall. intros b Hb. apply repeat_spec in Hb. subst b.
    intros c [H|[H|[]]]; discriminate.
  - simpl. lia.
  - exists w'. split; [exact E|].
    vm_compute in E. injection E as <-. split; reflexivity.
Defined.

Lemma tracks_drain_receiver fuel : tracks (drain_receiver fuel).
Proof.
  induction fuel as [|fuel IH]; [intros w r w' H; discriminate H|].
  cbn [drain_receiver]. repeat tracks_step; try exact IH.
Qed.

Lemma main_from_drain_start n w a w' :
  main_from_drain n w = Some (a, w') ->
  exists w3 consumed,
    pending w = consumed ++ pending w3 /\ 50 <= Z.of_nat (ticks consumed) /\
    TIM2_CCR1 (regs w3) = TIM2_CCR1 (regs w) /\
    wire (regs w3) = wire (regs w) ++
      (bytes_of "STM32F0xx Demo" ++ [13; 10]) ++
      (bytes_of "T - to toggle temperature reading" ++ [13; 10]) ++
      (bytes_of "L<0-99> - to set LED brightness" ++ [13; 10]) /\
    main_loop n 0 w3 = Some (a, w').
Proof.
  destruct c_string_banner as (B1 & B2 & B3).
  intros Hrun. unfold main_from_drain in Hrun.
  apply bind_Some in Hrun as (u0 & w0 & E0 & Hrun).
  apply bind_Some in Hrun as (u1 & w1 & E1 & Hrun).
  unfold main_from_banner in Hrun.
  apply bind_Some in Hrun as (u2 & w2 & E2 & Hrun).
  apply bind_Some in Hrun as (u3 & w3 & E3 & Hrun).
  apply bind_Some in Hrun as (u4 & w4 & E4 & Hrun).
  destruct u0. destruct (drain_receiver_spec _ _ _ _ E0) as (W0 & C0 & _).
  destruct (quiet_delay_ms _ _ _ _ E1) as (W1 & _ & C1).
  destruct (delay_ms_elapsed _ _ _ _ E1) as (c1 & Hp1 & Hticks).
  destruct (uart_send_string_spec _ _ _ _ E2) as (W2 & _ & C2).
  destruct (uart_send_string_spec _ _ _ _ E3) as (W3 & _ & C3).
  destruct (uart_send_string_spec _ _ _ _ E4) as (W4 & _ & C4).
  rewrite B1 in W2. rewrite B2 in W3. rewrite B3 in W4.
  destruct (tracks_drain_receiver _ _ _ _ E0) as (c0 & Hp0 & _).
  destruct (tracks_uart_send_string _ _ _ _ E2) as (c2 & Hp2 & _).
  destruct (tracks_uart_send_string _ _ _ _ E3) as (c3 & Hp3 & _).
  destruct (tracks_uart_send_string _ _ _ _ E4) as (c4 & Hp4 & _).
  exists w4, (c0 ++ c1 ++ c2 ++ c3 ++ c4). split.
  { rewrite Hp0, Hp1, Hp2, Hp3, Hp4, <- !app_assoc. reflexivity. }
  split; [rewrite !ticks_app; lia|]. split; [congruence|].
  split; [|exact Hrun].
  rewrite W4, W3, W2, W1, W0, <- !app_assoc. reflexivity.
Qed.

(** ** A receiver that is empty and stays empty *)

Lemma keeps_idle_ret {A} (a : A) : keeps_idle (ret a).
Proof. intros w a' w' Hi [= <- <-]. exact Hi. Qed.

Lemma keeps_idle_bind {A B} (m : M A) (k : A -> M B) :
  keeps_idle m -> (forall a, keeps_idle (k a)) -> keeps_idle (bind m k).
Proof.
  intros Hm Hk w b w' Hi Hrun.
  apply bind_Some in Hrun as (a & w1 & E1 & E2).
  exact (Hk a _ _ _ (Hm _ _ _ Hi E1) E2).
Qed.

Lemma keeps_idle_volatile_read {A} (f : hw -> A) : keeps_idle (volatile_read f).
Proof.
  intros [h [|b rest]] a w' [Hno Hb] Hrun; [discriminate|].
  injection Hrun as _ <-. cbn [regs pending] in *.
  inversion Hno as [|? ? N Hrest]; subst.
  split; [exact Hrest|]. now apply no_rx_arrive.
Qed.

Lemma keeps_idle_spin_while cond : keeps_idle (spin_while cond).
Proof.
  intros [h sched]. revert h.
  induction sched as [|b rest IH]; intros h u w' [Hno Hb] Hrun; [discriminate|].
  unfold spin_while in *. cbn [regs pending spin] in *.
  inversion Hno as [|? ? N Hrest]; subst.
  pose proof (no_rx_arrive b h N Hb) as Hb'.
  destruct (cond (arrive b h)).
  - apply (IH (arrive b h) u w'); [split; assumption|exact Hrun].
  - injection Hrun as _ <-. split; assumption.
Qed.

Lemma keeps_idle_delay_ms ms : keeps_idle (delay_ms ms).
Proof.
  apply keeps_idle_bind; [apply keeps_idle_volatile_read|].
  intros start. apply keeps_idle_spin_while.
Qed.

Lemma keeps_idle_write_USART_TDR c : keeps_idle (write_USART_TDR c).
Proof.
  intros w u w' [Hno Hb] Hrun. unfold write_USART_TDR, modify in Hrun.
  injection Hrun as _ <-. split; [exact Hno|].
  cbn [regs USART_ISR]. rewrite Z.ldiff_spec, Hb. reflexivity.
Qed.

Lemma keeps_idle_uart_send_string str : keeps_idle (uart_send_string str).
Proof.
  induction str as [|c rest IH]; cbn [uart_send_string]; [apply keeps_idle_ret|].
  destruct (c =? 0); [apply keeps_idle_ret|].
  apply keeps_idle_bind; [apply keeps_idle_write_USART_TDR|]. intros _.
  apply keeps_idle_bind; [apply keeps_idle_spin_while|]. intros _. exact IH.
Qed.

(** With reporting off and an empty receiver a pass of the loop only
    reads the status register. *)
Lemma main_iteration_idle w a w' :
  receiver_idle w -> main_iteration 0 w = Some (a, w') ->
  a = 0 /\ receiver_idle w' /\ same_io (regs w) (regs w').
Proof.
  intros [Hno Hb] Hrun. destruct w as [h [|b rest]]; [discriminate|].
  cbn [regs pending] in *. inversion Hno as [|? ? N Hrest]; subst.
  unfold main_iteration in Hrun. unfold bind at 1 in Hrun.
  rewrite uart_data_available_run, (no_rx_arrive b h N Hb) in Hrun.
  change (0 =? 0) with true in Hrun. cbv beta iota in Hrun.
  unfold bind, ret in Hrun. change (0 =? 0) with true in Hrun.
  injection Hrun as <- <-. cbn [regs pending].
  split; [reflexivity|]. split; [split; [exact Hrest|now apply no_rx_arrive]|].
  apply same_io_arrive.
Qed.

Lemma main_loop_idle n : forall w a w',
  receiver_idle w -> main_loop n 0 w = Some (a, w') ->
  a = 0 /\ receiver_idle w' /\ same_io (regs w) (regs w').
Proof.
  induction n as [|n IH]; intros w a w' Hi Hrun; cbn [main_loop] in Hrun.
  - injection Hrun as <- <-. split; [reflexivity|]. split; [exact Hi|apply same_io_refl].
  - apply bind_Some in Hrun as (a1 & w1 & E1 & Hrun).
    destruct (main_iteration_idle _ _ _ Hi E1) as (-> & Hi1 & S1).
    destruct (IH _ _ _ Hi1 Hrun) as (Ha & Hi' & S').
    split; [exact Ha|]. split; [exact Hi'|]. eapply same_io_trans; eassumption.
Qed.

Lemma no_rx_arrive_rdr b : forall h, no_rx b -> USART_RDR (arrive b h) = USART_RDR h.
Proof.
  unfold arrive. induction b as [|e b IH]; intros h Hno; [reflexivity|].
  simpl. rewrite IH by (intros c Hin; apply (Hno c); now right).
  destruct e as [|c| |v]; try reflexivity. destruct (Hno c). now left.
Qed.

(** When nothing more arrives the drain loop takes the byte that waits
    in the receiver, if there is one, and nothing else. *)
Lemma drain_receiver_idle fuel w u w0 :
  Forall no_rx (pending w) ->
  drain_receiver fuel w = Some (u, w0) ->
  taken (regs w0) = taken (regs w) ++
    (if Z.testbit (USART_ISR (regs w)) 5 then [USART_RDR (regs w)] else []).
Proof.
  intros Hno Hrun. destruct fuel as [|fuel]; [discriminate|].
  destruct w as [h [|b1 rest]]; [discriminate|]. cbn [regs pending] in *.
  inversion Hno as [|? ? N1 Hno1]; subst.
  assert (H10 : (1 =? 0) = false) by reflexivity.
  assert (H00 : (0 =? 0) = true) by reflexivity.
  cbn [drain_receiver] in Hrun. unfold bind at 1 in Hrun.
  rewrite uart_data_available_run in Hrun.
  destruct (same_io_arrive b1 h) as (_ & T1 & _).
  destruct (Z.testbit (USART_ISR h) 5) eqn:Hb.
  - rewrite (arrive_rxne b1 h Hb), H10 in Hrun.
    apply bind_Some in Hrun as (c & w2 & E2 & Hrun).
    destruct rest as [|b2 [|b3 rest]].
    + discriminate E2.
    + unfold uart_receive_char, bind, volatile_read in E2. cbn [regs pending] in E2.
      rewrite land_bit, (arrive_rxne b2 _ (arrive_rxne b1 h Hb)) in E2 by lia.
      discriminate E2.
    + inversion Hno1 as [|? ? N2 Hno2]; subst. inversion Hno2 as [|? ? N3 Hno3]; subst.
      destruct (uart_receive_char_data (arrive b1 h) b2 b3 rest
                  (arrive_rxne b2 _ (arrive_rxne b1 h Hb))) as (h3 & E & T3 & Hclear).
      rewrite E in E2. injection E2 as _ <-.
      rewrite !no_rx_arrive_rdr in T3 by assumption.
      destruct fuel as [|fuel]; [discriminate|].
      destruct rest as [|b4 rest]; [discriminate|].
      inversion Hno3 as [|? ? N4 _]; subst.
      cbn [drain_receiver] in Hrun. unfold bind at 1 in Hrun.
      rewrite uart_data_available_run, (no_rx_arrive b4 h3 N4 Hclear), H00 in Hrun.
      injection Hrun as _ <-. cbn [regs].
      destruct (same_io_arrive b4 h3) as (_ & T4 & _). congruence.
  - rewrite (no_rx_arrive b1 h N1 Hb), H00 in Hrun.
    injection Hrun as _ <-. cbn [regs]. rewrite T1, app_nil_r. reflexivity.
Qed.

(** What waits in the receiver when the drain loop starts has no effect:
    when nothing more arrives, the loop of [main] finds the receiver
    empty at every pass. *)
Lemma main_from_drain_idle n w a w' :
  Forall no_rx (pending w) ->
  main_from_drain n w = Some (a, w') ->
  a = 0 /\ receiver_idle w' /\
  TIM2_CCR1 (regs w') = TIM2_CCR1 (regs w) /\
  wire (regs w') = wire (regs w) ++
    (bytes_of "STM32F0xx Demo" ++ [13; 10]) ++
    (bytes_of "T - to toggle temperature reading" ++ [13; 10]) ++
    (bytes_of "L<0-99> - to set LED brightness" ++ [13; 10]) /\
  taken (regs w') = taken (regs w) ++
    (if Z.testbit (USART_ISR (regs w)) 5 then [USART_RDR (regs w)] else []).
Proof.
  destruct c_string_banner as (B1 & B2 & B3).
  intros Hno Hrun. unfold main_from_drain in Hrun.
  apply bind_Some in Hrun as (u0 & w0 & E0 & Hrun).
  apply bind_Some in Hrun as (u1 & w1 & E1 & Hrun).
  unfold main_from_banner in Hrun. cbv zeta in Hrun.
  apply bind_Some in Hrun as (u2 & w2 & E2 & Hrun).
  apply bind_Some in Hrun as (u3 & w3 & E3 & Hrun).
  apply bind_Some in Hrun as (u4 & w4 & E4 & Hrun).
  destruct u0. destruct (drain_receiver_spec _ _ _ _ E0) as (W0 & C0 & Hb0 & d & T0).
  destruct (tracks_drain_receiver _ _ _ _ E0) as (c0 & Hp0 & _).
  assert (I0 : receiver_idle w0).
  { split; [|exact Hb0]. rewrite Hp0 in Hno. now apply Forall_app in Hno as [_ ?]. }
  pose proof (keeps_idle_delay_ms 50 _ _ _ I0 E1) as I1.
  pose proof (keeps_idle_uart_send_string _ _ _ _ I1 E2) as I2.
  pose proof (keeps_idle_uart_send_string _ _ _ _ I2 E3) as I3.
  pose proof (keeps_idle_uart_send_string _ _ _ _ I3 E4) as I4.
  destruct (main_loop_idle _ _ _ _ I4 Hrun) as (-> & I' & (W' & T' & C')).
  destruct (quiet_delay_ms _ _ _ _ E1) as (W1 & T1 & C1).
  destruct (uart_send_string_spec _ _ _ _ E2) as (W2 & T2 & C2).
  destruct (uart_send_string_spec _ _ _ _ E3) as (W3 & T3 & C3).
  destruct (uart_send_string_spec _ _ _ _ E4) as (W4 & T4 & C4).
  rewrite B1 in W2. rewrite B2 in W3. rewrite B3 in W4.
  split; [reflexivity|]. split; [exact I'|]. split; [congruence|]. split.
  { rewrite W', W4, W3, W2, W1, W0, <- !app_assoc. reflexivity. }
  rewrite T', T4, T3, T2, T1. exact (drain_receiver_idle _ _ _ _ Hno E0).
Qed.

(** X13: [main], from the drain loop on, first throws away what was
    received during start-up, waits at least 50 ticks, and then sends
    the three banner lines before anything else; the flag starts at 0
    and the duty cycle is as [pwm_led_init] left it until a command
    arrives.  A byte that waits in the receiver when the drain loop
    starts is taken by it and never acted upon: when nothing more is
    received, then after any number of passes of the loop the flag is 0,
    the duty cycle is untouched, the banner is all that was sent, the
    receiver is empty, and that byte is the only one taken. *)
Theorem main_sends_banner_first :
  (forall w a w',
     main_from_drain 0 w = Some (a, w') ->
     a = 0 /\
     TIM2_CCR1 (regs w') = TIM2_CCR1 (regs w) /\
     wire (regs w') = wire (regs w) ++
       (bytes_of "STM32F0xx Demo" ++ [13; 10]) ++
       (bytes_of "T - to toggle temperature reading" ++ [13; 10]) ++
       (bytes_of "L<0-99> - to set LED brightness" ++ [13; 10]) /\
     exists consumed,
       pending w = consumed ++ pending w' /\ 50 <= Z.of_nat (ticks consumed)) /\
  (forall n w a w',
     main_from_drain n w = Some (a, w') ->
     exists out,
       wire (regs w') = wire (regs w) ++
         (bytes_of "STM32F0xx Demo" ++ [13; 10]) ++
         (bytes_of "T - to toggle temperature reading" ++ [13; 10]) ++
         (bytes_of "L<0-99> - to set LED brightness" ++ [13; 10]) ++ out) /\
  (forall n w a w',
     main_from_drain n w = Some (a, w') ->
     exists w0 w1 discarded,
       drain_receiver (S (length (pending w))) w = Some (tt, w0) /\
       taken (regs w0) = taken (regs w) ++ discarded /\
       wire (regs w0) = wire (regs w) /\
       TIM2_CCR1 (regs w0) = TIM2_CCR1 (regs w) /\
       Z.testbit (USART_ISR (regs w0)) 5 = false /\
       delay_ms 50 w0 = Some (tt, w1) /\
       main_from_banner n w1 = Some (a, w')) /\
  (forall n w a w',
     Forall no_rx (pending w) ->
     main_from_drain n w = Some (a, w') ->
     a = 0 /\
     TIM2_CCR1 (regs w') = TIM2_CCR1 (regs w) /\
     wire (regs w') = wire (regs w) ++
       (bytes_of "STM32F0xx Demo" ++ [13; 10]) ++
       (bytes_of "T - to toggle temperature reading" ++ [13; 10]) ++
       (bytes_of "L<0-99> - to set LED brightness" ++ [13; 10]) /\
     Z.testbit (USART_ISR (regs w')) 5 = false /\
     taken (regs w') = taken (regs w) ++
       (if Z.testbit (USART_ISR (regs w)) 5 then [USART_RDR (regs w)] else [])).
Proof.
  pose proof main_from_drain_start as Hcommon.
  split; [|split; [|split]].
  - intros w a w' Hrun.
    destruct (Hcommon _ _ _ _ Hrun) as (w3 & c & Hp & Ht & C & W & Hloop).
    cbn [main_loop] in Hloop. injection Hloop as <- <-.
    repeat split; try assumption. eauto.
  - intros n w a w' Hrun.
    destruct (Hcommon _ _ _ _ Hrun) as (w3 & c & Hp & Ht & C & W & Hloop).
    destruct (inv_main_loop _ wire_grows_trans wire_grows_io wire_grows_duty
                n 0 _ _ _ Hloop) as [out Hout].
    exists out. rewrite Hout, W, <- !app_assoc. reflexivity.
  - intros n w a w' Hrun. unfold main_from_drain in Hrun.
    apply bind_Some in Hrun as ([] & w0 & E0 & Hrun).
    apply bind_Some in Hrun as ([] & w1 & E1 & Hrun).
    destruct (drain_receiver_spec _ _ _ _ E0) as (W0 & C0 & Hb0 & d & T0).
    exists w0, w1, d. auto 10.
  - intros n w a w' Hno Hrun.
    destruct (main_from_drain_idle _ _ _ _ Hno Hrun) as (Ha & [_ Hb] & C & W & T).
    auto.
Qed.

(** A T typed before the drain loop is lost: the banner comes out and
    the flag is still 0, also after two passes of the loop, which find
    the receiver empty. *)
Lemma main_sends_banner_first_witness :
  (exists w',
     main_from_drain 0 (World (arrive [EvRx 84] h_reset) (idle 200)) = Some (0, w') /\
     wire (regs w') =
       (bytes_of "STM32F0xx Demo" ++ [13; 10]) ++
       (bytes_of "T - to toggle temperature reading" ++ [13; 10]) ++
       (bytes_of "L<0-99> - to set LED brightness" ++ [13; 10])) /\
  (exists w',
     main_from_drain 2 (World (arrive [EvRx 84] h_reset) (idle 200)) = Some (0, w') /\
     taken (regs w') = [84] /\
     Z.testbit (USART_ISR (regs w')) 5 = false /\
     wire (regs w') =
       (bytes_of "STM32F0xx Demo" ++ [13; 10]) ++
       (bytes_of "T - to toggle temperature reading" ++ [13; 10]) ++
       (bytes_of "L<0-99> - to set LED brightness" ++ [13; 10])).
Proof.
  split.
  - destruct (main_from_drain 0 (World (arrive [EvRx 84] h_reset) (idle 200)))
      as [[a w']|] eqn:E; [|vm_compute in E; discriminate].
    destruct (proj1 main_sends_banner_first _ _ _ E) as (-> & _ & W & _).
    exists w'. split; [reflexivity|]. rewrite W. reflexivity.
  - destruct (main_from_drain 2 (World (arrive [EvRx 84] h_reset) (idle 200)))
      as [[a w']|] eqn:E; [|vm_compute in E; discriminate].
    assert (Hno : Forall no_rx (pending (World (arrive [EvRx 84] h_reset) (idle 200)))).
    { apply List.Forall_forall. intros b Hb. apply repeat_spec in Hb. subst b.
      intros c [H|[H|[]]]; discriminate. }
    destruct (proj2 (proj2 (proj2 main_sends_banner_first)) 2%nat _ _ _ Hno E)
      as (-> & _ & W & Hb & T).
    exists w'. split; [reflexivity|]. split; [exact T|]. split; [exact Hb|].
    rewrite W. reflexivity.
Defined.

(** * The configuration functions *)

(** ** Bits *)

Lemma tb_or x v n : Z.testbit (Z.lor x v) n = Z.testbit x n || Z.testbit v n.
Proof. apply Z.lor_spec. Qed.

(** [x & ~m], the complement taken in 32 bits *)
Lemma tb_clear x m n :
  0 <= n ->
  Z.testbit (Z.land x (uint32 (Z.lnot m))) n
  = Z.testbit x n && ((n <? 32) && negb (Z.testbit m n)).
Proof.
  intros Hn. rewrite Z.land_spec. f_equal. unfold uint32.
  destruct (Z.ltb_spec n 32).
  - rewrite Z.mod_pow2_bits_low by lia. now rewrite Z.lnot_spec by lia.
  - apply Z.mod_pow2_bits_high. lia.
Qed.

Lemma tb_shiftl v lo n : 0 <= n -> Z.testbit (Z.shiftl v lo) n = Z.testbit v (n - lo).
Proof. apply Z.shiftl_spec. Qed.

Lemma tb_1 j : Z.testbit 1 j = (j =? 0).
Proof. rewrite (Z.eqb_sym j 0). exact (Z.pow2_bits_eqb 0 j (Z.le_refl 0)). Qed.

Lemma tb_2 j : Z.testbit 2 j = (j =? 1).
Proof. rewrite (Z.eqb_sym j 1). apply (Z.pow2_bits_eqb 1 j). lia. Qed.

Lemma tb_3 j : Z.testbit 3 j = (0 <=? j) && (j <? 2).
Proof. apply (Z.testbit_ones 2 j). lia. Qed.

Lemma tb_6 j : Z.testbit 6 j = (j =? 1) || (j =? 2).
Proof.
  change 6 with (Z.lor (2 ^ 1) (2 ^ 2)).
  rewrite Z.lor_spec, !Z.pow2_bits_eqb by lia.
  now rewrite (Z.eqb_sym j 1), (Z.eqb_sym j 2).
Qed.

Lemma tb_7 j : Z.testbit 7 j = (0 <=? j) && (j <? 3).
Proof. apply (Z.testbit_ones 3 j). lia. Qed.

Lemma tb_15 j : Z.testbit 15 j = (0 <=? j) && (j <? 4).
Proof. apply (Z.testbit_ones 4 j). lia. Qed.

Lemma field_spec lo w x k :
  0 <= lo -> 0 <= w -> 0 <= k ->
  Z.testbit (field lo w x) k = (k <? w) && Z.testbit x (k + lo).
Proof.
  intros Hlo Hw Hk. unfold field.
  rewrite Z.land_spec, Z.shiftr_spec, Z.testbit_ones_nonneg by lia.
  apply andb_comm.
Qed.

Ltac bits_rw :=
  repeat progress
    (rewrite ?tb_or, ?tb_shiftl, ?tb_1, ?tb_2, ?tb_3, ?tb_6, ?tb_7, ?tb_15,
       ?Z.testbit_0_l by lia;
     rewrite ?tb_clear by lia;
     rewrite ?field_spec by lia).

Ltac bits_cases :=
  repeat match goal with
         | |- context [Z.eqb ?a ?b] => destruct (Z.eqb_spec a b); try lia
         | |- context [Z.ltb ?a ?b] => destruct (Z.ltb_spec a b); try lia
         | |- context [Z.leb ?a ?b] => destruct (Z.leb_spec a b); try lia
         end;
  cbn [andb orb negb];
  repeat match goal with
         | |- context [Z.testbit ?x ?n] => destruct (Z.testbit x n)
         end;
  try reflexivity; try lia.

Ltac bits := apply Z.bits_inj'; intros ? ?; bits_rw; bits_cases.

(** ** Reading back *)

Lemma rd_wr_eq a v s : rd a (wr a v s) = v.
Proof. unfold rd, wr. cbn [mem]. now rewrite lookup_insert_eq. Qed.

Lemma rd_wr_ne a b v s : a <> b -> rd a (wr b v s) = rd a s.
Proof. intros H. unfold rd, wr. cbn [mem]. now rewrite lookup_insert_ne by congruence. Qed.

Lemma rd_reg_or_eq a v s : rd a (reg_or a v s) = Z.lor (rd a s) v.
Proof. apply rd_wr_eq. Qed.

Lemma rd_reg_or_ne a b v s : a <> b -> rd a (reg_or b v s) = rd a s.
Proof. apply rd_wr_ne. Qed.

Lemma rd_reg_clear_eq a v s :
  rd a (reg_clear a v s) = Z.land (rd a s) (uint32 (Z.lnot v)).
Proof. apply rd_wr_eq. Qed.

Lemma rd_reg_clear_ne a b v s : a <> b -> rd a (reg_clear b v s) = rd a s.
Proof. apply rd_wr_ne. Qed.

Lemma rd_on_core a f s : rd a (on_core f s) = rd a s.
Proof. reflexivity. Qed.

Lemma core_wr a v s : core (wr a v s) = core s.
Proof. reflexivity. Qed.

Lemma core_reg_or a v s : core (reg_or a v s) = core s.
Proof. reflexivity. Qed.

Lemma core_reg_clear a v s : core (reg_clear a v s) = core s.
Proof. reflexivity. Qed.

Lemma core_on_core f s : core (on_core f s) = f (core s).
Proof. reflexivity. Qed.

Ltac addr_ne :=
  first [ assumption
        | let H := fresh in intro H; vm_compute in H; discriminate H ].

Ltac rd_simpl :=
  repeat first
    [ rewrite rd_reg_or_eq | rewrite rd_reg_clear_eq | rewrite rd_wr_eq
    | rewrite rd_on_core
    | rewrite rd_reg_or_ne by addr_ne
    | rewrite rd_reg_clear_ne by addr_ne
    | rewrite rd_wr_ne by addr_ne
    | rewrite core_reg_or | rewrite core_reg_clear | rewrite core_wr
    | rewrite core_on_core ].

(** X14: [pwm_led_init], whatever the registers held before: PA5 is in
    alternate-function mode with function 2 selected; the timer counts
    8 MHz / 800 over 100 steps, a period of 100 Hz; channel 1 is in PWM
    mode 1 with preload; its output and the counter are enabled; the
    clocks of port A and of TIM2 are on; and the duty cycle is 0. *)
Theorem pwm_led_init_configures (s : soc) :
  let s' := pwm_led_init s in
  field 10 2 (rd GPIOA_MODER s') = 2 /\
  field 20 4 (rd GPIOA_AFRL s') = 2 /\
  rd TIM2_PSC s' = 799 /\
  rd TIM2_ARR s' = 99 /\
  8000000 / ((rd TIM2_PSC s' + 1) * (rd TIM2_ARR s' + 1)) = 100 /\
  field 4 3 (rd TIM2_CCMR1 s') = 6 /\
  Z.testbit (rd TIM2_CCMR1 s') 3 = true /\
  Z.testbit (rd TIM2_CCER s') 0 = true /\
  Z.testbit (rd TIM2_CR1 s') 0 = true /\
  Z.testbit (rd RCC_AHBENR s') 17 = true /\
  Z.testbit (rd RCC_APB1ENR s') 0 = true /\
  TIM2_CCR1 (core s') = 0.
Proof.
  cbv zeta. unfold pwm_led_init. cbv zeta. rd_simpl.
  repeat split; try reflexivity; try (bits_rw; bits_cases); try bits.
Qed.

Lemma soc_eq (s1 s2 : soc) :
  (forall a, mem s1 !! a = mem s2 !! a) -> core s1 = core s2 -> s1 = s2.
Proof.
  destruct s1 as [m1 c1], s2 as [m2 c2]. cbn [mem core]. intros Hm ->.
  f_equal. now apply map_eq.
Qed.

Lemma mem_wr_eq a v s : mem (wr a v s) !! a = Some v.
Proof. unfold wr. cbn [mem]. apply lookup_insert_eq. Qed.

Lemma mem_wr_ne a b v s : a <> b -> mem (wr b v s) !! a = mem s !! a.
Proof. intros H. unfold wr. cbn [mem]. apply lookup_insert_ne. congruence. Qed.

Lemma mem_reg_or_eq a v s : mem (reg_or a v s) !! a = Some (Z.lor (rd a s) v).
Proof. apply mem_wr_eq. Qed.

Lemma mem_reg_or_ne a b v s : a <> b -> mem (reg_or b v s) !! a = mem s !! a.
Proof. apply mem_wr_ne. Qed.

Lemma mem_reg_clear_eq a v s :
  mem (reg_clear a v s) !! a = Some (Z.land (rd a s) (uint32 (Z.lnot v))).
Proof. apply mem_wr_eq. Qed.

Lemma mem_reg_clear_ne a b v s : a <> b -> mem (reg_clear b v s) !! a = mem s !! a.
Proof. apply mem_wr_ne. Qed.

Lemma mem_on_core f s : mem (on_core f s) = mem s.
Proof. reflexivity. Qed.

Ltac mem_simpl :=
  repeat first
    [ rewrite mem_reg_or_eq | rewrite mem_reg_clear_eq | rewrite mem_wr_eq
    | rewrite mem_on_core
    | rewrite mem_reg_or_ne by addr_ne
    | rewrite mem_reg_clear_ne by addr_ne
    | rewrite mem_wr_ne by addr_ne ].

Ltac not_in_split H :=
  repeat (apply List.not_in_cons in H; let H' := fresh "Hne" in destruct H as [H' H]).

(** X15: [pwm_led_init] changes nothing else: not the mode or the
    alternate function of another pin of port A, not the configuration
    of channel 2 in TIM2_CCMR1, no register outside the nine it writes,
    and of the registers of the command loop only TIM2_CCR1. *)
Theorem pwm_led_init_frame (s : soc) (p a : Z) :
  0 <= p < 16 -> p <> 5 ->
  ~ In a [RCC_AHBENR; RCC_APB1ENR; GPIOA_MODER; GPIOA_AFRL; TIM2_PSC;
          TIM2_ARR; TIM2_CCMR1; TIM2_CCER; TIM2_CR1] ->
  let s' := pwm_led_init s in
  field (2 * p) 2 (rd GPIOA_MODER s') = field (2 * p) 2 (rd GPIOA_MODER s) /\
  (p < 8 -> field (4 * p) 4 (rd GPIOA_AFRL s') = field (4 * p) 4 (rd GPIOA_AFRL s)) /\
  field 8 8 (rd TIM2_CCMR1 s') = field 8 8 (rd TIM2_CCMR1 s) /\
  rd a s' = rd a s /\
  set_TIM2_CCR1 0 (core s) = core s'.
Proof.
  intros Hp Hp5 Ha. not_in_split Ha.
  cbv zeta. unfold pwm_led_init. cbv zeta. rd_simpl.
  repeat split; try reflexivity; try intros Hp8; bits.
Qed.

(** Pin 13 of port A was in alternate-function mode and stays so. *)
Lemma pwm_led_init_frame_witness :
  let s := Soc (<[GPIOA_MODER := 0x28000000]> ∅) h_reset in
  field (2 * 13) 2 (rd GPIOA_MODER (pwm_led_init s)) = 2 /\
  rd USART_BRR (pwm_led_init s) = 0.
Proof.
  cbv zeta.
  pose proof (pwm_led_init_frame (Soc (<[GPIOA_MODER := 0x28000000]> ∅) h_reset) 13 USART_BRR)
    as H.
  cbv zeta in H.
  destruct H as (H1 & _ & _ & H4 & _).
  - lia.
  - lia.
  - cbn [In]. intros H. repeat (destruct H as [H|H]; [vm_compute in H; discriminate H|]).
    exact H.
  - split.
    + rewrite H1. reflexivity.
    + rewrite H4. reflexivity.
Defined.

(** X16: [uart_conf], whatever the registers held before: PA2 and PA3
    are in alternate-function mode with function 1; the frame is 8 data
    bits, no parity, one stop bit, with oversampling by 16; the divisor
    is 833, that is 9603 baud at 8 MHz; transmitter, receiver and USART
    are enabled; the clocks of port A and of USART2 are on. *)
Theorem uart_conf_configures (s : soc) :
  let s' := uart_conf s in
  field 4 2 (rd GPIOA_MODER s') = 2 /\
  field 6 2 (rd GPIOA_MODER s') = 2 /\
  field 8 4 (rd GPIOA_AFRL s') = 1 /\
  field 12 4 (rd GPIOA_AFRL s') = 1 /\
  Z.testbit (rd USART_CR1 s') 15 = false /\
  Z.testbit (rd USART_CR1 s') 12 = false /\
  Z.testbit (rd USART_CR1 s') 28 = false /\
  Z.testbit (rd USART_CR1 s') 10 = false /\
  field 12 2 (rd USART_CR2 s') = 0 /\
  rd USART_BRR s' = 833 /\
  8000000 / rd USART_BRR s' = 9603 /\
  Z.testbit (rd USART_CR1 s') 3 = true /\
  Z.testbit (rd USART_CR1 s') 2 = true /\
  Z.testbit (rd USART_CR1 s') 0 = true /\
  Z.testbit (rd RCC_AHBENR s') 17 = true /\
  Z.testbit (rd RCC_APB1ENR s') 17 = true.
Proof.
  cbv zeta. unfold uart_conf. cbv zeta. rd_simpl.
  repeat split; try reflexivity; try (bits_rw; bits_cases); try bits.
Qed.

(** X17: [uart_conf] changes nothing else: not the mode or the
    alternate function of a pin other than PA2 and PA3 (so PA5 stays as
    [pwm_led_init] left it), no bit of USART_CR1 other than the seven it
    names, no register outside the seven it writes, and none of the
    registers of the command loop. *)
Theorem uart_conf_frame (s : soc) (p n a : Z) :
  0 <= p < 16 -> p <> 2 -> p <> 3 ->
  0 <= n < 32 -> ~ In n [0; 2; 3; 10; 12; 15; 28] ->
  ~ In a [RCC_AHBENR; RCC_APB1ENR; GPIOA_MODER; GPIOA_AFRL; USART_CR1;
          USART_CR2; USART_BRR] ->
  let s' := uart_conf s in
  field (2 * p) 2 (rd GPIOA_MODER s') = field (2 * p) 2 (rd GPIOA_MODER s) /\
  (p < 8 -> field (4 * p) 4 (rd GPIOA_AFRL s') = field (4 * p) 4 (rd GPIOA_AFRL s)) /\
  Z.testbit (rd USART_CR1 s') n = Z.testbit (rd USART_CR1 s) n /\
  rd a s' = rd a s /\
  core s' = core s.
Proof.
  intros Hp Hp2 Hp3 Hn Hn' Ha. not_in_split Ha. not_in_split Hn'.
  cbv zeta. unfold uart_conf. cbv zeta. rd_simpl.
  repeat split; try reflexivity; try intros Hp8; try bits.
  bits_rw. bits_cases.
Qed.

(** After [pwm_led_init], [uart_conf] leaves PA5 and the period alone. *)
Lemma uart_conf_frame_witness :
  let s := pwm_led_init (Soc ∅ h_reset) in
  field (2 * 5) 2 (rd GPIOA_MODER (uart_conf s)) = 2 /\
  field (4 * 5) 4 (rd GPIOA_AFRL (uart_conf s)) = 2 /\
  rd TIM2_ARR (uart_conf s) = 99.
Proof.
  cbv zeta.
  pose proof (uart_conf_frame (pwm_led_init (Soc ∅ h_reset)) 5 1 TIM2_ARR) as H.
  cbv zeta in H.
  destruct H as (H1 & H2 & _ & H4 & _).
  - lia.
  - lia.
  - lia.
  - lia.
  - cbn [In]. lia.
  - cbn [In]. intros H. repeat (destruct H as [H|H]; [vm_compute in H; discriminate H|]).
    exact H.
  - split; [|split].
    + rewrite H1. reflexivity.
    + rewrite H2 by lia. reflexivity.
    + rewrite H4. reflexivity.
Defined.

Ltac at_address a X tac :=
  destruct (decide (a = X)) as [->|?]; [tac|].

Ltac same_value :=
  mem_simpl; f_equal; rd_simpl; try reflexivity; bits.

(** X18: [pwm_led_init] and [uart_conf] can be called in either order:
    they write different fields of the registers they share. *)
Theorem pwm_uart_conf_commute (s : soc) :
  uart_conf (pwm_led_init s) = pwm_led_init (uart_conf s).
Proof.
  apply soc_eq.
  - intros a. unfold uart_conf, pwm_led_init. cbv zeta.
    at_address a RCC_AHBENR same_value.
    at_address a RCC_APB1ENR same_value.
    at_address a GPIOA_MODER same_value.
    at_address a GPIOA_AFRL same_value.
    at_address a TIM2_PSC same_value.
    at_address a TIM2_ARR same_value.
    at_address a TIM2_CCMR1 same_value.
    at_address a TIM2_CCER same_value.
    at_address a TIM2_CR1 same_value.
    at_address a USART_CR1 same_value.
    at_address a USART_CR2 same_value.
    at_address a USART_BRR same_value.
    mem_simpl. reflexivity.
  - unfold uart_conf, pwm_led_init. cbv zeta. rd_simpl. reflexivity.
Qed.

Lemma pwm_led_init_twice (s : soc) : pwm_led_init (pwm_led_init s) = pwm_led_init s.
Proof.
  apply soc_eq.
  - intros a. unfold pwm_led_init. cbv zeta.
    at_address a RCC_AHBENR same_value.
    at_address a RCC_APB1ENR same_value.
    at_address a GPIOA_MODER same_value.
    at_address a GPIOA_AFRL same_value.
    at_address a TIM2_PSC same_value.
    at_address a TIM2_ARR same_value.
    at_address a TIM2_CCMR1 same_value.
    at_address a TIM2_CCER same_value.
    at_address a TIM2_CR1 same_value.
    mem_simpl. reflexivity.
  - unfold pwm_led_init. cbv zeta. rd_simpl. reflexivity.
Qed.

Lemma uart_conf_twice (s : soc) : uart_conf (uart_conf s) = uart_conf s.
Proof.
  apply soc_eq.
  - intros a. unfold uart_conf. cbv zeta.
    at_address a RCC_AHBENR same_value.
    at_address a RCC_APB1ENR same_value.
    at_address a GPIOA_MODER same_value.
    at_address a GPIOA_AFRL same_value.
    at_address a USART_CR1 same_value.
    at_address a USART_CR2 same_value.
    at_address a USART_BRR same_value.
    mem_simpl. reflexivity.
  - unfold uart_conf. cbv zeta. rd_simpl. reflexivity.
Qed.

Lemma systick_init_twice (s : soc) : systick_init (systick_init s) = systick_init s.
Proof.
  apply soc_eq.
  - intros a. unfold systick_init. cbv zeta.
    at_address a SYST_CSR same_value.
    at_address a SYST_RVR same_value.
    at_address a SYST_CVR same_value.
    mem_simpl. reflexivity.
  - unfold systick_init. cbv zeta. rd_simpl. reflexivity.
Qed.

(** X19: calling a configuration function a second time changes
    nothing. *)
Theorem configuration_idempotent (s : soc) :
  pwm_led_init (pwm_led_init s) = pwm_led_init s /\
  uart_conf (uart_conf s) = uart_conf s /\
  systick_init (systick_init s) = systick_init s.
Proof.
  split; [apply pwm_led_init_twice|split; [apply uart_conf_twice|apply systick_init_twice]].
Qed.

(** X20: [systick_init] selects the processor clock, enables the counter
    and its interrupt, and reloads every 8000 cycles: 1000 interrupts
    per second at 8 MHz; the other bits of SYST_CSR, the other registers
    and the registers of the command loop are as before. *)
Theorem systick_init_configures (s : soc) (n a : Z) :
  3 <= n -> ~ In a [SYST_CSR; SYST_RVR; SYST_CVR] ->
  let s' := systick_init s in
  field 0 3 (rd SYST_CSR s') = 7 /\
  rd SYST_RVR s' = 7999 /\
  rd SYST_CVR s' = 0 /\
  8000000 / (rd SYST_RVR s' + 1) = 1000 /\
  Z.testbit (rd SYST_CSR s') n = Z.testbit (rd SYST_CSR s) n /\
  rd a s' = rd a s /\
  core s' = core s.
Proof.
  intros Hn Ha. not_in_split Ha.
  cbv zeta. unfold systick_init, SYST_CSR_CLKSOURCE, SYST_CSR_ENABLE, SYST_CSR_TICKINT.
  cbv zeta. rd_simpl.
  repeat split; try reflexivity; try bits.
  bits_rw. bits_cases.
Qed.

(** COUNTFLAG, bit 16 of SYST_CSR, is not touched. *)
Lemma systick_init_configures_witness :
  let s := Soc (<[SYST_CSR := 0x10000]> ∅) h_reset in
  rd SYST_CSR (systick_init s) = 0x10007 /\
  Z.testbit (rd SYST_CSR (systick_init s)) 16 = true /\
  rd TIM2_ARR (systick_init s) = 0.
Proof.
  cbv zeta.
  pose proof (systick_init_configures (Soc (<[SYST_CSR := 0x10000]> ∅) h_reset) 16 TIM2_ARR)
    as H.
  cbv zeta in H.
  destruct H as (_ & _ & _ & _ & H5 & H6 & _).
  - lia.
  - cbn [In]. intros H. repeat (destruct H as [H|H]; [vm_compute in H; discriminate H|]).
    exact H.
  - split; [reflexivity|]. split.
    + rewrite H5. reflexivity.
    + rewrite H6. reflexivity.
Defined.

(** * Start-up: [clk_conf], [adc_conf], [main] *)

Lemma cbind_Some {A B} (m : Conf A) (k : A -> Conf B) cw r :
  cbind m k cw = Some r -> exists a cw1, m cw = Some (a, cw1) /\ k a cw1 = Some r.
Proof.
  unfold cbind. destruct (m cw) as [[a cw1]|]; [|discriminate]. eauto.
Qed.

Lemma core_fold_soc_step evs : forall s, core (fold_left soc_step evs s) = core s.
Proof.
  induction evs as [|e evs IH]; intros s; [reflexivity|].
  simpl. rewrite IH. destruct e; reflexivity.
Qed.

Lemma core_chip_step s st : core (chip_step s st) = arrive (fst st) (core s).
Proof. unfold chip_step. cbn [on_core core]. now rewrite core_fold_soc_step. Qed.

Lemma rd_chip_step a s st : rd a (chip_step s st) = rd a (fold_left soc_step (snd st) s).
Proof. reflexivity. Qed.

(** An event changes only the bits of its mask. *)
Lemma soc_step_bit s e a n :
  0 <= n ->
  (fst (event_target e) = a -> Z.testbit (snd (event_target e)) n = false) ->
  Z.testbit (rd a (soc_step s e)) n = Z.testbit (rd a s) n.
Proof.
  intros Hn He. destruct e as [a' k|a' k]; cbn [soc_step event_target fst snd] in *;
    (destruct (Z.eq_dec a a') as [->|Hne];
     [rewrite rd_wr_eq, ?Z.lor_spec, ?Z.ldiff_spec, He by reflexivity;
      cbn [negb]; now rewrite ?orb_false_r, ?andb_true_r
     |now rewrite rd_wr_ne by exact Hne]).
Qed.

Lemma ldiff_0_bit k m n : 0 <= n -> Z.ldiff k m = 0 -> Z.testbit m n = false -> Z.testbit k n = false.
Proof.
  intros Hn H Hm. assert (Hb : Z.testbit (Z.ldiff k m) n = false) by (rewrite H; apply Z.testbit_0_l).
  rewrite Z.ldiff_spec, Hm in Hb. cbn [negb] in Hb. now rewrite andb_true_r in Hb.
Qed.

Lemma confined_bit s st a n :
  confined st -> 0 <= n -> Z.testbit (status_bits a) n = false ->
  Z.testbit (rd a (chip_step s st)) n = Z.testbit (rd a s) n.
Proof.
  intros Hc Hn Hs. rewrite rd_chip_step. unfold confined in Hc.
  destruct st as [b evs]. cbn [snd] in *. revert s.
  induction Hc as [|e evs He _ IH]; intros s; [reflexivity|].
  cbn [fold_left]. rewrite IH. apply soc_step_bit; [exact Hn|].
  intros <-. eapply ldiff_0_bit; eauto.
Qed.

Lemma confined_rd s st a :
  confined st -> status_bits a = 0 -> rd a (chip_step s st) = rd a s.
Proof.
  intros Hc Hs. apply Z.bits_inj'. intros n Hn.
  apply confined_bit; [exact Hc|exact Hn|]. rewrite Hs. apply Z.testbit_0_l.
Qed.

Lemma confinedb_sound st : confinedb st = true -> confined st.
Proof.
  unfold confinedb, confined. intros H. apply List.Forall_forall. intros e He.
  rewrite forallb_forall in H. apply Z.eqb_eq. now apply H.
Qed.

(** ** Rules *)

Lemma hoare_weaken P (Pre Pre' Post Post' : soc -> Prop) {A} (m : Conf A) :
  hoare P Pre' m Post' -> (forall s, Pre s -> Pre' s) -> (forall s, Post' s -> Post s) ->
  hoare P Pre m Post.
Proof.
  intros H H1 H2 cw r cw' HP Hpre Hrun.
  destruct (H cw r cw' HP (H1 _ Hpre) Hrun) as [HQ HP']. auto.
Qed.

Lemma hoare_cret P Q {A} (a : A) : hoare P Q (cret a) Q.
Proof. intros cw r cw' HP HQ Hrun. injection Hrun as _ <-. auto. Qed.

Lemma hoare_cbind P (Pre Mid Post : soc -> Prop) {A B} (m : Conf A) (k : A -> Conf B) :
  hoare P Pre m Mid -> (forall a, hoare P Mid (k a) Post) -> hoare P Pre (cbind m k) Post.
Proof.
  intros Hm Hk cw r cw' HP Hpre Hrun.
  apply cbind_Some in Hrun as (a & cw1 & E1 & Hrun).
  destruct (Hm _ _ _ HP Hpre E1) as [Hmid HP1].
  exact (Hk a _ _ _ HP1 Hmid Hrun).
Qed.

Lemma hoare_cread P Q a : stable P Q -> hoare P Q (cread a) Q.
Proof.
  intros [Hs _] cw r cw' HP HQ Hrun. unfold cread in Hrun.
  destruct (future cw) as [|st rest]; [discriminate|].
  injection Hrun as _ <-. cbn [chip future]. inversion HP; subst. auto.
Qed.

Lemma hoare_cupdate P (Pre Post : soc -> Prop) f :
  (forall s, Pre s -> Post (f s)) -> hoare P Pre (cupdate f) Post.
Proof. intros H cw r cw' HP HQ Hrun. injection Hrun as _ <-. cbn [chip future]. auto. Qed.

Lemma hoare_crmw P (Pre Post : soc -> Prop) a f :
  stable P Pre -> (forall s, Pre s -> Post (wr a (f (rd a s)) s)) ->
  hoare P Pre (crmw a f) Post.
Proof.
  intros [Hs _] H cw r cw' HP HQ Hrun. unfold crmw, cbind, cread, cupdate in Hrun.
  destruct (future cw) as [|st rest]; [discriminate|].
  injection Hrun as _ <-. cbn [chip future]. inversion HP; subst. auto.
Qed.

Lemma hoare_cspin P Q cond : forall sched s r cw',
  stable P Q -> Forall P sched -> Q s -> cspin cond s sched = Some (r, cw') ->
  (Q (chip cw') /\ cond (chip cw') = false) /\ Forall P (future cw').
Proof.
  induction sched as [|st rest IH]; intros s r cw' Hst HP HQ Hrun; [discriminate|].
  cbn [cspin] in Hrun. inversion HP; subst.
  assert (HQ' : Q (chip_step s st)) by (apply (proj1 Hst); assumption).
  destruct (cond (chip_step s st)) eqn:Hc.
  - eapply IH; eauto.
  - injection Hrun as _ <-. cbn [chip future]. auto.
Qed.

Lemma hoare_cspin_while P Q cond :
  stable P Q -> hoare P Q (cspin_while cond) (fun s => Q s /\ cond s = false).
Proof. intros Hst cw r cw' HP HQ Hrun. eapply hoare_cspin; eauto. Qed.

Lemma hoare_cspin_keeps P Q cond : stable P Q -> hoare P Q (cspin_while cond) Q.
Proof.
  intros Hst. eapply hoare_weaken; [apply hoare_cspin_while, Hst|auto|].
  now intros s [H _].
Qed.

Lemma stable_fold P Q c : forall s,
  stable P Q -> Forall P c -> Q s -> Q (fold_left chip_step c s).
Proof.
  induction c as [|st c IH]; intros s Hst HP HQ; [exact HQ|].
  inversion HP; subst. cbn [fold_left]. apply IH; auto. now apply (proj1 Hst).
Qed.

Lemma lift_Some {A} (m : M A) cw a cw' :
  lift m cw = Some (a, cw') ->
  exists w',
    m (World (core (chip cw)) (map fst (future cw))) = Some (a, w') /\
    let k := (length (future cw) - length (pending w'))%nat in
    chip cw' = Soc (mem (fold_left chip_step (take k (future cw)) (chip cw))) (regs w') /\
    future cw' = drop k (future cw).
Proof.
  unfold lift. destruct (m _) as [[a0 w']|]; [|discriminate].
  intros H. injection H as <- <-. exists w'. cbn [chip future]. auto.
Qed.

Lemma hoare_lift P Q {A} (m : M A) : stable P Q -> hoare P Q (lift m) Q.
Proof.
  intros Hst cw r cw' HP HQ Hrun.
  apply lift_Some in Hrun as (w' & _ & Hc & Hf). cbv zeta in Hc, Hf.
  rewrite Hc, Hf. split; [|now apply Forall_drop].
  apply (proj2 Hst). apply (stable_fold P); auto. now apply Forall_take.
Qed.

Lemma stable_True P : stable P (fun _ => True).
Proof. split; auto. Qed.

Lemma stable_bit a n b :
  0 <= n -> Z.testbit (status_bits a) n = false ->
  stable confined (fun s => Z.testbit (rd a s) n = b).
Proof.
  intros Hn Hs. split.
  - intros s st Hc H. now rewrite confined_bit.
  - auto.
Qed.

Lemma stable_reg a (F : Z -> Prop) :
  status_bits a = 0 -> stable confined (fun s => F (rd a s)).
Proof.
  intros Hs. split.
  - intros s st Hc H. now rewrite confined_rd.
  - auto.
Qed.

Lemma stable_and P (Q1 Q2 : soc -> Prop) :
  stable P Q1 -> stable P Q2 -> stable P (fun s => Q1 s /\ Q2 s).
Proof.
  intros [A1 B1] [A2 B2]. split.
  - intros s st HP [H1 H2]. split; auto.
  - intros s h [H1 H2]. split; auto.
Qed.

Section CorePreserved.
Variable R : hw -> hw -> Prop.
Hypothesis R_refl : forall h, R h h.
Hypothesis R_trans : forall h1 h2 h3, R h1 h2 -> R h2 h3 -> R h1 h3.
Hypothesis R_step : forall h e, R h (hw_step h e).

Lemma R_chip_step s st : R (core s) (core (chip_step s st)).
Proof. rewrite core_chip_step. apply (R_arrive R R_refl R_trans R_step). Qed.

Lemma cpreserves_cret {A} (a : A) : cpreserves R (cret a).
Proof. intros cw r cw' H. injection H as _ <-. apply R_refl. Qed.

Lemma cpreserves_cbind {A B} (m : Conf A) (k : A -> Conf B) :
  cpreserves R m -> (forall a, cpreserves R (k a)) -> cpreserves R (cbind m k).
Proof.
  intros Hm Hk cw r cw' Hrun. apply cbind_Some in Hrun as (a & cw1 & E1 & Hrun).
  eapply R_trans; [eapply Hm, E1|eapply Hk, Hrun].
Qed.

Lemma cpreserves_cread a : cpreserves R (cread a).
Proof.
  intros cw r cw' Hrun. unfold cread in Hrun.
  destruct (future cw) as [|st rest]; [discriminate|].
  injection Hrun as _ <-. cbn [chip]. apply R_chip_step.
Qed.

Lemma cpreserves_cupdate f :
  (forall s, R (core s) (core (f s))) -> cpreserves R (cupdate f).
Proof. intros H cw r cw' Hrun. injection Hrun as _ <-. cbn [chip]. apply H. Qed.

Lemma cpreserves_crmw a f : cpreserves R (crmw a f).
Proof.
  unfold crmw. apply cpreserves_cbind; [apply cpreserves_cread|].
  intros v. apply cpreserves_cupdate. intros s. apply R_refl.
Qed.

Lemma cpreserves_cspin cond : forall sched s r cw',
  cspin cond s sched = Some (r, cw') -> R (core s) (core (chip cw')).
Proof.
  induction sched as [|st rest IH]; intros s r cw' Hrun; [discriminate|].
  cbn [cspin] in Hrun. destruct (cond (chip_step s st)).
  - eapply R_trans; [apply (R_chip_step s st)|eapply IH, Hrun].
  - injection Hrun as _ <-. cbn [chip]. apply R_chip_step.
Qed.

Lemma cpreserves_cspin_while cond : cpreserves R (cspin_while cond).
Proof. intros cw r cw' Hrun. eapply cpreserves_cspin, Hrun. Qed.

Lemma cpreserves_lift {A} (m : M A) : preserves R m -> cpreserves R (lift m).
Proof.
  intros Hm cw r cw' Hrun. apply lift_Some in Hrun as (w' & E & Hc & _).
  cbv zeta in Hc. rewrite Hc. cbn [core]. exact (Hm _ _ _ E).
Qed.
End CorePreserved.

Ltac cpreserves_tac :=
  repeat (first [assumption|intros];
          first
            [ assumption
            | apply cpreserves_cbind
            | apply cpreserves_cret
            | apply cpreserves_cread
            | apply cpreserves_crmw
            | apply cpreserves_cspin_while
            | apply cpreserves_lift
            | apply cpreserves_cupdate; intros; rd_simpl;
              match goal with H : forall h, ?R h h |- ?R _ _ => apply H end
            | match goal with |- cpreserves _ (if ?c then _ else _) => destruct c end ]).

Lemma cpreserves_clk_conf R :
  (forall h, R h h) -> (forall h1 h2 h3, R h1 h2 -> R h2 h3 -> R h1 h3) ->
  (forall h e, R h (hw_step h e)) -> cpreserves R clk_conf.
Proof. intros R_refl R_trans R_step. unfold clk_conf. cpreserves_tac. Qed.

(** ** Assertions on one register *)

Lemma stable_field a lo w v :
  0 <= lo -> 0 <= w -> field lo w (status_bits a) = 0 ->
  stable confined (fun s => field lo w (rd a s) = v).
Proof.
  intros Hlo Hw Hs. split; [|auto].
  intros s st Hc H. rewrite <- H. apply Z.bits_inj'. intros k Hk.
  rewrite !field_spec by lia. destruct (Z.ltb_spec k w); [|reflexivity]. cbn [andb].
  apply confined_bit; [exact Hc|lia|].
  assert (Hb : Z.testbit (field lo w (status_bits a)) k = false)
    by (rewrite Hs; apply Z.testbit_0_l).
  rewrite field_spec in Hb by lia.
  destruct (Z.ltb_spec k w); [exact Hb|lia].
Qed.

Ltac stable_tac :=
  first
    [ apply stable_True
    | apply stable_bit; [lia|reflexivity]
    | apply stable_bit; [lia|vm_compute; reflexivity]
    | apply stable_field; [lia|lia|reflexivity]
    | match goal with
      | |- stable confined (fun s => rd ?a s = ?v) =>
          exact (stable_reg a (fun x => x = v) eq_refl)
      end
    | assumption ].

Ltac ob_bits :=
  first [ assumption | reflexivity
        | solve [bits]
        | solve [bits_rw; bits_cases] ].

(** A write keeps or establishes the assertion. *)
Ltac ob_tac :=
  solve
    [ auto
    | let s := fresh "s" in let H := fresh "H" in
      intros s H; rd_simpl;
      first [ exact H
            | reflexivity
            | solve [etransitivity; [|exact H]; ob_bits]
            | solve [bits_rw; rewrite ?H; bits_cases]
            | solve [bits] ] ].

Ltac keeps_tac :=
  lazymatch goal with
  | |- hoare ?P ?Q (cbind _ _) ?Q' =>
      apply (hoare_cbind P Q Q Q'); [keeps_tac|intros ?; keeps_tac]
  | |- hoare _ _ (cret _) _ => apply hoare_cret
  | |- hoare _ _ (cread _) _ => apply hoare_cread; stable_tac
  | |- hoare _ _ (cupdate _) _ => apply hoare_cupdate; ob_tac
  | |- hoare _ _ (crmw _ _) _ => apply hoare_crmw; [stable_tac|ob_tac]
  | |- hoare _ _ (cspin_while _) _ => apply hoare_cspin_keeps; stable_tac
  | |- hoare _ _ (lift _) _ => apply hoare_lift; stable_tac
  | |- hoare _ _ (if ?c then _ else _) _ => destruct c; keeps_tac
  | |- hoare _ _ _ _ => assumption
  end.

Ltac passes_tac :=
  lazymatch goal with
  | |- hoare ?P ?Q (cbind _ _) ?Q' =>
      apply (hoare_cbind P Q Q Q'); [passes_tac|intros ?; passes_tac]
  | |- hoare _ _ (cret _) _ => apply hoare_cret
  | |- hoare _ _ (cread _) _ => apply hoare_cread; apply stable_True
  | |- hoare _ _ (cupdate _) _ => apply hoare_cupdate; auto
  | |- hoare _ _ (crmw _ _) _ => apply hoare_crmw; [apply stable_True|auto]
  | |- hoare _ _ (cspin_while _) _ => apply hoare_cspin_keeps; apply stable_True
  | |- hoare _ _ (lift _) _ => apply hoare_lift; apply stable_True
  | |- hoare _ _ (if ?c then _ else _) _ => destruct c; passes_tac
  end.

Ltac sets_tac :=
  lazymatch goal with
  | |- hoare ?P ?T (cbind _ _) ?Q =>
      first
        [ apply (hoare_cbind P T Q Q); [sets_tac|intros ?; keeps_tac]
        | apply (hoare_cbind P T T Q); [passes_tac|intros ?; sets_tac] ]
  | |- hoare _ _ (cupdate _) _ => apply hoare_cupdate; ob_tac
  | |- hoare _ _ (crmw _ _) _ => apply hoare_crmw; [apply stable_True|ob_tac]
  | |- hoare _ _ (if ?c then _ else _) _ => destruct c; sets_tac
  end.

Lemma land_SWS_field x : (Z.land x RCC_CFGR_SWS =? RCC_CFGR_SWS_HSI) = true -> field 2 2 x = 0.
Proof.
  intros H. apply Z.eqb_eq in H. apply Z.bits_inj'. intros k Hk.
  rewrite field_spec, Z.testbit_0_l by lia.
  destruct (Z.ltb_spec k 2); [|reflexivity]. cbn [andb].
  assert (Hb : Z.testbit (Z.land x RCC_CFGR_SWS) (k + 2) = false)
    by (rewrite H; apply Z.testbit_0_l).
  unfold RCC_CFGR_SWS in Hb. rewrite Z.land_spec in Hb. revert Hb. bits_rw.
  replace (k + 2 - 2) with k by lia.
  destruct (Z.leb_spec 0 k); [|lia]. destruct (Z.ltb_spec k 2); [|lia].
  cbn [andb]. now rewrite andb_true_r.
Qed.

Lemma clk_conf_hsion : hoare confined (fun _ => True) clk_conf
  (fun s => Z.testbit (rd RCC_CR s) 0 = true).
Proof. unfold clk_conf, RCC_CR_HSION. sets_tac. Qed.

Lemma clk_conf_sw : hoare confined (fun _ => True) clk_conf
  (fun s => field 0 2 (rd RCC_CFGR s) = 0).
Proof. unfold clk_conf, RCC_CFGR_SW, RCC_CFGR_SW_HSI. sets_tac. Qed.

Lemma clk_conf_sws : hoare confined (fun _ => True) clk_conf
  (fun s => field 2 2 (rd RCC_CFGR s) = 0).
Proof.
  unfold clk_conf.
  repeat (apply (hoare_cbind _ _ (fun _ => True)); [passes_tac|intros _]).
  eapply hoare_weaken; [apply hoare_cspin_while, stable_True|auto|].
  intros s [_ Hc]. apply negb_false_iff in Hc. now apply land_SWS_field.
Qed.

Lemma status_bits_0_ne a :
  status_bits a = 0 -> a <> RCC_CR /\ a <> RCC_CFGR /\ a <> ADC_CR.
Proof. intros H. repeat split; intros ->; vm_compute in H; discriminate H. Qed.

Lemma clk_conf_keeps_reg a (F : Z -> Prop) :
  status_bits a = 0 ->
  hoare confined (fun s => F (rd a s)) clk_conf (fun s => F (rd a s)).
Proof.
  intros Hs. destruct (status_bits_0_ne a Hs) as (N1 & N2 & N3).
  pose proof (stable_reg a F Hs) as Hst.
  unfold clk_conf. keeps_tac.
Qed.

Lemma clk_conf_keeps_cfgr n b :
  4 <= n < 32 ->
  hoare confined (fun s => Z.testbit (rd RCC_CFGR s) n = b) clk_conf
    (fun s => Z.testbit (rd RCC_CFGR s) n = b).
Proof.
  intros Hn.
  assert (Hst : stable confined (fun s => Z.testbit (rd RCC_CFGR s) n = b)).
  { apply stable_bit; [lia|]. change (status_bits RCC_CFGR) with 12.
    apply Z.bits_above_log2; [lia|]. change (Z.log2 12) with 3. lia. }
  unfold clk_conf, RCC_CFGR_SW, RCC_CFGR_SW_HSI. keeps_tac.
Qed.

(** X21: when [clk_conf] returns, the hardware having changed status
    bits only: HSION is set; SW selects the HSI and SWS reports it;
    bits 4 to 31 of RCC_CFGR (prescalers, PLL) are as before, and so is
    every register without status bits; nothing was sent or taken on
    the serial line and the duty cycle is untouched. *)
Theorem clk_conf_selects_hsi (cw cw' : cworld) (a n : Z) :
  Forall confined (future cw) -> clk_conf cw = Some (tt, cw') ->
  status_bits a = 0 -> 4 <= n < 32 ->
  Z.testbit (rd RCC_CR (chip cw')) 0 = true /\
  field 0 2 (rd RCC_CFGR (chip cw')) = 0 /\
  field 2 2 (rd RCC_CFGR (chip cw')) = 0 /\
  Z.testbit (rd RCC_CFGR (chip cw')) n = Z.testbit (rd RCC_CFGR (chip cw)) n /\
  rd a (chip cw') = rd a (chip cw) /\
  same_io (core (chip cw)) (core (chip cw')).
Proof.
  intros HP Hrun Ha Hn.
  split; [exact (proj1 (clk_conf_hsion _ _ _ HP I Hrun))|].
  split; [exact (proj1 (clk_conf_sw _ _ _ HP I Hrun))|].
  split; [exact (proj1 (clk_conf_sws _ _ _ HP I Hrun))|].
  split; [exact (proj1 (clk_conf_keeps_cfgr n _ Hn _ _ _ HP eq_refl Hrun))|].
  split; [exact (proj1 (clk_conf_keeps_reg a (fun x => x = rd a (chip cw)) Ha
                          _ _ _ HP eq_refl Hrun))|].
  exact (cpreserves_clk_conf same_io same_io_refl same_io_trans same_io_hw_step _ _ _ Hrun).
Qed.

(** RCC_CFGR holds 0x2A: SW and SWS say PLL, a prescaler bit is set.
    The hardware confirms the switch at the first moment. *)
Lemma clk_conf_selects_hsi_witness :
  exists cw',
    clk_conf (CWorld (Soc (<[RCC_CFGR := 0x2A]> ∅) h_reset)
                     (([], [HwClear RCC_CFGR 8]) :: repeat calm 4)) = Some (tt, cw') /\
    field 0 2 (rd RCC_CFGR (chip cw')) = 0 /\
    field 2 2 (rd RCC_CFGR (chip cw')) = 0 /\
    Z.testbit (rd RCC_CFGR (chip cw')) 5 = true.
Proof.
  destruct (clk_conf (CWorld (Soc (<[RCC_CFGR := 0x2A]> ∅) h_reset)
                             (([], [HwClear RCC_CFGR 8]) :: repeat calm 4)))
    as [[[] cw']|] eqn:E; [|vm_compute in E; discriminate E].
  exists cw'. split; [reflexivity|].
  assert (HP : Forall confined (future (CWorld (Soc (<[RCC_CFGR := 0x2A]> ∅) h_reset)
                                         (([], [HwClear RCC_CFGR 8]) :: repeat calm 4)))).
  { apply List.Forall_forall. intros st Hst. apply confinedb_sound.
    cbn [future] in Hst. destruct (in_inv Hst) as [<-|Hin]; [reflexivity|].
    apply repeat_spec in Hin. subst st. reflexivity. }
  destruct (clk_conf_selects_hsi _ _ SYST_RVR 5 HP E eq_refl ltac:(lia))
    as (_ & H2 & H3 & H4 & _).
  split; [exact H2|]. split; [exact H3|]. rewrite H4. reflexivity.
Defined.

(** ** Waiting for ever *)

Lemma soc_step_never_sets s e a n :
  (forall k, e = HwSet a k -> Z.testbit k n = false) ->
  Z.testbit (rd a s) n = false -> Z.testbit (rd a (soc_step s e)) n = false.
Proof.
  intros He H. destruct e as [a' k|a' k]; cbn [soc_step];
    (destruct (Z.eq_dec a a') as [->|Hne]; [|now rewrite rd_wr_ne by exact Hne]);
    rewrite rd_wr_eq.
  - rewrite Z.lor_spec, H, (He k eq_refl). reflexivity.
  - rewrite Z.ldiff_spec, H. reflexivity.
Qed.

Lemma soc_step_never_clears s e a n :
  (forall k, e = HwClear a k -> Z.testbit k n = false) ->
  Z.testbit (rd a s) n = true -> Z.testbit (rd a (soc_step s e)) n = true.
Proof.
  intros He H. destruct e as [a' k|a' k]; cbn [soc_step];
    (destruct (Z.eq_dec a a') as [->|Hne]; [|now rewrite rd_wr_ne by exact Hne]);
    rewrite rd_wr_eq.
  - rewrite Z.lor_spec, H. reflexivity.
  - rewrite Z.ldiff_spec, H, (He k eq_refl). reflexivity.
Qed.

Lemma stable_never_sets a n :
  stable (never_sets a n) (fun s => Z.testbit (rd a s) n = false).
Proof.
  split; [|auto]. intros s [b evs] Hn. rewrite rd_chip_step.
  unfold never_sets in Hn. cbn [snd] in *. revert s.
  induction evs as [|e evs IH]; intros s H; [exact H|].
  cbn [fold_left]. apply IH.
  - intros k Hk. apply Hn. now right.
  - apply soc_step_never_sets; [|exact H]. intros k ->. apply Hn. now left.
Qed.

Lemma stable_never_clears a n :
  stable (never_clears a n) (fun s => Z.testbit (rd a s) n = true).
Proof.
  split; [|auto]. intros s [b evs] Hn. rewrite rd_chip_step.
  unfold never_clears in Hn. cbn [snd] in *. revert s.
  induction evs as [|e evs IH]; intros s H; [exact H|].
  cbn [fold_left]. apply IH.
  - intros k Hk. apply Hn. now right.
  - apply soc_step_never_clears; [|exact H]. intros k ->. apply Hn. now left.
Qed.

Lemma blocks_cbind_l P Pre {A B} (m : Conf A) (k : A -> Conf B) :
  blocks P Pre m -> blocks P Pre (cbind m k).
Proof. intros H cw HP Hpre. unfold cbind. now rewrite (H cw HP Hpre). Qed.

Lemma blocks_cbind_r P (Pre Mid : soc -> Prop) {A B} (m : Conf A) (k : A -> Conf B) :
  hoare P Pre m Mid -> (forall a, blocks P Mid (k a)) -> blocks P Pre (cbind m k).
Proof.
  intros Hm Hk cw HP Hpre. unfold cbind.
  destruct (m cw) as [[a cw1]|] eqn:E; [|reflexivity].
  destruct (Hm _ _ _ HP Hpre E) as [Hmid HP1]. now apply Hk.
Qed.

Lemma blocks_cspin P Q cond : forall sched s,
  stable P Q -> (forall s, Q s -> cond s = true) -> Forall P sched -> Q s ->
  cspin cond s sched = None.
Proof.
  induction sched as [|st rest IH]; intros s Hst Hc HP HQ; [reflexivity|].
  inversion HP; subst. cbn [cspin].
  assert (HQ' : Q (chip_step s st)) by (apply (proj1 Hst); assumption).
  rewrite (Hc _ HQ'). now apply IH.
Qed.

Lemma blocks_cspin_while P Q cond :
  stable P Q -> (forall s, Q s -> cond s = true) -> blocks P Q (cspin_while cond).
Proof. intros Hst Hc cw HP HQ. now apply (blocks_cspin P Q). Qed.

Lemma blocks_clk_conf_hsirdy :
  blocks (never_sets RCC_CR 1) (fun s => Z.testbit (rd RCC_CR s) 1 = false) clk_conf.
Proof.
  pose proof (stable_never_sets RCC_CR 1) as Hst.
  unfold clk_conf.
  apply (blocks_cbind_r _ _ (fun s => Z.testbit (rd RCC_CR s) 1 = false)).
  - apply hoare_crmw; [exact Hst|]. intros s H. rewrite rd_wr_eq.
    unfold RCC_CR_HSION. bits_rw. rewrite H. reflexivity.
  - intros _. apply blocks_cbind_l. apply blocks_cspin_while; [exact Hst|].
    intros s H. unfold RCC_CR_HSIRDY. rewrite land_bit by lia. now rewrite H.
Qed.

Lemma blocks_clk_conf_sws i :
  i = 2 \/ i = 3 ->
  blocks (never_clears RCC_CFGR i) (fun s => Z.testbit (rd RCC_CFGR s) i = true) clk_conf.
Proof.
  intros Hi. pose proof (stable_never_clears RCC_CFGR i) as Hst.
  unfold clk_conf, RCC_CFGR_SW, RCC_CFGR_SW_HSI.
  repeat (apply (blocks_cbind_r _ _ (fun s => Z.testbit (rd RCC_CFGR s) i = true));
          [keeps_tac|intros _]).
  apply blocks_cspin_while; [exact Hst|].
  intros s H. apply negb_true_iff, Z.eqb_neq. intros H0.
  assert (Hb : Z.testbit (Z.land (rd RCC_CFGR s) RCC_CFGR_SWS) i = false)
    by (rewrite H0; apply Z.testbit_0_l).
  rewrite Z.land_spec, H in Hb. destruct Hi as [->| ->]; discriminate Hb.
Qed.

Lemma blocks_main P Pre n : blocks P Pre clk_conf -> blocks P Pre (main n).
Proof. intros H. unfold main. now apply blocks_cbind_l. Qed.

(** X22: [clk_conf] has no time-out.  If HSIRDY is clear and the
    hardware never sets it, or if a bit of SWS is set and the hardware
    never clears it, [clk_conf] does not return however many moments
    pass, and [main] never gets past it. *)
Theorem clk_conf_waits_for_ever (cw : cworld) :
  (Z.testbit (rd RCC_CR (chip cw)) 1 = false /\
   Forall (never_sets RCC_CR 1) (future cw)) \/
  (exists i, (i = 2 \/ i = 3) /\
     Z.testbit (rd RCC_CFGR (chip cw)) i = true /\
     Forall (never_clears RCC_CFGR i) (future cw)) ->
  clk_conf cw = None /\ forall n, main n cw = None.
Proof.
  intros [[H HP]|(i & Hi & H & HP)].
  - split; [exact (blocks_clk_conf_hsirdy cw HP H)|].
    intros n. exact (blocks_main _ _ n blocks_clk_conf_hsirdy cw HP H).
  - split; [exact (blocks_clk_conf_sws i Hi cw HP H)|].
    intros n. exact (blocks_main _ _ n (blocks_clk_conf_sws i Hi) cw HP H).
Qed.

(** The oscillator never becomes ready. *)
Lemma clk_conf_waits_for_ever_witness :
  let cw := CWorld (Soc ∅ h_reset) (repeat ([EvTick], [HwSet RCC_CR RCC_CR_HSION]) 1000) in
  clk_conf cw = None /\ forall n, main n cw = None.
Proof.
  cbv zeta. apply clk_conf_waits_for_ever. left. cbn [chip future]. split.
  - reflexivity.
  - apply List.Forall_forall. intros st Hst. apply repeat_spec in Hst. subst st.
    intros k [Hk|[]]. injection Hk as <-. reflexivity.
Defined.

(** ** Time *)

Lemma cconsumes_le t t' {A} (m : Conf A) : cconsumes t m -> t' <= t -> cconsumes t' m.
Proof.
  intros H Hle cw r cw' Hrun. destruct (H _ _ _ Hrun) as (c & Hc & Ht).
  exists c. split; [exact Hc|lia].
Qed.

Lemma cconsumes_cret {A} (a : A) : cconsumes 0 (cret a).
Proof. intros cw r cw' H. injection H as _ <-. exists []. split; [reflexivity|simpl; lia]. Qed.

Lemma cconsumes_cbind t1 t2 {A B} (m : Conf A) (k : A -> Conf B) :
  cconsumes t1 m -> (forall a, cconsumes t2 (k a)) -> cconsumes (t1 + t2) (cbind m k).
Proof.
  intros Hm Hk cw r cw' Hrun. apply cbind_Some in Hrun as (a & cw1 & E1 & Hrun).
  destruct (Hm _ _ _ E1) as (c1 & Hc1 & Ht1).
  destruct (Hk a _ _ _ Hrun) as (c2 & Hc2 & Ht2).
  exists (c1 ++ c2). split; [rewrite Hc1, Hc2; apply app_assoc|].
  rewrite map_app, ticks_app, Nat2Z.inj_add. apply Z.add_le_mono; assumption.
Qed.

Lemma cconsumes_cread a : cconsumes 0 (cread a).
Proof.
  intros cw r cw' Hrun. unfold cread in Hrun.
  destruct (future cw) as [|st rest]; [discriminate|].
  injection Hrun as _ <-. exists [st]. split; [reflexivity|lia].
Qed.

Lemma cconsumes_cupdate f : cconsumes 0 (cupdate f).
Proof. intros cw r cw' H. injection H as _ <-. exists []. split; [reflexivity|simpl; lia]. Qed.

Lemma cconsumes_crmw a f : cconsumes 0 (crmw a f).
Proof.
  unfold crmw. apply (cconsumes_cbind 0 0); [apply cconsumes_cread|].
  intros v. apply cconsumes_cupdate.
Qed.

Lemma cconsumes_cspin cond : forall sched s r cw',
  cspin cond s sched = Some (r, cw') -> exists c, sched = c ++ future cw'.
Proof.
  induction sched as [|st rest IH]; intros s r cw' Hrun; [discriminate|].
  cbn [cspin] in Hrun. destruct (cond (chip_step s st)).
  - destruct (IH _ _ _ Hrun) as (c & Hc). exists (st :: c). now rewrite Hc.
  - injection Hrun as _ <-. exists [st]. reflexivity.
Qed.

Lemma cconsumes_cspin_while cond : cconsumes 0 (cspin_while cond).
Proof.
  intros cw r cw' Hrun. destruct (cconsumes_cspin _ _ _ _ _ Hrun) as (c & Hc).
  exists c. split; [exact Hc|lia].
Qed.

Lemma cconsumes_lift {A} (m : M A) : cconsumes 0 (lift m).
Proof.
  intros cw r cw' Hrun. apply lift_Some in Hrun as (w' & _ & _ & Hf).
  cbv zeta in Hf. eexists. split; [rewrite Hf; symmetry; apply take_drop|lia].
Qed.

Lemma cconsumes_lift_delay_ms ms : cconsumes ms (lift (delay_ms ms)).
Proof.
  intros cw r cw' Hrun. apply lift_Some in Hrun as (w' & E & _ & Hf).
  cbv zeta in Hf.
  destruct (delay_ms_elapsed _ _ _ _ E) as (consumed & Hp & Ht). cbn [pending] in Hp.
  assert (Hk : (length (future cw) - length (pending w') = length consumed)%nat).
  { assert (Hl : length (map fst (future cw)) = length (future cw)) by apply length_map.
    rewrite Hp, length_app in Hl. lia. }
  rewrite Hk in Hf.
  exists (take (length consumed) (future cw)). split.
  - rewrite Hf. symmetry. apply take_drop.
  - assert (Hm : map fst (take (length consumed) (future cw)) = consumed).
    { rewrite <- firstn_map.
      etransitivity; [|apply (take_app_length consumed (pending w'))].
      f_equal. exact Hp. }
    rewrite <- Hm in Ht. exact Ht.
Qed.

Ltac cconsumes_tac :=
  lazymatch goal with
  | |- cconsumes _ (cbind _ _) =>
      eapply cconsumes_cbind; [cconsumes_tac|intros ?; cconsumes_tac]
  | |- cconsumes _ (cret _) => apply cconsumes_cret
  | |- cconsumes _ (cread _) => apply cconsumes_cread
  | |- cconsumes _ (cupdate _) => apply cconsumes_cupdate
  | |- cconsumes _ (crmw _ _) => apply cconsumes_crmw
  | |- cconsumes _ (cspin_while _) => apply cconsumes_cspin_while
  | |- cconsumes _ (lift (delay_ms _)) => apply cconsumes_lift_delay_ms
  | |- cconsumes _ (lift _) => apply cconsumes_lift
  | |- cconsumes _ (if ?c then _ else _) =>
      apply (cconsumes_le 0 0); [destruct c; cconsumes_zero|reflexivity]
  end
with cconsumes_zero :=
  lazymatch goal with
  | |- cconsumes _ (cbind _ _) =>
      apply (cconsumes_cbind 0 0); [cconsumes_zero|intros ?; cconsumes_zero]
  | |- cconsumes _ (cret _) => apply cconsumes_cret
  | |- cconsumes _ (cread _) => apply cconsumes_cread
  | |- cconsumes _ (cupdate _) => apply cconsumes_cupdate
  | |- cconsumes _ (crmw _ _) => apply cconsumes_crmw
  | |- cconsumes _ (cspin_while _) => apply cconsumes_cspin_while
  | |- cconsumes _ (lift _) => apply cconsumes_lift
  | |- cconsumes _ (if ?c then _ else _) => destruct c; cconsumes_zero
  end.

Lemma cconsumes_clk_conf : cconsumes 0 clk_conf.
Proof. unfold clk_conf. cconsumes_zero. Qed.

Lemma cconsumes_adc_conf : cconsumes 120 adc_conf.
Proof.
  eapply cconsumes_le; [unfold adc_conf; cconsumes_tac|]. vm_compute. discriminate.
Qed.

(** ** [adc_conf] *)

Lemma cpreserves_adc_conf R :
  (forall h, R h h) -> (forall h1 h2 h3, R h1 h2 -> R h2 h3 -> R h1 h3) ->
  (forall h e, R h (hw_step h e)) -> cpreserves R adc_conf.
Proof.
  intros R_refl R_trans R_step. unfold adc_conf. cpreserves_tac;
    apply preserves_delay_ms; assumption.
Qed.

(** A bit that is set stays set when more bits are set. *)
Lemma reg_or_keeps_set a n x k s :
  Z.testbit (rd a s) n = true -> Z.testbit (rd a (wr x (Z.lor (rd x s) k) s)) n = true.
Proof.
  intros H. destruct (Z.eq_dec a x) as [->|Hne].
  - now rewrite rd_wr_eq, Z.lor_spec, H.
  - now rewrite rd_wr_ne by exact Hne.
Qed.

Lemma adc_conf_keeps_set a n :
  0 <= n -> Z.testbit (status_bits a) n = false ->
  hoare confined (fun s => Z.testbit (rd a s) n = true) adc_conf
    (fun s => Z.testbit (rd a s) n = true).
Proof.
  intros Hn Hs. pose proof (stable_bit a n true Hn Hs) as Hst.
  assert (Hor : forall x k s, Z.testbit (rd a s) n = true ->
                  Z.testbit (rd a (reg_or x k s)) n = true)
    by (intros; now apply reg_or_keeps_set).
  assert (Hrmw : forall x k s, Z.testbit (rd a s) n = true ->
                  Z.testbit (rd a (wr x (Z.lor (rd x s) k) s)) n = true)
    by (intros; now apply reg_or_keeps_set).
  unfold adc_conf.
  repeat first
    [ apply hoare_crmw; [exact Hst|apply Hrmw]
    | apply (hoare_cbind _ _ (fun s => Z.testbit (rd a s) n = true)); [|intros ?]
    | apply hoare_cret
    | apply hoare_cread; exact Hst
    | apply hoare_cupdate; apply Hor
    | apply hoare_cspin_keeps; exact Hst
    | apply hoare_lift; exact Hst
    | match goal with |- hoare _ _ (if ?c then _ else _) _ => destruct c end ].
Qed.

Lemma adc_conf_apb2enr : hoare confined (fun _ => True) adc_conf
  (fun s => Z.testbit (rd RCC_APB2ENR s) 9 = true).
Proof. unfold adc_conf. sets_tac. Qed.

Lemma adc_conf_ccr : hoare confined (fun _ => True) adc_conf
  (fun s => Z.testbit (rd ADC_CCR s) 23 = true).
Proof. unfold adc_conf. sets_tac. Qed.

Lemma adc_conf_smpr : hoare confined (fun _ => True) adc_conf
  (fun s => field 0 3 (rd ADC_SMPR s) = 7).
Proof. unfold adc_conf. sets_tac. Qed.

Lemma adc_conf_cfgr1 : hoare confined (fun _ => True) adc_conf
  (fun s => Z.testbit (rd ADC_CFGR1 s) 13 = true).
Proof. unfold adc_conf. sets_tac. Qed.

Lemma adc_conf_chselr : hoare confined (fun _ => True) adc_conf
  (fun s => Z.testbit (rd ADC_CHSELR s) 16 = true).
Proof. unfold adc_conf. sets_tac. Qed.

Lemma adc_conf_adstart : hoare confined (fun _ => True) adc_conf
  (fun s => Z.testbit (rd ADC_CR s) 2 = true).
Proof.
  unfold adc_conf.
  repeat lazymatch goal with
         | |- hoare _ _ (cbind _ _) _ =>
             apply (hoare_cbind _ _ (fun _ => True)); [passes_tac|intros ?]
         end.
  apply hoare_crmw; [apply stable_True|]. intros s _. rewrite rd_wr_eq.
  unfold ADC_CR_ADSTART. now rewrite Z.lor_spec, orb_true_r.
Qed.

(** An assertion that no write to the registers of [clk_conf], or of
    [adc_conf], can change is kept by it. *)
Lemma clk_conf_keeps P (Q : soc -> Prop) :
  stable P Q ->
  (forall x v s, In x [RCC_CR; RCC_CFGR] -> Q s -> Q (wr x v s)) ->
  hoare P Q clk_conf Q.
Proof.
  intros Hst Hw. unfold clk_conf.
  repeat first
    [ apply hoare_crmw; [exact Hst|intros s; apply Hw; cbn [In]; tauto]
    | apply (hoare_cbind _ _ Q); [|intros ?]
    | apply hoare_cspin_keeps; exact Hst ].
Qed.

Lemma adc_conf_keeps P (Q : soc -> Prop) :
  stable P Q ->
  (forall x v s,
     In x [RCC_APB2ENR; ADC_CR; ADC_CCR; ADC_SMPR; ADC_CFGR1; ADC_CHSELR] ->
     Q s -> Q (wr x v s)) ->
  hoare P Q adc_conf Q.
Proof.
  intros Hst Hw. unfold adc_conf.
  repeat first
    [ apply hoare_crmw; [exact Hst|intros s; apply Hw; cbn [In]; tauto]
    | apply (hoare_cbind _ _ Q); [|intros ?]
    | apply hoare_cret
    | apply hoare_cread; exact Hst
    | apply hoare_cupdate; intros s; apply Hw; cbn [In]; tauto
    | apply hoare_cspin_keeps; exact Hst
    | apply hoare_lift; exact Hst
    | match goal with |- hoare _ _ (if ?c then _ else _) _ => destruct c end ].
Qed.

Lemma adc_conf_keeps_reg a (F : Z -> Prop) :
  status_bits a = 0 ->
  ~ In a [RCC_APB2ENR; ADC_CCR; ADC_SMPR; ADC_CFGR1; ADC_CHSELR] ->
  hoare confined (fun s => F (rd a s)) adc_conf (fun s => F (rd a s)).
Proof.
  intros Hs Ha. destruct (status_bits_0_ne a Hs) as (_ & _ & N3).
  apply adc_conf_keeps; [now apply stable_reg|].
  intros x v s Hx H. rewrite rd_wr_ne; [exact H|].
  intros ->. cbn [In] in Hx, Ha. destruct Hx as [Hx|[Hx|Hx]]; [| |]; try tauto.
  now symmetry in Hx.
Qed.

(** X23: when [adc_conf] returns, the hardware having changed status
    bits only: the clock of the ADC is on, the temperature sensor is
    switched on, the longest sampling time is selected, the mode is
    continuous, channel 16 is selected and ADSTART is written.  It only
    sets bits: a bit that was set outside the status bits, such as
    another selected channel, is still set; a register that it does not
    write is as before.  At least 120 ticks have passed; nothing was
    sent or taken on the serial line and the duty cycle is untouched. *)
Theorem adc_conf_configures (cw cw' : cworld) (a n a' : Z) :
  Forall confined (future cw) -> adc_conf cw = Some (tt, cw') ->
  0 <= n -> Z.testbit (status_bits a) n = false -> Z.testbit (rd a (chip cw)) n = true ->
  status_bits a' = 0 ->
  ~ In a' [RCC_APB2ENR; ADC_CCR; ADC_SMPR; ADC_CFGR1; ADC_CHSELR] ->
  Z.testbit (rd RCC_APB2ENR (chip cw')) 9 = true /\
  Z.testbit (rd ADC_CCR (chip cw')) 23 = true /\
  field 0 3 (rd ADC_SMPR (chip cw')) = 7 /\
  Z.testbit (rd ADC_CFGR1 (chip cw')) 13 = true /\
  Z.testbit (rd ADC_CHSELR (chip cw')) 16 = true /\
  Z.testbit (rd ADC_CR (chip cw')) 2 = true /\
  Z.testbit (rd a (chip cw')) n = true /\
  rd a' (chip cw') = rd a' (chip cw) /\
  same_io (core (chip cw)) (core (chip cw')) /\
  exists c, future cw = c ++ future cw' /\ 120 <= Z.of_nat (ticks (map fst c)).
Proof.
  intros HP Hrun Hn Hs Hb Hs' Ha'.
  split; [exact (proj1 (adc_conf_apb2enr _ _ _ HP I Hrun))|].
  split; [exact (proj1 (adc_conf_ccr _ _ _ HP I Hrun))|].
  split; [exact (proj1 (adc_conf_smpr _ _ _ HP I Hrun))|].
  split; [exact (proj1 (adc_conf_cfgr1 _ _ _ HP I Hrun))|].
  split; [exact (proj1 (adc_conf_chselr _ _ _ HP I Hrun))|].
  split; [exact (proj1 (adc_conf_adstart _ _ _ HP I Hrun))|].
  split; [exact (proj1 (adc_conf_keeps_set a n Hn Hs _ _ _ HP Hb Hrun))|].
  split; [exact (proj1 (adc_conf_keeps_reg a' (fun x => x = rd a' (chip cw)) Hs' Ha'
                          _ _ _ HP eq_refl Hrun))|].
  split; [exact (cpreserves_adc_conf same_io same_io_refl same_io_trans same_io_hw_step
                   _ _ _ Hrun)|].
  exact (cconsumes_adc_conf _ _ _ Hrun).
Qed.

Lemma confined_calm n : Forall confined (repeat calm n).
Proof.
  apply List.Forall_forall. intros st Hst. apply repeat_spec in Hst. subst st.
  apply confinedb_sound. reflexivity.
Qed.

(** Channel 0 was selected before: it stays selected beside channel 16. *)
Lemma adc_conf_configures_witness :
  exists cw',
    adc_conf (CWorld (Soc (<[ADC_CHSELR := 1]> ∅) h_reset) (repeat calm 200))
      = Some (tt, cw') /\
    Z.testbit (rd ADC_CHSELR (chip cw')) 16 = true /\
    Z.testbit (rd ADC_CHSELR (chip cw')) 0 = true /\
    rd GPIOA_MODER (chip cw') = 0.
Proof.
  destruct (adc_conf (CWorld (Soc (<[ADC_CHSELR := 1]> ∅) h_reset) (repeat calm 200)))
    as [[[] cw']|] eqn:E; [|vm_compute in E; discriminate E].
  exists cw'. split; [reflexivity|].
  destruct (adc_conf_configures
              (CWorld (Soc (<[ADC_CHSELR := 1]> ∅) h_reset) (repeat calm 200)) cw'
              ADC_CHSELR 0 GPIOA_MODER (confined_calm 200) E)
    as (_ & _ & _ & _ & H5 & _ & H7 & H8 & _).
  - lia.
  - reflexivity.
  - reflexivity.
  - reflexivity.
  - cbn [In]. intros H. repeat (destruct H as [H|H]; [vm_compute in H; discriminate H|]).
    exact H.
  - split; [exact H5|]. split; [exact H7|]. rewrite H8. reflexivity.
Defined.

(** ** [adc_conf] waiting for ever *)

Lemma blocks_weaken P (Pre Pre' : soc -> Prop) {A} (m : Conf A) :
  blocks P Pre m -> (forall s, Pre' s -> Pre s) -> blocks P Pre' m.
Proof. intros H Hw cw HP Hpre. apply H; auto. Qed.

Lemma blocks_cbind_cread P (Pre : soc -> Prop) a {B} (k : Z -> Conf B) :
  stable P Pre ->
  (forall v, blocks P (fun s => Pre s /\ rd a s = v) (k v)) ->
  blocks P Pre (cbind (cread a) k).
Proof.
  intros Hst Hk cw HP Hpre. unfold cbind, cread.
  destruct (future cw) as [|st rest]; [reflexivity|]. inversion HP; subst.
  apply Hk; cbn [chip future]; [assumption|]. split; [|reflexivity].
  now apply (proj1 Hst).
Qed.

Lemma blocks_adc_conf_adcal : blocks (never_clears ADC_CR 31) (fun _ => True) adc_conf.
Proof.
  pose proof (stable_never_clears ADC_CR 31) as Hst.
  unfold adc_conf.
  apply (blocks_cbind_r _ _ (fun _ => True)); [passes_tac|intros _].
  apply (blocks_cbind_r _ _ (fun _ => True)); [passes_tac|intros cr].
  apply (blocks_cbind_r _ _ (fun _ => True)); [passes_tac|intros _].
  apply (blocks_cbind_r _ _ (fun s => Z.testbit (rd ADC_CR s) 31 = true)).
  - apply hoare_crmw; [apply stable_True|]. intros s _. rewrite rd_wr_eq.
    unfold ADC_CR_ADCAL. now rewrite Z.lor_spec, orb_true_r.
  - intros _. apply blocks_cbind_l. apply blocks_cspin_while; [exact Hst|].
    intros s H. unfold ADC_CR_ADCAL. rewrite land_bit by lia. now rewrite H.
Qed.

Lemma blocks_adc_conf_aden :
  blocks (never_clears ADC_CR 0) (fun s => Z.testbit (rd ADC_CR s) 0 = true) adc_conf.
Proof.
  pose proof (stable_never_clears ADC_CR 0) as Hst.
  unfold adc_conf.
  apply (blocks_cbind_r _ _ (fun s => Z.testbit (rd ADC_CR s) 0 = true));
    [keeps_tac|intros _].
  apply blocks_cbind_cread; [exact Hst|]. intros cr.
  apply blocks_cbind_l.
  destruct (Z.land cr ADC_CR_ADEN =? 0) eqn:E.
  - intros cw _ [H1 H2]. exfalso. unfold ADC_CR_ADEN in E.
    rewrite land_bit, <- H2, H1 in E by lia. discriminate E.
  - apply (blocks_weaken _ (fun s => Z.testbit (rd ADC_CR s) 0 = true));
      [|now intros s [H _]].
    apply (blocks_cbind_r _ _ (fun s => Z.testbit (rd ADC_CR s) 0 = true)).
    + apply hoare_crmw; [exact Hst|]. intros s H. rewrite rd_wr_eq.
      now rewrite Z.lor_spec, H.
    + intros _. apply blocks_cspin_while; [exact Hst|].
      intros s H. unfold ADC_CR_ADEN. rewrite land_bit by lia. now rewrite H.
Qed.

Lemma blocks_main_adc P (Pre : soc -> Prop) n :
  stable P Pre ->
  (forall x v s, In x [RCC_CR; RCC_CFGR] -> Pre s -> Pre (wr x v s)) ->
  (forall s, Pre s -> Pre (systick_init s)) ->
  blocks P Pre adc_conf -> blocks P Pre (main n).
Proof.
  intros Hst Hw Hsys H. unfold main.
  apply (blocks_cbind_r _ _ Pre); [now apply clk_conf_keeps|intros _].
  apply (blocks_cbind_r _ _ Pre); [now apply hoare_cupdate|intros _].
  now apply blocks_cbind_l.
Qed.

(** X24: [adc_conf] has no time-out either.  If the hardware never
    clears ADCAL, or if ADEN is set on entry and the hardware never
    clears it, [adc_conf] does not return however many moments pass,
    and [main] never gets past it. *)
Theorem adc_conf_waits_for_ever (cw : cworld) :
  Forall (never_clears ADC_CR 31) (future cw) \/
  (Z.testbit (rd ADC_CR (chip cw)) 0 = true /\
   Forall (never_clears ADC_CR 0) (future cw)) ->
  adc_conf cw = None /\ forall n, main n cw = None.
Proof.
  intros [HP|[H HP]].
  - split; [exact (blocks_adc_conf_adcal cw HP I)|].
    intros n.
    exact (blocks_main_adc (never_clears ADC_CR 31) (fun _ => True) n (stable_True _)
             (fun _ _ _ _ _ => I) (fun _ _ => I) blocks_adc_conf_adcal cw HP I).
  - split; [exact (blocks_adc_conf_aden cw HP H)|].
    intros n.
    refine (blocks_main_adc (never_clears ADC_CR 0)
              (fun s => Z.testbit (rd ADC_CR s) 0 = true) n
              (stable_never_clears ADC_CR 0) _ _ blocks_adc_conf_aden cw HP H).
    + intros x v s Hx Hb. rewrite rd_wr_ne; [exact Hb|].
      intros <-. cbn [In] in Hx.
      repeat (destruct Hx as [Hx|Hx]; [vm_compute in Hx; discriminate Hx|]). exact Hx.
    + intros s Hb. unfold systick_init. cbv zeta. rd_simpl. exact Hb.
Qed.

(** The oscillator is ready but no calibration ever ends. *)
Lemma adc_conf_waits_for_ever_witness :
  let cw := CWorld (Soc ∅ h_reset)
              (repeat ([EvTick], [HwSet RCC_CR RCC_CR_HSIRDY]) 1000) in
  adc_conf cw = None /\ forall n, main n cw = None.
Proof.
  cbv zeta. apply adc_conf_waits_for_ever. left. cbn [future].
  apply List.Forall_forall. intros st Hst. apply repeat_spec in Hst. subst st.
  intros k [Hk|[]]. discriminate Hk.
Defined.

(** ** [main] *)

Lemma main_from_drain_elapsed n w a w' :
  main_from_drain n w = Some (a, w') ->
  exists consumed, pending w = consumed ++ pending w' /\ 50 <= Z.of_nat (ticks consumed).
Proof.
  intros Hrun. destruct (main_from_drain_start _ _ _ _ Hrun) as (w3 & c & Hp & Ht & _ & _ & Hl).
  destruct (tracks_main_loop _ _ _ _ _ Hl) as (c' & Hp' & _).
  exists (c ++ c'). split; [rewrite Hp, Hp'; apply app_assoc|].
  rewrite ticks_app. lia.
Qed.

Lemma cconsumes_lift_elapsed t {A} (m : M A) :
  (forall w a w', m w = Some (a, w') ->
     exists consumed, pending w = consumed ++ pending w' /\ t <= Z.of_nat (ticks consumed)) ->
  cconsumes t (lift m).
Proof.
  intros Hm cw r cw' Hrun. apply lift_Some in Hrun as (w' & E & _ & Hf).
  cbv zeta in Hf.
  destruct (Hm _ _ _ E) as (consumed & Hp & Ht). cbn [pending] in Hp.
  assert (Hk : (length (future cw) - length (pending w') = length consumed)%nat).
  { assert (Hl : length (map fst (future cw)) = length (future cw)) by apply length_map.
    rewrite Hp, length_app in Hl. lia. }
  rewrite Hk in Hf.
  exists (take (length consumed) (future cw)). split.
  - rewrite Hf. symmetry. apply take_drop.
  - assert (Hm' : map fst (take (length consumed) (future cw)) = consumed).
    { rewrite <- firstn_map.
      etransitivity; [|apply (take_app_length consumed (pending w'))].
      f_equal. exact Hp. }
    rewrite <- Hm' in Ht. exact Ht.
Qed.

Lemma cconsumes_main n : cconsumes 170 (main n).
Proof.
  apply (cconsumes_le (0 + (0 + (120 + (0 + (0 + 50)))))); [|reflexivity].
  unfold main.
  apply cconsumes_cbind; [apply cconsumes_clk_conf|intros _].
  apply cconsumes_cbind; [apply cconsumes_cupdate|intros _].
  apply cconsumes_cbind; [apply cconsumes_adc_conf|intros _].
  apply cconsumes_cbind; [apply cconsumes_cupdate|intros _].
  apply cconsumes_cbind; [apply cconsumes_cupdate|intros _].
  apply cconsumes_lift_elapsed. apply main_from_drain_elapsed.
Qed.

Section Main.
Variable n : nat.
Variable Q : soc -> Prop.
Hypothesis Q_stable : stable confined Q.

Lemma main_sets_uart : (forall s, Q (uart_conf s)) -> hoare confined (fun _ => True) (main n) Q.
Proof.
  intros Hu. unfold main.
  apply (hoare_cbind _ _ (fun _ => True));
    [apply clk_conf_keeps; [apply stable_True|auto]|intros _].
  apply (hoare_cbind _ _ (fun _ => True)); [now apply hoare_cupdate|intros _].
  apply (hoare_cbind _ _ (fun _ => True));
    [apply adc_conf_keeps; [apply stable_True|auto]|intros _].
  apply (hoare_cbind _ _ (fun _ => True)); [now apply hoare_cupdate|intros _].
  apply (hoare_cbind _ _ Q); [apply hoare_cupdate; auto|intros _].
  now apply hoare_lift.
Qed.

Hypothesis Q_uart : forall s, Q s -> Q (uart_conf s).

Lemma main_sets_pwm : (forall s, Q (pwm_led_init s)) -> hoare confined (fun _ => True) (main n) Q.
Proof.
  intros Hp. unfold main.
  apply (hoare_cbind _ _ (fun _ => True));
    [apply clk_conf_keeps; [apply stable_True|auto]|intros _].
  apply (hoare_cbind _ _ (fun _ => True)); [now apply hoare_cupdate|intros _].
  apply (hoare_cbind _ _ (fun _ => True));
    [apply adc_conf_keeps; [apply stable_True|auto]|intros _].
  apply (hoare_cbind _ _ Q); [apply hoare_cupdate; auto|intros _].
  apply (hoare_cbind _ _ Q); [now apply hoare_cupdate|intros _].
  now apply hoare_lift.
Qed.

Hypothesis Q_pwm : forall s, Q s -> Q (pwm_led_init s).

Lemma main_sets_adc :
  hoare confined (fun _ => True) adc_conf Q -> hoare confined (fun _ => True) (main n) Q.
Proof.
  intros Ha. unfold main.
  apply (hoare_cbind _ _ (fun _ => True));
    [apply clk_conf_keeps; [apply stable_True|auto]|intros _].
  apply (hoare_cbind _ _ (fun _ => True)); [now apply hoare_cupdate|intros _].
  apply (hoare_cbind _ _ Q); [exact Ha|intros _].
  apply (hoare_cbind _ _ Q); [now apply hoare_cupdate|intros _].
  apply (hoare_cbind _ _ Q); [now apply hoare_cupdate|intros _].
  now apply hoare_lift.
Qed.

Hypothesis Q_adc : forall x v s,
  In x [RCC_APB2ENR; ADC_CR; ADC_CCR; ADC_SMPR; ADC_CFGR1; ADC_CHSELR] ->
  Q s -> Q (wr x v s).

Lemma main_sets_systick :
  (forall s, Q (systick_init s)) -> hoare confined (fun _ => True) (main n) Q.
Proof.
  intros Hs. unfold main.
  apply (hoare_cbind _ _ (fun _ => True));
    [apply clk_conf_keeps; [apply stable_True|auto]|intros _].
  apply (hoare_cbind _ _ Q); [apply hoare_cupdate; auto|intros _].
  apply (hoare_cbind _ _ Q); [now apply adc_conf_keeps|intros _].
  apply (hoare_cbind _ _ Q); [now apply hoare_cupdate|intros _].
  apply (hoare_cbind _ _ Q); [now apply hoare_cupdate|intros _].
  now apply hoare_lift.
Qed.

Hypothesis Q_systick : forall s, Q s -> Q (systick_init s).

Lemma main_sets_clk :
  hoare confined (fun _ => True) clk_conf Q -> hoare confined (fun _ => True) (main n) Q.
Proof.
  intros Hc. unfold main.
  apply (hoare_cbind _ _ Q); [exact Hc|intros _].
  apply (hoare_cbind _ _ Q); [now apply hoare_cupdate|intros _].
  apply (hoare_cbind _ _ Q); [now apply adc_conf_keeps|intros _].
  apply (hoare_cbind _ _ Q); [now apply hoare_cupdate|intros _].
  apply (hoare_cbind _ _ Q); [now apply hoare_cupdate|intros _].
  now apply hoare_lift.
Qed.
End Main.

Ltac pure_unfold :=
  try unfold systick_init; try unfold pwm_led_init; try unfold uart_conf;
  try unfold SYST_CSR_ENABLE, SYST_CSR_TICKINT, SYST_CSR_CLKSOURCE; cbv zeta.

Ltac pure_sets :=
  let s := fresh "s" in
  intros s; pure_unfold; rd_simpl; ob_bits.

Ltac pure_keeps :=
  let s := fresh "s" in let H := fresh "H" in
  intros s H; pure_unfold; rd_simpl;
  first [ exact H
        | solve [etransitivity; [|exact H]; ob_bits]
        | solve [bits_rw; rewrite ?H; bits_cases] ].

Ltac adc_keeps :=
  let x := fresh "x" in let v := fresh "v" in let s := fresh "s" in
  let Hx := fresh "Hx" in let H := fresh "H" in
  intros x v s Hx H; cbn [In] in Hx;
  repeat (destruct Hx as [Hx|Hx]; [subst x; rd_simpl; exact H|]);
  contradiction.

Ltac main_fact :=
  first
    [ solve [apply main_sets_uart; [stable_tac|pure_sets]]
    | solve [apply main_sets_pwm; [stable_tac|pure_keeps|pure_sets]]
    | solve [apply main_sets_adc;
             [stable_tac|pure_keeps|pure_keeps
             |first [apply adc_conf_apb2enr|apply adc_conf_ccr|apply adc_conf_smpr
                    |apply adc_conf_cfgr1|apply adc_conf_chselr]]]
    | solve [apply main_sets_systick; [stable_tac|pure_keeps|pure_keeps|adc_keeps|pure_sets]]
    | solve [apply main_sets_clk;
             [stable_tac|pure_keeps|pure_keeps|adc_keeps|pure_keeps
             |first [apply clk_conf_hsion|apply clk_conf_sw]]] ].

Lemma cupdate_Some f cw u cw' :
  cupdate f cw = Some (u, cw') -> chip cw' = f (chip cw) /\ future cw' = future cw.
Proof. intros H. injection H as _ <-. auto. Qed.

Lemma main_core_post n cw a cw' :
  main n cw = Some (a, cw') ->
  0 <= TIM2_CCR1 (core (chip cw')) <= 99 /\
  (exists out,
     wire (core (chip cw')) = wire (core (chip cw)) ++
       (bytes_of "STM32F0xx Demo" ++ [13; 10]) ++
       (bytes_of "T - to toggle temperature reading" ++ [13; 10]) ++
       (bytes_of "L<0-99> - to set LED brightness" ++ [13; 10]) ++ out) /\
  (n = 0%nat ->
   a = 0 /\ TIM2_CCR1 (core (chip cw')) = 0 /\
   wire (core (chip cw')) = wire (core (chip cw)) ++
     (bytes_of "STM32F0xx Demo" ++ [13; 10]) ++
     (bytes_of "T - to toggle temperature reading" ++ [13; 10]) ++
     (bytes_of "L<0-99> - to set LED brightness" ++ [13; 10])).
Proof.
  intros Hrun. unfold main in Hrun.
  apply cbind_Some in Hrun as (u1 & cw1 & E1 & Hrun).
  apply cbind_Some in Hrun as (u2 & cw2 & E2 & Hrun).
  apply cbind_Some in Hrun as (u3 & cw3 & E3 & Hrun).
  apply cbind_Some in Hrun as (u4 & cw4 & E4 & Hrun).
  apply cbind_Some in Hrun as (u5 & cw5 & E5 & Hrun).
  pose proof (cpreserves_clk_conf same_io same_io_refl same_io_trans same_io_hw_step
                _ _ _ E1) as (W1 & _ & _).
  apply cupdate_Some in E2 as (C2 & _).
  pose proof (cpreserves_adc_conf same_io same_io_refl same_io_trans same_io_hw_step
                _ _ _ E3) as (W3 & _ & _).
  apply cupdate_Some in E4 as (C4 & _).
  apply cupdate_Some in E5 as (C5 & _).
  assert (W5 : wire (core (chip cw5)) = wire (core (chip cw))).
  { rewrite C5, C4. unfold uart_conf, pwm_led_init. cbv zeta. rd_simpl.
    cbn [set_TIM2_CCR1 wire]. rewrite W3, C2. unfold systick_init. cbv zeta. rd_simpl.
    exact W1. }
  assert (D5 : TIM2_CCR1 (core (chip cw5)) = 0).
  { rewrite C5, C4. unfold uart_conf, pwm_led_init. cbv zeta. rd_simpl. reflexivity. }
  apply lift_Some in Hrun as (w' & E & Hc & _). cbv zeta in Hc.
  rewrite Hc. cbn [core].
  destruct (main_from_drain_start _ _ _ _ E) as (w3 & c & _ & _ & D & W & Hloop).
  cbn [regs] in D, W. rewrite D5 in D. rewrite W5 in W.
  split; [|split].
  - destruct (inv_main_loop duty_rel duty_rel_trans duty_rel_io duty_rel_duty
                n 0 _ _ _ Hloop) as [Hd|Hd]; [rewrite Hd, D; lia|exact Hd].
  - destruct (inv_main_loop _ wire_grows_trans wire_grows_io wire_grows_duty
                n 0 _ _ _ Hloop) as [out Hout].
    exists out. rewrite Hout, W, <- !app_assoc. reflexivity.
  - intros ->. cbn [main_loop] in Hloop. injection Hloop as <- <-. auto.
Qed.

(** X25: when [main] has come as far as its loop, the hardware having
    changed status bits only, the whole configuration is in place
    together: the HSI is on and selected; SysTick runs from the
    processor clock with its interrupt, every 8000 cycles; the ADC has
    its clock, the temperature sensor, the long sampling time, the
    continuous mode and channel 16; PA5 carries TIM2 channel 1 in PWM
    mode 1 with a period of 100 steps of 1/10 ms; PA2 and PA3 carry
    USART2 at 8N1 with divisor 833.  No later step of the start-up
    undoes an earlier one. *)
Theorem main_configures_chip (n : nat) (cw : cworld) (a : Z) (cw' : cworld) :
  Forall confined (future cw) -> main n cw = Some (a, cw') ->
  (Z.testbit (rd RCC_CR (chip cw')) 0 = true /\
   field 0 2 (rd RCC_CFGR (chip cw')) = 0) /\
  (field 0 3 (rd SYST_CSR (chip cw')) = 7 /\
   rd SYST_RVR (chip cw') = 7999) /\
  (Z.testbit (rd RCC_APB2ENR (chip cw')) 9 = true /\
   Z.testbit (rd ADC_CCR (chip cw')) 23 = true /\
   field 0 3 (rd ADC_SMPR (chip cw')) = 7 /\
   Z.testbit (rd ADC_CFGR1 (chip cw')) 13 = true /\
   Z.testbit (rd ADC_CHSELR (chip cw')) 16 = true) /\
  (Z.testbit (rd RCC_AHBENR (chip cw')) 17 = true /\
   Z.testbit (rd RCC_APB1ENR (chip cw')) 0 = true /\
   field 10 2 (rd GPIOA_MODER (chip cw')) = 2 /\
   field 20 4 (rd GPIOA_AFRL (chip cw')) = 2 /\
   rd TIM2_PSC (chip cw') = 799 /\
   rd TIM2_ARR (chip cw') = 99 /\
   field 4 3 (rd TIM2_CCMR1 (chip cw')) = 6 /\
   Z.testbit (rd TIM2_CCMR1 (chip cw')) 3 = true /\
   Z.testbit (rd TIM2_CCER (chip cw')) 0 = true /\
   Z.testbit (rd TIM2_CR1 (chip cw')) 0 = true) /\
  (Z.testbit (rd RCC_APB1ENR (chip cw')) 17 = true /\
   field 4 2 (rd GPIOA_MODER (chip cw')) = 2 /\
   field 6 2 (rd GPIOA_MODER (chip cw')) = 2 /\
   field 8 4 (rd GPIOA_AFRL (chip cw')) = 1 /\
   field 12 4 (rd GPIOA_AFRL (chip cw')) = 1 /\
   Z.testbit (rd USART_CR1 (chip cw')) 15 = false /\
   Z.testbit (rd USART_CR1 (chip cw')) 12 = false /\
   Z.testbit (rd USART_CR1 (chip cw')) 28 = false /\
   Z.testbit (rd USART_CR1 (chip cw')) 10 = false /\
   field 12 2 (rd USART_CR2 (chip cw')) = 0 /\
   rd USART_BRR (chip cw') = 833 /\
   Z.testbit (rd USART_CR1 (chip cw')) 3 = true /\
   Z.testbit (rd USART_CR1 (chip cw')) 2 = true /\
   Z.testbit (rd USART_CR1 (chip cw')) 0 = true).
Proof.
  intros HP Hrun.
  assert (F : forall Q : soc -> Prop,
             hoare confined (fun _ => True) (main n) Q -> Q (chip cw'))
    by (intros Q HQ; exact (proj1 (HQ _ _ _ HP I Hrun))).
  repeat split; pattern (chip cw'); apply F; main_fact.
Qed.



(** Every register holds all ones before: the fields are still written. *)
Lemma main_configures_chip_witness :
  exists cw',
    main 0 (CWorld (Soc (<[GPIOA_MODER := 0xFFFFFFFF]> (<[USART_CR1 := 0xFFFFFFFF]> ∅))
                        h_reset)
               (repeat calm 400)) = Some (0, cw') /\
    field 10 2 (rd GPIOA_MODER (chip cw')) = 2 /\
    Z.testbit (rd USART_CR1 (chip cw')) 12 = false /\
    rd SYST_RVR (chip cw') = 7999.
Proof.
  destruct (main 0 (CWorld (Soc (<[GPIOA_MODER := 0xFFFFFFFF]>
                                   (<[USART_CR1 := 0xFFFFFFFF]> ∅)) h_reset)
                           (repeat calm 400)))
    as [[a cw']|] eqn:E; [|vm_compute in E; discriminate E].
  destruct (main_configures_chip 0
              (CWorld (Soc (<[GPIOA_MODER := 0xFFFFFFFF]> (<[USART_CR1 := 0xFFFFFFFF]> ∅))
                           h_reset) (repeat calm 400))
              a cw' (confined_calm 400) E)
    as (_ & (_ & H2) & _ & (_ & _ & H3 & _) & (_ & _ & _ & _ & _ & _ & H4 & _)).
  assert (Ha : a = 0) by (vm_compute in E; now injection E as <- _).
  subst a. exists cw'. split; [reflexivity|]. auto.
Defined.

Lemma main_arr n cw a cw' :
  Forall confined (future cw) -> main n cw = Some (a, cw') -> rd TIM2_ARR (chip cw') = 99.
Proof.
  intros HP Hrun.
  assert (HQ : hoare confined (fun _ => True) (main n) (fun s => rd TIM2_ARR s = 99))
    by main_fact.
  exact (proj1 (HQ _ _ _ HP I Hrun)).
Qed.

(** X26: when [main] has come as far as its loop, the hardware having
    changed status bits only: the duty cycle is within the period that
    [pwm_led_init] programmed, whatever has arrived on the serial line;
    the first bytes sent are the three banner lines; at least 170 ticks
    have passed since the start; and before the first round of the loop
    the flag is 0 and the duty cycle is 0. *)
Theorem main_reaches_command_loop (n : nat) (cw : cworld) (a : Z) (cw' : cworld) :
  Forall confined (future cw) -> main n cw = Some (a, cw') ->
  0 <= TIM2_CCR1 (core (chip cw')) <= rd TIM2_ARR (chip cw') /\
  (exists out,
     wire (core (chip cw')) = wire (core (chip cw)) ++
       (bytes_of "STM32F0xx Demo" ++ [13; 10]) ++
       (bytes_of "T - to toggle temperature reading" ++ [13; 10]) ++
       (bytes_of "L<0-99> - to set LED brightness" ++ [13; 10]) ++ out) /\
  (exists c, future cw = c ++ future cw' /\ 170 <= Z.of_nat (ticks (map fst c))) /\
  (n = 0%nat -> a = 0 /\ TIM2_CCR1 (core (chip cw')) = 0).
Proof.
  intros HP Hrun.
  destruct (main_core_post _ _ _ _ Hrun) as (Hd & Hw & H0).
  rewrite (main_arr _ _ _ _ HP Hrun). split; [exact Hd|]. split; [exact Hw|].
  split; [exact (cconsumes_main n _ _ _ Hrun)|].
  intros Hn. destruct (H0 Hn) as (Ha & Hc & _). auto.
Qed.

(** With nothing typed, the banner's 84 bytes are all that was sent. *)
Lemma main_reaches_command_loop_witness :
  exists cw',
    main 0 (CWorld (Soc ∅ h_reset) (repeat calm 400)) = Some (0, cw') /\
    TIM2_CCR1 (core (chip cw')) = 0 /\
    length (wire (core (chip cw'))) = 84%nat.
Proof.
  destruct (main 0 (CWorld (Soc ∅ h_reset) (repeat calm 400)))
    as [[a cw']|] eqn:E; [|vm_compute in E; discriminate E].
  destruct (main_reaches_command_loop 0 (CWorld (Soc ∅ h_reset) (repeat calm 400))
              a cw' (confined_calm 400) E)
    as (_ & _ & _ & H0).
  destruct (H0 eq_refl) as (-> & Hc).
  exists cw'. split; [reflexivity|]. split; [exact Hc|].
  vm_compute in E. injection E as <-. reflexivity.
Defined.

(** ** Start-up comes to an end *)

Lemma total_within_banner_loop :
  total_within 136 (delay_ms 50 ;; main_from_banner 0).
Proof.
  change 136%nat with (Z.to_nat 50 + 2 + (16 + (35 + (33 + 0))))%nat.
  apply total_within_bind; [apply total_within_delay_ms; lia|intros _].
  unfold main_from_banner. cbv zeta.
  apply total_within_bind; [apply (total_within_uart_send_string (nth 0 msg_banner []))|intros _].
  apply total_within_bind; [apply (total_within_uart_send_string (nth 1 msg_banner []))|intros _].
  apply total_within_bind; [apply (total_within_uart_send_string (nth 2 msg_banner []))|intros _].
  apply total_within_ret.
Qed.

Lemma good_take k sched : Forall good_batch sched -> (ticks (take k sched) <= 4)%nat \/ (4 < k)%nat.
Proof.
  intros H. destruct (Nat.le_gt_cases k 4) as [Hk|Hk]; [left|now right].
  pose proof (good_ticks_length (take k sched) (Forall_take _ _ _ H)) as Hl.
  rewrite length_take in Hl. lia.
Qed.

Lemma main_from_drain_total h sched :
  Forall good_batch sched -> Forall no_rx sched -> (140 <= ticks sched)%nat ->
  exists a h' c sched',
    main_from_drain 0 (World h sched) = Some (a, World h' sched') /\
    sched = c ++ sched' /\ (ticks c <= 140)%nat.
Proof.
  intros Hgood Hno Hticks.
  pose proof (good_ticks_length sched Hgood) as Hlen.
  destruct (drain_receiver_total h sched Hno) as (h1 & d & k & Hk & E1 & _); [lia|].
  assert (Hsplit : sched = take k sched ++ drop k sched) by (symmetry; apply take_drop).
  assert (Htk : (ticks (take k sched) <= 4)%nat)
    by (destruct (good_take k sched Hgood); lia).
  assert (Hgood1 : Forall good_batch (drop k sched)) by now apply Forall_drop.
  assert (Hn1 : (136 <= ticks (drop k sched))%nat).
  { rewrite Hsplit, ticks_app in Hticks. lia. }
  destruct (total_within_banner_loop h1 (drop k sched) Hgood1 Hn1)
    as (a & h2 & c2 & s2 & E2 & Hs2 & Hc2 & _).
  exists a, h2, (take k sched ++ c2), s2.
  split; [|split].
  - unfold main_from_drain. unfold bind at 1. cbn [pending]. rewrite E1. exact E2.
  - rewrite <- app_assoc, <- Hs2. exact Hsplit.
  - rewrite ticks_app. lia.
Qed.

Lemma cooperative_batches sched :
  Forall cooperative sched ->
  Forall good_batch (map fst sched) /\ Forall no_rx (map fst sched).
Proof.
  induction 1 as [|st sched (Hg & Hn & _) _ [IH1 IH2]]; simpl; split; constructor; assumption.
Qed.

Lemma cooperative_one_tick st : cooperative st -> (ticks (map fst [st]) <= 1)%nat.
Proof. intros ((_ & H) & _). simpl. rewrite Nat.add_0_r. exact H. Qed.

Lemma ticks_nonempty (sched : list moment) n :
  (S n <= ticks (map fst sched))%nat -> exists st rest, sched = st :: rest.
Proof. destruct sched as [|st rest]; simpl; [lia|eauto]. Qed.

Lemma ctotal_weaken n n' (Pre Pre' Post Post' : soc -> Prop) {A} (m : Conf A) :
  ctotal n' Pre' m Post' -> (n' <= n)%nat ->
  (forall s, Pre s -> Pre' s) -> (forall s, Post' s -> Post s) ->
  ctotal n Pre m Post.
Proof.
  intros H Hn H1 H2 s sched Hco Hpre Ht.
  destruct (H s sched Hco (H1 _ Hpre)) as (r & s' & c & sched' & E & Hs & Hc & Hpost); [lia|].
  exists r, s', c, sched'. repeat split; auto. lia.
Qed.

Lemma ctotal_cret Q {A} (a : A) : ctotal 0 Q (cret a) Q.
Proof. intros s sched _ HQ _. exists a, s, [], sched. repeat split; auto. Qed.

Lemma ctotal_cupdate (Pre Post : soc -> Prop) f :
  (forall s, Pre s -> Post (f s)) -> ctotal 0 Pre (cupdate f) Post.
Proof. intros H s sched _ HQ _. exists tt, (f s), [], sched. repeat split; auto. Qed.

Lemma ctotal_cbind n1 n2 (Pre Mid Post : soc -> Prop) {A B} (m : Conf A) (k : A -> Conf B) :
  ctotal n1 Pre m Mid -> (forall a, ctotal n2 Mid (k a) Post) ->
  ctotal (n1 + n2) Pre (cbind m k) Post.
Proof.
  intros Hm Hk s sched Hco Hpre Ht.
  destruct (Hm s sched Hco Hpre) as (a & s1 & c1 & sched1 & E1 & Hs1 & Hc1 & Hmid); [lia|].
  assert (Hco1 : Forall cooperative sched1)
    by (rewrite Hs1 in Hco; apply Forall_app in Hco; tauto).
  assert (Ht1 : (n2 <= ticks (map fst sched1))%nat).
  { rewrite Hs1, map_app, ticks_app in Ht. unfold moment in *. lia. }
  destruct (Hk a s1 sched1 Hco1 Hmid Ht1) as (r & s2 & c2 & sched2 & E2 & Hs2 & Hc2 & Hpost).
  exists r, s2, (c1 ++ c2), sched2. unfold cbind. rewrite E1.
  split; [exact E2|]. split; [rewrite Hs1, Hs2; apply app_assoc|]. split; [|exact Hpost].
  rewrite map_app, ticks_app. unfold moment in *. lia.
Qed.

Lemma ctotal_crmw (Pre Post : soc -> Prop) a f :
  stable cooperative Pre -> (forall s, Pre s -> Post (wr a (f (rd a s)) s)) ->
  ctotal 1 Pre (crmw a f) Post.
Proof.
  intros [Hst _] H s sched Hco Hpre Ht.
  destruct (ticks_nonempty _ _ Ht) as (st & rest & ->).
  inversion Hco as [|? ? Hc Hco']; subst.
  exists tt, (wr a (f (rd a (chip_step s st))) (chip_step s st)), [st], rest.
  split; [reflexivity|]. split; [reflexivity|].
  split; [now apply cooperative_one_tick|]. apply H. now apply Hst.
Qed.

Lemma ctotal_cread_bind n (Pre Post : soc -> Prop) a {B} (k : Z -> Conf B) :
  stable cooperative Pre ->
  (forall v, ctotal n (fun s => Pre s /\ rd a s = v) (k v) Post) ->
  ctotal (1 + n) Pre (cbind (cread a) k) Post.
Proof.
  intros [Hst _] Hk s sched Hco Hpre Ht.
  destruct (ticks_nonempty _ _ Ht) as (st & rest & ->).
  inversion Hco as [|? ? Hc Hco']; subst.
  pose proof (cooperative_one_tick st Hc) as H1.
  assert (Ht' : (n <= ticks (map fst rest))%nat).
  { change (st :: rest) with ([st] ++ rest) in Ht. rewrite map_app, ticks_app in Ht.
    unfold moment in *. lia. }
  destruct (Hk (rd a (chip_step s st)) (chip_step s st) rest Hco')
    as (r & s2 & c2 & sched2 & E2 & Hs2 & Hc2 & Hpost); [split; [now apply Hst|reflexivity]|exact Ht'|].
  exists r, s2, ([st] ++ c2), sched2.
  split; [exact E2|]. split; [now rewrite Hs2|]. split; [|exact Hpost].
  rewrite map_app, ticks_app. unfold moment in *. lia.
Qed.

Lemma ctotal_cspin_while (Pre Post : soc -> Prop) cond :
  (forall s st, cooperative st -> Pre s ->
     cond (chip_step s st) = false /\ Post (chip_step s st)) ->
  ctotal 1 Pre (cspin_while cond) Post.
Proof.
  intros H s sched Hco Hpre Ht.
  destruct (ticks_nonempty _ _ Ht) as (st & rest & ->).
  inversion Hco as [|? ? Hc Hco']; subst.
  destruct (H s st Hc Hpre) as [Hcond Hpost].
  exists tt, (chip_step s st), [st], rest.
  unfold cspin_while. cbn [chip future cspin]. rewrite Hcond.
  split; [reflexivity|]. split; [reflexivity|]. split; [now apply cooperative_one_tick|exact Hpost].
Qed.

Lemma ctotal_lift n Q {A} (m : M A) :
  (forall h sched, Forall good_batch sched -> Forall no_rx sched -> (n <= ticks sched)%nat ->
     exists a h' c sched',
       m (World h sched) = Some (a, World h' sched') /\
       sched = c ++ sched' /\ (ticks c <= n)%nat) ->
  stable cooperative Q -> ctotal n Q (lift m) Q.
Proof.
  intros Hm Hst s sched Hco HQ Ht.
  destruct (cooperative_batches sched Hco) as [Hg Hn].
  destruct (Hm (core s) (map fst sched) Hg Hn Ht) as (a & h' & c & sched' & E & Hs & Hc).
  assert (Hk : (length sched - length sched' = length c)%nat).
  { assert (Hl : length (map fst sched) = length sched) by apply length_map.
    rewrite Hs, length_app in Hl. lia. }
  assert (Hm' : map fst (take (length c) sched) = c).
  { rewrite <- firstn_map.
    etransitivity; [|apply (take_app_length c sched')]. f_equal. exact Hs. }
  exists a, (Soc (mem (fold_left chip_step (take (length c) sched) s)) h'),
         (take (length c) sched), (drop (length c) sched).
  split; [|split; [|split]].
  - unfold lift. cbn [chip future]. rewrite E. cbn [pending regs]. now rewrite Hk.
  - symmetry. apply take_drop.
  - rewrite <- Hm' in Hc. exact Hc.
  - apply (proj2 Hst). apply (stable_fold cooperative); auto. now apply Forall_take.
Qed.

Lemma ctotal_lift_total_within n Q {A} (m : M A) :
  total_within n m -> stable cooperative Q -> ctotal n Q (lift m) Q.
Proof.
  intros Hm. apply ctotal_lift. intros h sched Hg _ Ht.
  destruct (Hm h sched Hg Ht) as (a & h' & c & sched' & E & Hs & Hc & _).
  exists a, h', c, sched'. auto.
Qed.

Lemma ctotal_absurd n (Pre Post : soc -> Prop) {A} (m : Conf A) :
  (forall s, ~ Pre s) -> ctotal n Pre m Post.
Proof. intros H s sched _ Hpre. destruct (H s Hpre). Qed.

(** What the start-up relies on: the HSI is in use and the ADC is
    disabled, as after a reset. *)
Lemma stable_cooperative_sws :
  stable cooperative (fun s => field 2 2 (rd RCC_CFGR s) = 0).
Proof.
  split; [|auto]. intros s st (_ & _ & H) HQ.
  destruct (H s) as (_ & _ & H3 & _). now rewrite H3.
Qed.

Lemma stable_cooperative_aden b :
  stable cooperative (fun s => Z.testbit (rd ADC_CR s) 0 = b).
Proof.
  split; [|auto]. intros s st (_ & _ & H) HQ.
  destruct (H s) as (_ & _ & _ & H4). now rewrite H4.
Qed.

Lemma field_SWS_land x :
  field 2 2 x = 0 -> (Z.land x RCC_CFGR_SWS =? RCC_CFGR_SWS_HSI) = true.
Proof.
  intros H. apply Z.eqb_eq. apply Z.bits_inj'. intros k Hk.
  unfold RCC_CFGR_SWS, RCC_CFGR_SWS_HSI. rewrite Z.land_spec. bits_rw.
  destruct (Z.leb_spec 0 (k - 2)); [|now rewrite andb_false_r].
  destruct (Z.ltb_spec (k - 2) 2); [|now rewrite andb_false_r].
  assert (Hb : Z.testbit (field 2 2 x) (k - 2) = false) by (rewrite H; apply Z.testbit_0_l).
  rewrite field_spec in Hb by lia. replace (k - 2 + 2) with k in Hb by lia.
  destruct (Z.ltb_spec (k - 2) 2); [|lia]. cbn [andb] in Hb. now rewrite Hb.
Qed.

Lemma stable_cooperative_reset :
  stable cooperative
    (fun s => field 2 2 (rd RCC_CFGR s) = 0 /\ Z.testbit (rd ADC_CR s) 0 = false).
Proof. apply stable_and; [apply stable_cooperative_sws|apply stable_cooperative_aden]. Qed.

Lemma ctotal_clk_conf :
  ctotal 5
    (fun s => field 2 2 (rd RCC_CFGR s) = 0 /\ Z.testbit (rd ADC_CR s) 0 = false)
    clk_conf
    (fun s => Z.testbit (rd ADC_CR s) 0 = false).
Proof.
  pose proof stable_cooperative_reset as Hst.
  set (Q := fun s => field 2 2 (rd RCC_CFGR s) = 0 /\ Z.testbit (rd ADC_CR s) 0 = false) in *.
  unfold clk_conf, RCC_CFGR_SW, RCC_CFGR_SW_HSI.
  change 5%nat with (1 + (1 + (1 + (1 + 1))))%nat.
  apply (ctotal_cbind _ _ _ Q).
  { apply ctotal_crmw; [exact Hst|]. intros s [H1 H2]. split; rd_simpl; assumption. }
  intros _. apply (ctotal_cbind _ _ _ Q).
  { apply ctotal_cspin_while. intros s st Hc HQ. split; [|now apply (proj1 Hst)].
    destruct Hc as (_ & _ & Hc). destruct (Hc s) as (H1 & _).
    unfold RCC_CR_HSIRDY. rewrite land_bit by lia. now rewrite H1. }
  intros _. apply (ctotal_cbind _ _ _ Q).
  { apply ctotal_crmw; [exact Hst|]. intros s [H1 H2]. split; rd_simpl; [|assumption].
    rewrite <- H1. bits. }
  intros _. apply (ctotal_cbind _ _ _ Q).
  { apply ctotal_crmw; [exact Hst|]. intros s [H1 H2]. split; rd_simpl; [|assumption].
    rewrite <- H1. bits. }
  intros _. apply ctotal_cspin_while. intros s st Hc HQ.
  destruct (proj1 Hst s st Hc HQ) as [H1 H2]. split; [|exact H2].
  now rewrite field_SWS_land.
Qed.

Lemma ctotal_adc_conf :
  ctotal 130 (fun s => Z.testbit (rd ADC_CR s) 0 = false) adc_conf (fun _ => True).
Proof.
  pose proof (stable_cooperative_aden false) as Hst.
  pose proof (stable_cooperative_aden true) as Hst1.
  set (Q := fun s => Z.testbit (rd ADC_CR s) 0 = false) in *.
  set (Q1 := fun s => Z.testbit (rd ADC_CR s) 0 = true) in *.
  unfold adc_conf.
  change 130%nat
    with (0 + ((1 + (0 + (1 + (1 + (0 + (0 + (102 + (0 + (0 + (1 + (1 + (22 + 1))))))))))))))%nat.
  apply (ctotal_cbind _ _ _ Q).
  { apply ctotal_cupdate. intros s H. unfold Q. rd_simpl. exact H. }
  intros _. apply ctotal_cread_bind; [exact Hst|]. intros cr.
  apply (ctotal_cbind _ _ _ Q).
  { destruct (Z.land cr ADC_CR_ADEN =? 0) eqn:E.
    - eapply ctotal_weaken; [apply (ctotal_cret Q)|lia|now intros s [H _]|auto].
    - apply ctotal_absurd. intros s [H1 H2]. unfold ADC_CR_ADEN in E.
      rewrite land_bit, <- H2, H1 in E by lia. discriminate E. }
  intros _. apply (ctotal_cbind _ _ _ (fun _ => True)).
  { apply ctotal_crmw; [exact Hst|]. auto. }
  intros _. apply (ctotal_cbind _ _ _ (fun s => Z.testbit (rd ADC_CR s) 31 = false)).
  { apply ctotal_cspin_while. intros s st Hc _.
    destruct Hc as (_ & _ & Hc). destruct (Hc s) as (_ & H2 & _).
    split; [|exact H2]. unfold ADC_CR_ADCAL. rewrite land_bit by lia. now rewrite H2. }
  intros _. apply (ctotal_cbind _ _ _ (fun _ => True)); [now apply ctotal_cupdate|].
  intros _. apply (ctotal_cbind _ _ _ (fun _ => True)); [now apply ctotal_cupdate|].
  intros _. apply (ctotal_cbind _ _ _ (fun _ => True)).
  { apply ctotal_lift_total_within; [|apply stable_True].
    apply (total_within_delay_ms 100). lia. }
  intros _. apply (ctotal_cbind _ _ _ (fun _ => True)); [now apply ctotal_cupdate|].
  intros _. apply (ctotal_cbind _ _ _ (fun _ => True)); [now apply ctotal_cupdate|].
  intros _. apply (ctotal_cbind _ _ _ Q1).
  { apply ctotal_crmw; [apply stable_True|]. intros s _. unfold Q1, ADC_CR_ADEN.
    rd_simpl. now rewrite Z.lor_spec, orb_true_r. }
  intros _. apply (ctotal_cbind _ _ _ (fun _ => True)).
  { apply ctotal_cspin_while. intros s st Hc H. split; [|exact I].
    pose proof (proj1 Hst1 s st Hc H) as H'. unfold Q1 in H'.
    unfold ADC_CR_ADEN. rewrite land_bit by lia. now rewrite H'. }
  intros _. apply (ctotal_cbind _ _ _ (fun _ => True)).
  { apply ctotal_lift_total_within; [|apply stable_True].
    apply (total_within_delay_ms 20). lia. }
  intros _. apply ctotal_crmw; [apply stable_True|auto].
Qed.

Lemma ctotal_main :
  ctotal 275
    (fun s => field 2 2 (rd RCC_CFGR s) = 0 /\ Z.testbit (rd ADC_CR s) 0 = false)
    (main 0) (fun _ => True).
Proof.
  set (Q := fun s => Z.testbit (rd ADC_CR s) 0 = false).
  unfold main. change 275%nat with (5 + (0 + (130 + (0 + (0 + 140)))))%nat.
  apply (ctotal_cbind _ _ _ Q); [apply ctotal_clk_conf|].
  intros _. apply (ctotal_cbind _ _ _ Q).
  { apply ctotal_cupdate. intros s H. unfold Q, systick_init. cbv zeta. rd_simpl. exact H. }
  intros _. apply (ctotal_cbind _ _ _ (fun _ => True)); [apply ctotal_adc_conf|].
  intros _. apply (ctotal_cbind _ _ _ (fun _ => True)); [now apply ctotal_cupdate|].
  intros _. apply (ctotal_cbind _ _ _ (fun _ => True)); [now apply ctotal_cupdate|].
  intros _. apply ctotal_lift; [|apply stable_True].
  intros h sched Hg Hn Ht. apply main_from_drain_total; assumption.
Qed.

Lemma cooperative_calm : cooperative calm.
Proof.
  split; [|split].
  - split; [now left|simpl; lia].
  - intros c [H|[H|[]]]; discriminate H.
  - intros s. rewrite !rd_chip_step. unfold calm. cbn [snd fold_left soc_step].
    unfold RCC_CR_HSIRDY, ADC_CR_ADCAL. rd_simpl.
    repeat split.
    + now rewrite Z.lor_spec, orb_true_r.
    + rewrite Z.ldiff_spec. now rewrite andb_false_r.
    + rewrite Z.ldiff_spec. now rewrite andb_true_r.
Qed.

(** X27: the start-up comes to an end.  From a state in which the HSI
    is the clock in use and the ADC is disabled, as after a reset, and
    on cooperative moments, [main] reaches its loop with the flag at 0;
    by then at least 170 and at most 275 ticks have passed. *)
Theorem main_reaches_loop_in_time (s : soc) (sched : list moment) :
  Forall cooperative sched ->
  field 2 2 (rd RCC_CFGR s) = 0 -> Z.testbit (rd ADC_CR s) 0 = false ->
  (275 <= ticks (map fst sched))%nat ->
  exists cw' c,
    main 0 (CWorld s sched) = Some (0, cw') /\
    sched = c ++ future cw' /\
    170 <= Z.of_nat (ticks (map fst c)) <= 275.
Proof.
  intros Hco H1 H2 Ht.
  destruct (ctotal_main s sched Hco (conj H1 H2) Ht) as (a & s' & c & sched' & E & Hs & Hc & _).
  destruct (main_core_post _ _ _ _ E) as (_ & _ & H0). destruct (H0 eq_refl) as (-> & _).
  exists (CWorld s' sched'), c. split; [exact E|]. split; [exact Hs|].
  destruct (cconsumes_main 0 _ _ _ E) as (c' & Hs' & Hc'). cbn [future] in Hs'.
  assert (c' = c) by (rewrite Hs in Hs'; now apply app_inv_tail in Hs').
  subst c'. split; [exact Hc'|]. unfold moment in *. lia.
Qed.

(** 300 calm moments are enough, and 25 of them are left. *)
Lemma main_reaches_loop_in_time_witness :
  exists cw',
    main 0 (CWorld (Soc ∅ h_reset) (repeat calm 300)) = Some (0, cw') /\
    (25 <= length (future cw'))%nat.
Proof.
  destruct (main_reaches_loop_in_time (Soc ∅ h_reset) (repeat calm 300))
    as (cw' & c & E & Hs & _ & Hc).
  - apply List.Forall_forall. intros st Hst. apply repeat_spec in Hst. subst st.
    apply cooperative_calm.
  - reflexivity.
  - reflexivity.
  - apply Nat.leb_le. vm_compute. reflexivity.
  - exists cw'. split; [exact E|].
    vm_compute in E. injection E as <-. vm_compute. lia.
Defined.
